(** * Snowboard.js: plugin loader, trait composition and access mediation

    A shallow embedding of [packages/base/src/main/PluginLoader.ts],
    [InnerProxyHandler.ts] and [abstracts/PluginBase.ts], followed by the
    handler of the outer proxy ([main/ProxyHandler.ts]), the traits
    [FiresEvents] and [Configurable], and the trait composition of the
    older loader.

    The loader is JavaScript that reads and writes object members, walks
    prototype links and calls user-supplied hooks.  The embedding keeps these
    as the code has them:

    - objects live in a heap; each has an internal prototype link (what
      [Object.getPrototypeOf] returns) and a list of own data properties with
      their attributes.  A member called ["prototype"] is an ordinary member:
      [x.prototype] and [Object.getPrototypeOf(x)] are different expressions
      of the source and stay different here;
    - the loader's private fields ([#instances], [#singleton], [#mocks],
      [#originalFunctions]) are components of the state;
    - exceptions are results [Err e]; a throw keeps the writes made before it;
    - the steps that the outside can tell apart (an object built with [new],
      a lifecycle hook entered, a member assigned or defined, an instance
      recorded, a warning) are appended to an event trace.

    Limits of the embedding: members are data properties (no getters or
    setters), member names are ordinary names (no symbols, no array indices,
    no [__proto__]), numbers are integers, strings are ASCII, and a
    user-supplied function is a body that returns a fixed answer or throws
    without touching the heap or the loader. *)

From Stdlib Require Import List String Ascii Bool Arith ZArith Lia.
Import ListNotations.
Local Open Scope string_scope.
Local Open Scope list_scope.

(* ================================================================== *)
(** ** Strings *)

Module Str.

(** [String.prototype.toLowerCase] on ASCII. *)
Definition lower_ascii (c : ascii) : ascii :=
  let n := nat_of_ascii c in
  if ((65 <=? n)%nat && (n <=? 90)%nat)%bool then ascii_of_nat (n + 32) else c.

Fixpoint toLowerCase (s : string) : string :=
  match s with
  | EmptyString => EmptyString
  | String c r => String (lower_ascii c) (toLowerCase r)
  end.

(** [Array.prototype.join]. *)
Fixpoint join (sep : string) (xs : list string) : string :=
  match xs with
  | [] => EmptyString
  | [x] => x
  | x :: r => (x ++ sep ++ join sep r)%string
  end.

(** [Array.prototype.includes] on an array of strings. *)
Definition includes (xs : list string) (x : string) : bool :=
  existsb (String.eqb x) xs.

(** The double-quote character, and a name between double quotes. *)
Definition dquote : string := String (ascii_of_nat 34) EmptyString.

Definition quoted (s : string) : string := (dquote ++ s ++ dquote)%string.

(** [msg] contains [part] as a contiguous piece. *)
Definition mentions (msg part : string) : Prop :=
  exists pre post, msg = (pre ++ part ++ post)%string.

End Str.

(* ================================================================== *)
(** ** Values, objects and the heap *)

Module JS.

Definition loc := nat.

(** What a mock wrapper passes as first argument: the instance
    ([getInstance]) or the loader ([mock]). *)
Inductive receiver :=
| RInstance (l : loc)
| RLoader.

(** What a user-supplied function hands back. *)
Inductive answer :=
| AUndefined
| ABool (b : bool)
| AStrings (xs : list string).

Inductive outcome :=
| Returns (a : answer)
| Throws (msg : string).

Inductive func :=
| FUser (id : string) (body : outcome)
    (* a function written by the plugin or trait author *)
| FDetach (inst : loc)
    (* [() => this.#instances.delete(newInstance)] *)
| FMock (callback : func) (bound : receiver)
    (* [(...params) => callback(bound, ...params)] *)
| FNative (name : string).
    (* a function that the loader never calls, such as
       [PluginBase.prototype.destructor]; its body is not run as a value *)

Inductive value :=
| VUndefined
| VNull
| VBool (b : bool)
| VNumber (n : Z)
| VString (s : string)
| VSnowboard            (* the registry handle [this.#snowboard] *)
| VLoader               (* the loader object *)
| VRef (l : loc)        (* an object of the heap, classes included *)
| VFun (f : func).

(** An own data property, as [Object.getOwnPropertyDescriptor] shows it. *)
Record property := Prop_ {
  p_value : value;
  p_writable : bool;
  p_enumerable : bool;
  p_configurable : bool
}.

(** The property an assignment creates. *)
Definition plain (v : value) : property := Prop_ v true true true.

(** The property a class body gives a method. *)
Definition method (v : value) : property := Prop_ v true false true.

Record object := Obj {
  o_proto : option loc;                 (* internal prototype link *)
  o_props : list (string * property);   (* own properties, in creation order *)
  o_extensible : bool;
  o_fields : option (list (string * value))
    (* [Some fs] for a class: the own fields that [new] initialises *)
}.

Definition heap := list object.

Definition receiver_eq_dec (a b : receiver) : {a = b} + {a <> b}.
Proof. decide equality. apply Nat.eq_dec. Defined.

Definition answer_eq_dec (a b : answer) : {a = b} + {a <> b}.
Proof.
  decide equality.
  - apply Bool.bool_dec.
  - apply (list_eq_dec string_dec).
Defined.

Definition outcome_eq_dec (a b : outcome) : {a = b} + {a <> b}.
Proof. decide equality. apply answer_eq_dec. apply string_dec. Defined.

Definition func_eq_dec (a b : func) : {a = b} + {a <> b}.
Proof.
  decide equality.
  - apply outcome_eq_dec.
  - apply string_dec.
  - apply Nat.eq_dec.
  - apply receiver_eq_dec.
  - apply string_dec.
Defined.

Definition value_eq_dec (a b : value) : {a = b} + {a <> b}.
Proof.
  decide equality.
  - apply Bool.bool_dec.
  - apply Z.eq_dec.
  - apply string_dec.
  - apply Nat.eq_dec.
  - apply func_eq_dec.
Defined.

(** [SameValue] on the modelled values. *)
Definition same_value (a b : value) : bool :=
  if value_eq_dec a b then true else false.

(** [!!v]. *)
Definition truthy (v : value) : bool :=
  match v with
  | VUndefined | VNull => false
  | VBool b => b
  | VNumber n => negb (Z.eqb n 0)
  | VString s => negb (String.eqb s EmptyString)
  | VSnowboard | VLoader | VRef _ | VFun _ => true
  end.

Definition is_undefined (v : value) : bool :=
  match v with VUndefined => true | _ => false end.

(** Association lists keyed by member name.  [assoc_set] is what
    [obj[k] = v] and [Map.prototype.set] do to the order of keys: an
    existing key keeps its place, a new key goes last. *)
Fixpoint assoc_get {A} (k : string) (xs : list (string * A)) : option A :=
  match xs with
  | [] => None
  | (k', a) :: r => if String.eqb k k' then Some a else assoc_get k r
  end.

Fixpoint assoc_set {A} (k : string) (a : A) (xs : list (string * A))
  : list (string * A) :=
  match xs with
  | [] => [(k, a)]
  | (k', a') :: r =>
      if String.eqb k k' then (k', a) :: r else (k', a') :: assoc_set k a r
  end.

Fixpoint assoc_del {A} (k : string) (xs : list (string * A))
  : list (string * A) :=
  match xs with
  | [] => []
  | (k', a') :: r =>
      if String.eqb k k' then r else (k', a') :: assoc_del k r
  end.

Definition assoc_has {A} (k : string) (xs : list (string * A)) : bool :=
  match assoc_get k xs with Some _ => true | None => false end.

(** Heap update at a location. *)
Fixpoint update (h : heap) (l : loc) (o : object) : heap :=
  match h, l with
  | [], _ => []
  | _ :: r, O => o :: r
  | x :: r, S n => x :: update r n o
  end.

Definition own (h : heap) (l : loc) (k : string) : option property :=
  match nth_error h l with
  | Some o => assoc_get k (o_props o)
  | None => None
  end.

(** The property found for [k] from [l] upwards along the internal
    prototype links.  A prototype chain of JavaScript is finite and
    acyclic, so it has at most as many links as the heap has objects. *)
Fixpoint find_from (fuel : nat) (h : heap) (l : loc) (k : string)
  : option property :=
  match fuel with
  | O => None
  | S n =>
      match nth_error h l with
      | None => None
      | Some o =>
          match assoc_get k (o_props o) with
          | Some p => Some p
          | None =>
              match o_proto o with
              | Some p => find_from n h p k
              | None => None
              end
          end
      end
  end.

Definition find (h : heap) (l : loc) (k : string) : option property :=
  find_from (S (List.length h)) h l k.

(** [o[k]] for an object [o] of the heap. *)
Definition lookup (h : heap) (l : loc) (k : string) : value :=
  match find h l k with
  | Some p => p_value p
  | None => VUndefined
  end.

(** [typeof v === 'function']. *)
Definition is_function (h : heap) (v : value) : bool :=
  match v with
  | VFun _ => true
  | VRef l =>
      match nth_error h l with
      | Some o => match o_fields o with Some _ => true | None => false end
      | None => false
      end
  | _ => false
  end.

(** [Object.keys(o)]: own enumerable member names, in order. *)
Definition keys (o : object) : list string :=
  map fst (filter (fun kp => p_enumerable (snd kp)) (o_props o)).

(** [Object.getOwnPropertyNames(o)]. *)
Definition ownPropertyNames (o : object) : list string :=
  map fst (o_props o).

(** [Object.freeze(o)]. *)
Definition freeze (o : object) : object :=
  Obj (o_proto o)
      (map (fun kp => (fst kp,
                       Prop_ (p_value (snd kp)) false
                             (p_enumerable (snd kp)) false))
           (o_props o))
      false
      (o_fields o).

End JS.
Export JS.

(* ================================================================== *)
(** ** Errors and observable events *)

Inductive error :=
| MissingDependency (message : string)
    (* [getInstance]: "The ... plugin requires the following plugins: ..." *)
| UnknownMethod (message : string)
    (* [mock]: "Function ... does not exist and cannot be mocked" *)
| ForbiddenOperation (message : string)
    (* [InnerProxyHandler.get]: "You cannot use the ... Snowboard method ..." *)
| TypeError (what : string)      (* raised by the language itself *)
| UserError (message : string)   (* thrown by a user-supplied function *)
| Diverges                       (* the prototype walk does not come to an end *)
| OutsideModel (what : string).  (* behaviour that the embedding does not cover *)

Inductive result (A : Type) :=
| Ok (a : A)
| Err (e : error).
Arguments Ok {A} a.
Arguments Err {A} e.

Inductive event :=
| EvNew (cls : value) (args : list value) (obj : loc)
    (* [new cls(...args)] produced [obj] *)
| EvHook (this : value) (member : string) (args : list value)
    (* [this.member(...args)] was entered *)
| EvTraitConstruct (trait : string) (this : value)
    (* [traitInstance.construct.call(this)] was entered *)
| EvAssign (target : loc) (member : string) (v : value)
    (* [target.member = v] took effect *)
| EvDefine (target : loc) (member : string) (p : property)
    (* [Object.defineProperties] defined [member] on [target] *)
| EvAdd (inst : loc)             (* [this.#instances.add(inst)] *)
| EvWarning (message : string).  (* [snowboard.warning(message)] *)

(* ================================================================== *)
(** ** The registry *)

Module Snowboard.

(** Modelled from the spec: [main/Snowboard.ts] (the registry) is not among
    the sources.  Section 4.1 of the specification gives it as a table from
    plugin names and trait names to their loaders and descriptors, with
    case-insensitive existence checks that never raise and a list of all
    registered plugin names.  Names are kept lower-cased, which is how the
    loader passes them ([getDependencies] lower-cases).

    The loader reaches the registry through its handle
    [new Proxy(snowboard, InnerProxyHandler)]; the handle hands a registry
    method on to the registry unless a plugin is registered under the
    lower-cased name of that method.  Loaders are modelled for registries
    in which no plugin hides a registry method. *)
Record registry := Registry {
  plugins : list string;
  traits : list (string * value)
}.

(** Modelled from the spec: registration under a case-insensitive name; a
    name already taken keeps its place in the table. *)
Definition registerPlugin (reg : registry) (name : string) : registry :=
  if Str.includes (plugins reg) (Str.toLowerCase name) then reg
  else Registry (plugins reg ++ [Str.toLowerCase name]) (traits reg).

(** Modelled from the spec: registration of a trait class under a
    case-insensitive name. *)
Definition registerTrait (reg : registry) (name : string) (cls : value)
  : registry :=
  Registry (plugins reg) (assoc_set (Str.toLowerCase name) cls (traits reg)).

(** Modelled from the spec: [hasPlugin(name)], a case-insensitive existence
    check that never raises. *)
Definition hasPlugin (reg : registry) (name : string) : bool :=
  Str.includes (plugins reg) (Str.toLowerCase name).

(** Modelled from the spec: [getPluginNames()], all registered plugin
    names. *)
Definition getPluginNames (reg : registry) : list string := plugins reg.

(** Modelled from the spec: [hasTrait(name)], a case-insensitive existence
    check that never raises. *)
Definition hasTrait (reg : registry) (name : string) : bool :=
  assoc_has (Str.toLowerCase name) (traits reg).

(** Modelled from the spec: [getTrait(name)], the trait descriptor (its
    class) registered under the name, [undefined] when there is none. *)
Definition getTrait (reg : registry) (name : string) : value :=
  match assoc_get (Str.toLowerCase name) (traits reg) with
  | Some cls => cls
  | None => VUndefined
  end.

End Snowboard.
Export Snowboard.

(* ================================================================== *)
(** ** The internal mediator, [InnerProxyHandler] *)

Module InnerProxyHandler.

(** A property key: a string or a symbol. *)
Inductive propkey :=
| PString (s : string)
| PSymbol (id : nat).

(** What a read through the handle resolves to. *)
Inductive resolution :=
| PluginCallable (propLower : string)
    (* [(...params) => plugins.get(propLower).getInstance(...params)] *)
| RegistryMember (prop : propkey).
    (* [Reflect.get(target, prop, receiver)] *)

Definition forbidden : list string :=
  ["attachAbstracts"; "loadInbuilt"; "initialise"; "initialiseSingletons"].

Definition forbidden_message (prop : string) : string :=
  ("You cannot use the " ++ Str.quoted prop
     ++ " Snowboard method within a plugin.")%string.

Definition get (target : registry) (prop : propkey) : result resolution :=
  match prop with
  | PString s =>
      let propLower := Str.toLowerCase s in
      if Str.includes forbidden s then
        Err (ForbiddenOperation (forbidden_message s))
      else if hasPlugin target propLower then
        Ok (PluginCallable propLower)
      else Ok (RegistryMember prop)
  | PSymbol _ => Ok (RegistryMember prop)
  end.

Definition has (target : registry) (prop : propkey)
               (reflect_has : propkey -> bool) : bool :=
  match prop with
  | PString s =>
      let propLower := Str.toLowerCase s in
      if Str.includes forbidden s then false
      else if hasPlugin target propLower then true
      else reflect_has prop
  | PSymbol _ => reflect_has prop
  end.

End InnerProxyHandler.

(* ================================================================== *)
(** ** Loader state and the execution monad *)

(** The parts of a loader that its constructor fixes. *)
Record loader := Loader {
  l_name : string;          (* [#name] *)
  l_snowboard : registry;   (* the target of the handle [#snowboard] *)
  l_instance : value        (* [#instance], the plugin class *)
}.

(** The heap together with the loader's mutable private fields. *)
Record world := World {
  w_heap : heap;
  w_instances : list loc;                      (* [#instances], a Set *)
  w_initialised : bool;                        (* [#singleton.initialised] *)
  w_mocks : list (string * func);              (* [#mocks], a Map *)
  w_originalFunctions : list (string * value)  (* [#originalFunctions], a Map *)
}.

(** One execution: how it ended, the state it left, what it did. *)
Record run (A : Type) := Run {
  res : result A;
  final : world;
  out : list event
}.
Arguments Run {A} res final out.
Arguments res {A} r.
Arguments final {A} r.
Arguments out {A} r.

Definition M (A : Type) : Type := world -> run A.

Definition ret {A} (a : A) : M A := fun w => Run (Ok a) w [].

Definition throw {A} (e : error) : M A := fun w => Run (Err e) w [].

Definition bind {A B} (m : M A) (f : A -> M B) : M B :=
  fun w =>
    let r := m w in
    match res r with
    | Ok a => let r' := f a (final r) in
              Run (res r') (final r') (out r ++ out r')
    | Err e => Run (Err e) (final r) (out r)
    end.

Notation "x <- m ;; k" := (bind m (fun x => k))
  (at level 61, m at next level, right associativity).
Notation "m ;; k" := (bind m (fun _ => k))
  (at level 61, right associativity).

Definition tell (e : event) : M unit := fun w => Run (Ok tt) w [e].

Definition read {A} (f : world -> A) : M A := fun w => Run (Ok (f w)) w [].

Definition modify (f : world -> world) : M unit :=
  fun w => Run (Ok tt) (f w) [].

Definition set_heap (h : heap) (w : world) : world :=
  World h (w_instances w) (w_initialised w) (w_mocks w)
        (w_originalFunctions w).

Definition set_instances (xs : list loc) (w : world) : world :=
  World (w_heap w) xs (w_initialised w) (w_mocks w) (w_originalFunctions w).

Definition set_initialised (b : bool) (w : world) : world :=
  World (w_heap w) (w_instances w) b (w_mocks w) (w_originalFunctions w).

Definition set_mocks (ms : list (string * func)) (w : world) : world :=
  World (w_heap w) (w_instances w) (w_initialised w) ms
        (w_originalFunctions w).

Definition set_originalFunctions (os : list (string * value)) (w : world)
  : world :=
  World (w_heap w) (w_instances w) (w_initialised w) (w_mocks w) os.

(** [xs.forEach(f)]. *)
Fixpoint forEach {A} (xs : list A) (f : A -> M unit) : M unit :=
  match xs with
  | [] => ret tt
  | x :: r => f x ;; forEach r f
  end.

(** [xs.filter(f)] where the test may throw. *)
Fixpoint filterM {A} (f : A -> M bool) (xs : list A) : M (list A) :=
  match xs with
  | [] => ret []
  | x :: r =>
      b <- f x ;;
      r' <- filterM f r ;;
      ret (if b then x :: r' else r')
  end.

(** [Set.prototype.add] and [Set.prototype.delete] on a set kept in
    insertion order. *)
Definition set_add (x : loc) (xs : list loc) : list loc :=
  if existsb (Nat.eqb x) xs then xs else xs ++ [x].

Definition set_delete (x : loc) (xs : list loc) : list loc :=
  filter (fun y => negb (Nat.eqb x y)) xs.

Definition strings_add (x : string) (xs : list string) : list string :=
  if Str.includes xs x then xs else xs ++ [x].

(* ------------------------------------------------------------------ *)
(** *** Member access, assignment, calls, [new] *)

(** [v[k]]. *)
Definition get (v : value) (k : string) : M value :=
  match v with
  | VRef l => read (fun w => lookup (w_heap w) l k)
  | VUndefined | VNull =>
      throw (TypeError "cannot read properties of undefined or null")
  | _ => throw (OutsideModel "member of a primitive, function or host value")
  end.

(** [Object.getPrototypeOf(v)]. *)
Definition getPrototypeOf (v : value) : M value :=
  match v with
  | VRef l =>
      read (fun w =>
              match nth_error (w_heap w) l with
              | Some o => match o_proto o with
                          | Some p => VRef p
                          | None => VNull
                          end
              | None => VNull
              end)
  | VUndefined | VNull =>
      throw (TypeError "cannot convert undefined or null to object")
  | _ => throw (OutsideModel "prototype of a primitive, function or host value")
  end.

(** [Object.getOwnPropertyDescriptor(v, k)]; [None] is [undefined]. *)
Definition getOwnPropertyDescriptor (v : value) (k : string)
  : M (option property) :=
  match v with
  | VRef l => read (fun w => own (w_heap w) l k)
  | VUndefined | VNull =>
      throw (TypeError "cannot convert undefined or null to object")
  | _ => throw (OutsideModel "descriptor of a primitive, function or host value")
  end.

(** The object behind a reference, for [Object.keys] and
    [Object.getOwnPropertyNames]. *)
Definition deref (v : value) : M object :=
  match v with
  | VRef l =>
      o <- read (fun w => nth_error (w_heap w) l) ;;
      match o with
      | Some o => ret o
      | None => throw (OutsideModel "dangling reference")
      end
  | VUndefined | VNull =>
      throw (TypeError "cannot convert undefined or null to object")
  | _ => throw (OutsideModel "keys of a primitive, function or host value")
  end.

(** [target[k] = v] in strict mode (class bodies and modules are strict):
    an own writable property is updated; otherwise the property is created
    on the target unless an inherited one is read-only or the target is not
    extensible. *)
Definition assign (target : value) (k : string) (v : value) : M unit :=
  match target with
  | VRef l =>
      h <- read w_heap ;;
      match nth_error h l with
      | None => throw (OutsideModel "dangling reference")
      | Some o =>
          match assoc_get k (o_props o) with
          | Some p =>
              if p_writable p then
                modify (set_heap
                  (update h l
                     (Obj (o_proto o)
                          (assoc_set k (Prop_ v true (p_enumerable p)
                                              (p_configurable p))
                                     (o_props o))
                          (o_extensible o) (o_fields o)))) ;;
                tell (EvAssign l k v)
              else throw (TypeError "cannot assign to read only property")
          | None =>
              let inherited_read_only :=
                match find h l k with
                | Some p => negb (p_writable p)
                | None => false
                end in
              if inherited_read_only then
                throw (TypeError "cannot assign to read only property")
              else if o_extensible o then
                modify (set_heap
                  (update h l
                     (Obj (o_proto o) (o_props o ++ [(k, plain v)])
                          (o_extensible o) (o_fields o)))) ;;
                tell (EvAssign l k v)
              else throw (TypeError "cannot add property, object is not extensible")
          end
      end
  | VUndefined | VNull =>
      throw (TypeError "cannot set properties of undefined or null")
  | VBool _ | VNumber _ | VString _ =>
      throw (TypeError "cannot create property on a primitive")
  | VLoader =>
      throw (TypeError "cannot add property, the loader is frozen")
  | _ => throw (OutsideModel "assignment to a function or host value")
  end.

(** Running a function value.  Arguments do not reach the fixed bodies of
    user-supplied functions, so they are not passed on. *)
Fixpoint call_func (f : func) : M answer :=
  match f with
  | FUser _ (Returns a) => ret a
  | FUser _ (Throws msg) => throw (UserError msg)
  | FDetach inst =>
      was <- read (fun w => existsb (Nat.eqb inst) (w_instances w)) ;;
      modify (fun w => set_instances (set_delete inst (w_instances w)) w) ;;
      ret (ABool was)
  | FMock callback _ => call_func callback
  | FNative _ => throw (OutsideModel "body that is not run as a value")
  end.

(** [f(...)]: only function values can be called; a class cannot be called
    without [new]. *)
Definition call (f : value) : M answer :=
  match f with
  | VFun f => call_func f
  | _ => throw (TypeError "not a function")
  end.

(** [this.member(...args)] for a lifecycle hook. *)
Definition callHook (this : value) (member : string) (args : list value)
  : M answer :=
  f <- get this member ;;
  match f with
  | VFun f => tell (EvHook this member args) ;; call_func f
  | _ => throw (TypeError "not a function")
  end.

(** [new cls(...args)]: a fresh object linked to [cls.prototype], carrying
    the fields the class initialises. *)
Definition new (cls : value) (args : list value) : M loc :=
  match cls with
  | VRef c =>
      h <- read w_heap ;;
      match nth_error h c with
      | Some (Obj _ _ _ (Some fields)) =>
          match lookup h c "prototype" with
          | VRef p =>
              let l := List.length h in
              if (p <? l)%nat then
                modify (set_heap
                  (h ++ [Obj (Some p)
                             (map (fun kv => (fst kv, plain (snd kv))) fields)
                             true None])) ;;
                tell (EvNew cls args l) ;;
                ret l
              else throw (OutsideModel "dangling reference")
          | _ => throw (OutsideModel "class without a prototype object")
          end
      | _ => throw (TypeError "not a constructor")
      end
  | _ => throw (TypeError "not a constructor")
  end.

(** [Object.defineProperties(target, descriptors)]: every descriptor is
    converted first (an [undefined] one is a [TypeError] and nothing is
    defined), then the properties are defined in order. *)
Definition defineProperty (l : loc) (k : string) (d : property) : M unit :=
  h <- read w_heap ;;
  match nth_error h l with
  | None => throw (OutsideModel "dangling reference")
  | Some o =>
      let store (props : list (string * property)) :=
        modify (set_heap
          (update h l (Obj (o_proto o) props (o_extensible o) (o_fields o)))) ;;
        tell (EvDefine l k d) in
      match assoc_get k (o_props o) with
      | None =>
          if o_extensible o then store (o_props o ++ [(k, d)])
          else throw (TypeError "cannot define property, object is not extensible")
      | Some cur =>
          if p_configurable cur then store (assoc_set k d (o_props o))
          else if p_configurable d
                  || negb (Bool.eqb (p_enumerable d) (p_enumerable cur))
          then throw (TypeError "cannot redefine property")
          else if p_writable cur then store (assoc_set k d (o_props o))
          else if p_writable d || negb (same_value (p_value d) (p_value cur))
          then throw (TypeError "cannot redefine property")
          else ret tt
      end
  end.

Fixpoint toPropertyDescriptors (ds : list (string * option property))
  : option (list (string * property)) :=
  match ds with
  | [] => Some []
  | (k, Some d) :: r =>
      match toPropertyDescriptors r with
      | Some r' => Some ((k, d) :: r')
      | None => None
      end
  | (_, None) :: _ => None
  end.

Definition defineProperties (target : value)
                            (descriptors : list (string * option property))
  : M unit :=
  match target with
  | VRef l =>
      match toPropertyDescriptors descriptors with
      | Some ds => forEach ds (fun kd => defineProperty l (fst kd) (snd kd))
      | None => throw (TypeError "property description must be an object")
      end
  | _ => throw (TypeError "Object.defineProperties called on non-object")
  end.

(* ================================================================== *)
(** ** [PluginLoader] *)

Module PluginLoader.

(** [new PluginLoader(name, snowboard, instance)]: the plugin class is
    frozen, the private fields start empty. *)
Definition constructor (name : string) (snowboard : registry)
                       (instance : value) (h : heap) : loader * world :=
  let h' := match instance with
            | VRef l => match nth_error h l with
                        | Some o => update h l (freeze o)
                        | None => h
                        end
            | _ => h
            end in
  (Loader name snowboard instance, World h' [] false [] []).

Definition reserved : list string :=
  ["constructor"; "construct"; "init"; "getSnowboard"; "destruct";
   "destructor"; "detach"].

Section Methods.

Variable this : loader.

Definition hasMethod (methodName : string) : M bool :=
  prototype <- get (l_instance this) "prototype" ;;
  member <- get prototype methodName ;;
  read (fun w => is_function (w_heap w) member).

Definition callMethod (method : string) : M answer :=
  prototype <- get (l_instance this) "prototype" ;;
  member <- get prototype method ;;
  call member.

Definition isSingleton : M bool :=
  prototype <- get (l_instance this) "prototype" ;;
  member <- get prototype "isSingleton" ;;
  a <- call member ;;
  ret (match a with ABool true => true | _ => false end).

Definition isInitialised : M bool :=
  single <- isSingleton ;;
  if negb single then ret true else read w_initialised.

Definition getDependencies : M (list string) :=
  prototype <- get (l_instance this) "prototype" ;;
  member <- get prototype "dependencies" ;;
  a <- call member ;;
  match a with
  | AStrings items => ret (map Str.toLowerCase items)
  | _ => throw (TypeError "dependencies().map is not a function")
  end.

Definition dependenciesFulfilled : M bool :=
  dependencies <- getDependencies ;;
  ret (fold_left
         (fun fulfilled plugin =>
            if negb (hasPlugin (l_snowboard this) plugin) then false
            else fulfilled)
         dependencies true).

Definition missing_message (unmet : list string) : string :=
  ("The " ++ Str.quoted (l_name this)
     ++ " plugin requires the following plugins: "
     ++ Str.join ", " unmet)%string.

Definition unknown_method_message (methodName : string) : string :=
  ("Function " ++ Str.quoted methodName
     ++ " does not exist and cannot be mocked")%string.

Definition missing_trait_message (trait : string) : string :=
  ("Trait " ++ Str.quoted trait
     ++ " does not exist and cannot be applied to "
     ++ Str.quoted (l_name this))%string.

(** The block under [if (this.#mocks.size > 0)] of [getInstance], the
    same for the singleton and for a new instance: the displaced
    originals are written back, then every mock is layered on. *)
Definition applyMocks (instance : value) : M unit :=
  mocks <- read w_mocks ;;
  if (0 <? List.length mocks)%nat then
    originalFunctions <- read w_originalFunctions ;;
    forEach originalFunctions
      (fun entry =>
         prototype <- get instance "prototype" ;;
         assign prototype (fst entry) (snd entry)) ;;
    forEach mocks
      (fun entry =>
         prototype <- get instance "prototype" ;;
         match instance with
         | VRef l =>
             assign prototype (fst entry)
                    (VFun (FMock (snd entry) (RInstance l)))
         | _ => throw (OutsideModel "unreachable: the read has thrown")
         end)
  else ret tt.

(** [currentPrototype.constructor.name === 'Object'], the exit test of
    the [while] loop of [loadTraits]. *)
Definition builtByObject (currentPrototype : value) : M bool :=
  ctor <- get currentPrototype "constructor" ;;
  name <- get ctor "name" ;;
  ret (match name with
       | VString n => String.eqb n "Object"
       | _ => false
       end).

(** The body of the loop up to the step to the next prototype: the
    names that [currentPrototype.traits()] lists join the set. *)
Definition declaredTraits (currentPrototype : value)
                          (traits : list string) : M (list string) :=
  member <- get currentPrototype "traits" ;;
  isf <- read (fun w => is_function (w_heap w) member) ;;
  if truthy member && isf then
    a <- call member ;;
    match a with
    | AStrings currentTraits =>
        ret (fold_left (fun acc trait => strings_add trait acc)
                       currentTraits traits)
    | _ => throw (TypeError "currentTraits.forEach is not a function")
    end
  else ret traits.

(** The [while] loop: from the instance along the [prototype] members
    until an object built by [Object] is met. *)
Fixpoint collectTraits (fuel : nat) (currentPrototype : value)
                       (traits : list string) : M (list string) :=
  match fuel with
  | O => throw Diverges
  | S fuel' =>
      root <- builtByObject currentPrototype ;;
      if root then ret traits
      else
        traits' <- declaredTraits currentPrototype traits ;;
        next <- get currentPrototype "prototype" ;;
        collectTraits fuel' next traits'
  end.

(** [xs.reduce(f, init)] where the step may throw. *)
Fixpoint reduceM {A B} (f : B -> A -> M B) (xs : list A) (init : B)
  : M B :=
  match xs with
  | [] => ret init
  | x :: r => b <- f init x ;; reduceM f r b
  end.

(** The callback of [traits.forEach] in [loadTraits]. *)
Definition applyTrait (instance : value) (trait : string) : M unit :=
  if negb (hasTrait (l_snowboard this) trait) then
    tell (EvWarning (missing_trait_message trait))
  else
    let TraitInstance := getTrait (l_snowboard this) trait in
    t <- new TraitInstance [] ;;
    let traitInstance := VRef t in
    (* Get defined properties in trait constructor. *)
    tobj <- deref traitInstance ;;
    descriptors <-
      reduceM (fun innerDescriptors key =>
                 d <- getOwnPropertyDescriptor traitInstance key ;;
                 ret (assoc_set key d innerDescriptors))
              (keys tobj) [] ;;
    (* Get methods defined in trait prototype. *)
    cls <- deref TraitInstance ;;
    descriptors <-
      reduceM (fun descriptors propertyName =>
                 if Str.includes reserved propertyName then
                   ret descriptors
                 else
                   parent <- getPrototypeOf TraitInstance ;;
                   descriptor <-
                     getOwnPropertyDescriptor parent propertyName ;;
                   ret (assoc_set propertyName descriptor descriptors))
              (ownPropertyNames cls) descriptors ;;
    (* Filter out any of the above that already exist in the instance. *)
    newKeys <-
      filterM (fun key =>
                 prototype <- getPrototypeOf instance ;;
                 member <- get prototype key ;;
                 ret (is_undefined member))
              (map fst descriptors) ;;
    let newDescriptors :=
      fold_left (fun filtered key =>
                   match assoc_get key descriptors with
                   | Some d => assoc_set key d filtered
                   | None => filtered
                   end)
                newKeys [] in
    (* Apply new descriptors to instance. *)
    defineProperties instance newDescriptors ;;
    (* If the trait has a "construct" method, apply this to the instance. *)
    construct <- get traitInstance "construct" ;;
    if truthy construct then
      match construct with
      | VFun f =>
          tell (EvTraitConstruct trait instance) ;;
          call_func f ;;
          ret tt
      | _ => throw (TypeError "construct.call is not a function")
      end
    else ret tt.

Definition loadTraits (instance : value) : M unit :=
  h <- read w_heap ;;
  traits <- collectTraits (S (List.length h)) instance [] ;;
  forEach traits (applyTrait instance).

Definition addInstance (l : loc) : M unit :=
  modify (fun w => set_instances (set_add l (w_instances w)) w) ;;
  tell (EvAdd l).

Definition initialiseSingleton (parameters : list value) : M unit :=
  single <- isSingleton ;;
  if negb single then ret tt
  else
    newInstance <- new (l_instance this) (VSnowboard :: parameters) ;;
    assign (VRef newInstance) "detach" (VFun (FDetach newInstance)) ;;
    callHook (VRef newInstance) "construct" parameters ;;
    loadTraits (VRef newInstance) ;;
    callHook (VRef newInstance) "init" [] ;;
    addInstance newInstance ;;
    modify (set_initialised true).

(** [this.#instances.values().next().value]. *)
Definition firstInstance : M value :=
  read (fun w => match w_instances w with
                 | l :: _ => VRef l
                 | [] => VUndefined
                 end).

Definition getInstance (parameters : list value) : M value :=
  fulfilled <- dependenciesFulfilled ;;
  if negb fulfilled then
    dependencies <- getDependencies ;;
    let unmet :=
      filter (fun item =>
                negb (Str.includes
                        (getPluginNames (l_snowboard this)) item))
             dependencies in
    throw (MissingDependency (missing_message unmet))
  else
    single <- isSingleton ;;
    if single then
      size <- read (fun w => List.length (w_instances w)) ;;
      (if (size =? 0)%nat then initialiseSingleton parameters
       else ret tt) ;;
      instance <- firstInstance ;;
      (* Apply mocked methods to singleton instance *)
      applyMocks instance ;;
      ret instance
    else
      newInstance <- new (l_instance this) (VSnowboard :: parameters) ;;
      (* Apply mocked methods to instance *)
      applyMocks (VRef newInstance) ;;
      assign (VRef newInstance) "detach" (VFun (FDetach newInstance)) ;;
      callHook (VRef newInstance) "construct" parameters ;;
      loadTraits (VRef newInstance) ;;
      callHook (VRef newInstance) "init" [] ;;
      addInstance newInstance ;;
      ret (VRef newInstance).

Definition getInstances : M (list loc) := read w_instances.

Definition mock (methodName : string) (callback : func) : M unit :=
  prototype <- get (l_instance this) "prototype" ;;
  member <- get prototype methodName ;;
  if negb (truthy member) then
    throw (UnknownMethod (unknown_method_message methodName))
  else
    modify (fun w =>
              set_mocks (assoc_set methodName callback (w_mocks w)) w) ;;
    parent <- getPrototypeOf (l_instance this) ;;
    original <- get parent methodName ;;
    modify (fun w =>
              set_originalFunctions
                (assoc_set methodName original (w_originalFunctions w))
                w) ;;
    single <- isSingleton ;;
    size <- read (fun w => List.length (w_instances w)) ;;
    if single && (size =? 0)%nat then
      initialiseSingleton [] ;;
      instance <- firstInstance ;;
      (* Apply mocked method *)
      prototype <- get instance "prototype" ;;
      assign prototype methodName (VFun (FMock callback RLoader))
    else ret tt.

Definition unmock (methodName : string) : M unit :=
  has <- read (fun w => assoc_has methodName (w_mocks w)) ;;
  if negb has then ret tt
  else
    single <- isSingleton ;;
    (if single then
       instance <- firstInstance ;;
       prototype <- get instance "prototype" ;;
       original <-
         read (fun w =>
                 match assoc_get methodName (w_originalFunctions w) with
                 | Some v => v
                 | None => VUndefined
                 end) ;;
       assign prototype methodName original
     else ret tt) ;;
    modify (fun w => set_mocks (assoc_del methodName (w_mocks w)) w) ;;
    modify (fun w =>
              set_originalFunctions
                (assoc_del methodName (w_originalFunctions w)) w).

End Methods.

End PluginLoader.

(* ================================================================== *)
(** ** The older loader

    The repository also carries an older, array-based [PluginLoader]
    (JavaScript).  Of it, the callback of [traits.forEach] in [loadTraits]
    is embedded here, to set its trait precedence beside that of the
    current loader. *)

Module Legacy.

Definition reserved : list string :=
  ["constructor"; "construct"; "destruct"; "destructor"].

Definition applyTrait (this : loader) (instance : value) (trait : string)
  : M unit :=
  if negb (hasTrait (l_snowboard this) trait) then
    (* [this.warning(...)]: the loader has no such member *)
    throw (TypeError "this.warning is not a function")
  else
    let TraitInstance := getTrait (l_snowboard this) trait in
    t <- new TraitInstance [] ;;
    let traitInstance := VRef t in
    (* Get defined properties in trait constructor. *)
    tobj <- deref traitInstance ;;
    descriptors <-
      PluginLoader.reduceM
        (fun innerDescriptors key =>
           d <- getOwnPropertyDescriptor traitInstance key ;;
           ret (assoc_set key d innerDescriptors))
        (keys tobj) [] ;;
    (* Get methods defined in trait prototype. *)
    prototype <- get TraitInstance "prototype" ;;
    pobj <- deref prototype ;;
    descriptors <-
      PluginLoader.reduceM
        (fun descriptors propertyName =>
           if Str.includes reserved propertyName then ret descriptors
           else
             descriptor <- getOwnPropertyDescriptor prototype propertyName ;;
             ret (assoc_set propertyName descriptor descriptors))
        (ownPropertyNames pobj) descriptors ;;
    (* Filter out any of the above that already exist in the instance. *)
    newKeys <-
      filterM (fun key =>
                 member <- get instance key ;;
                 ret (is_undefined member))
              (map fst descriptors) ;;
    let newDescriptors :=
      fold_left (fun filtered key =>
                   match assoc_get key descriptors with
                   | Some d => assoc_set key d filtered
                   | None => filtered
                   end)
                newKeys [] in
    (* Apply new descriptors to instance. *)
    defineProperties instance newDescriptors ;;
    (* If the trait has a "construct" method, apply this to the instance. *)
    construct <- get traitInstance "construct" ;;
    if truthy construct then
      match construct with
      | VFun f =>
          tell (EvTraitConstruct trait instance) ;;
          call_func f ;;
          ret tt
      | _ => throw (TypeError "construct.call is not a function")
      end
    else ret tt.

End Legacy.

(* ================================================================== *)
(** ** [PluginBase] *)

Module PluginBase.

(** The fields that the constructor of [PluginBase] initialises. *)
Definition fields : list (string * value) :=
  [("snowboard", VSnowboard); ("destructed", VBool false)].

(** The members of [PluginBase.prototype]. *)
Definition members (self : loc) : list (string * property) :=
  [("constructor", method (VRef self));
   ("getSnowboard", method (VFun (FNative "PluginBase.getSnowboard")));
   ("isSingleton",
     method (VFun (FUser "PluginBase.isSingleton" (Returns (ABool false)))));
   ("construct",
     method (VFun (FUser "PluginBase.construct" (Returns AUndefined))));
   ("init", method (VFun (FUser "PluginBase.init" (Returns AUndefined))));
   ("dependencies",
     method (VFun (FUser "PluginBase.dependencies" (Returns (AStrings [])))));
   ("traits",
     method (VFun (FUser "PluginBase.traits" (Returns (AStrings [])))));
   ("destruct",
     method (VFun (FUser "PluginBase.destruct" (Returns AUndefined))));
   ("detach", method (VFun (FUser "PluginBase.detach" (Returns AUndefined))));
   ("destructor", method (VFun (FNative "PluginBase.destructor")))].

(** [destructor()]. *)
Definition destructor (this : value) : M unit :=
  callHook this "destruct" [] ;;
  callHook this "detach" [] ;;
  assign this "destructed" (VBool true).

End PluginBase.

(* ================================================================== *)
(** ** The trait [FiresEvents]

    [traits/FiresEvents.ts]: listeners local to one plugin instance.  The
    fields [eventListeners], [localEventsOnly] and [eventPrefix] are the
    state.  A function handed in by the caller has an identity and a fixed
    body, as everywhere in this development (it does not register or
    deregister listeners itself); [once] wraps it into a closure of its
    own.  [snowboard.globalEvent] and [snowboard.globalPromiseEvent] belong
    to the registry and are recorded as signals.  The reaction that
    [Promise.all(...).then] registers runs after the current job; it is
    queued in [reactions] and run by [settle]. *)

Module FiresEvents.

Inductive listener :=
| Given (id : string) (body : outcome)
    (* a function of the caller *)
| Once (serial : nat) (callback : listener) (length : nat).
    (* [(...parameters) => { callback(...parameters);
                             this.eventListeners.splice(length - 1, 1); }],
       the [serial]-th closure the instance built *)

Definition listener_eq_dec (a b : listener) : {a = b} + {a <> b}.
Proof.
  decide equality.
  - apply outcome_eq_dec.
  - apply string_dec.
  - apply Nat.eq_dec.
  - apply Nat.eq_dec.
Defined.

(** [a === b] on functions. *)
Definition same_function (a b : listener) : bool :=
  if listener_eq_dec a b then true else false.

Record registeredEvent := Registered {
  event : string;
  callback : listener
}.

Record instance := Instance {
  eventListeners : list registeredEvent;
  localEventsOnly : bool;
  eventPrefix : string;
  closures : nat;
      (* how many closures [once] has built, which names the next one *)
  reactions : list (string * list value)
      (* fulfilment reactions of [triggerPromiseEvent] that have not run *)
}.

Inductive signal :=
| Entered (id : string) (parameters : list value)
    (* the caller's function [id] was entered *)
| GlobalEvent (name : string) (parameters : list value)
| GlobalPromiseEvent (name : string) (parameters : list value).

Inductive exception :=
| PrefixRequired
    (* [new Error('Event prefix is required if global events are enabled.')] *)
| Raised (message : string).
    (* thrown by a callback *)

Inductive completion (A : Type) :=
| Normal (a : A)
| Abrupt (e : exception).
Arguments Normal {A} a.
Arguments Abrupt {A} e.

Record reply (A : Type) := Reply {
  completed : completion A;
  after : instance;
  signals : list signal
}.
Arguments Reply {A} completed after signals.
Arguments completed {A} r.
Arguments after {A} r.
Arguments signals {A} r.

Definition set_eventListeners (ls : list registeredEvent) (this : instance)
  : instance :=
  Instance ls (localEventsOnly this) (eventPrefix this) (closures this)
           (reactions this).

(** [xs.splice(start, 1)]: what is left of [xs]. *)
Definition splice (start : nat) (xs : list registeredEvent)
  : list registeredEvent :=
  firstn start xs ++ skipn (S start) xs.

(** [construct()]; the empty prefix is the falsy one. *)
Definition construct (this : instance) : completion unit :=
  if negb (localEventsOnly this)
     && String.eqb (eventPrefix this) EmptyString
  then Abrupt PrefixRequired
  else Normal tt.

(** [on(event, callback)]. *)
Definition on (event : string) (callback : listener) (this : instance)
  : instance :=
  set_eventListeners (eventListeners this ++ [Registered event callback]) this.

(** [off(event, callback)]. *)
Definition off (event_ : string) (callback_ : listener) (this : instance)
  : instance :=
  set_eventListeners
    (filter (fun registeredEvent =>
               negb (String.eqb (event registeredEvent) event_)
               || negb (same_function (callback registeredEvent) callback_))
            (eventListeners this))
    this.

(** [once(event, callback)]. *)
Definition once (event : string) (callback : listener) (this : instance)
  : instance :=
  let length := List.length (eventListeners this) + 1 in
  Instance (eventListeners this
              ++ [Registered event (Once (closures this) callback length)])
           (localEventsOnly this) (eventPrefix this) (S (closures this))
           (reactions this).

(** [callback(...parameters)]. *)
Fixpoint invoke (callback : listener) (parameters : list value)
                (this : instance) : reply answer :=
  match callback with
  | Given id (Returns a) => Reply (Normal a) this [Entered id parameters]
  | Given id (Throws message) =>
      Reply (Abrupt (Raised message)) this [Entered id parameters]
  | Once _ callback length =>
      let r := invoke callback parameters this in
      match completed r with
      | Normal _ =>
          Reply (Normal AUndefined)
                (set_eventListeners
                   (splice (length - 1) (eventListeners (after r)))
                   (after r))
                (signals r)
      | Abrupt e => Reply (Abrupt e) (after r) (signals r)
      end
  end.

(** The [forEach] of [triggerEvent], with its flag [cancelled]. *)
Fixpoint fire (events : list registeredEvent) (parameters : list value)
              (cancelled : bool) (this : instance) : reply bool :=
  match events with
  | [] => Reply (Normal cancelled) this []
  | event :: rest =>
      if cancelled then fire rest parameters cancelled this
      else
        let r := invoke (callback event) parameters this in
        match completed r with
        | Normal a =>
            let r' := fire rest parameters
                           (match a with
                            | ABool false => true
                            | _ => cancelled
                            end)
                           (after r) in
            Reply (completed r') (after r') (signals r ++ signals r')
        | Abrupt e => Reply (Abrupt e) (after r) (signals r)
        end
  end.

Definition listening (eventName : string) (this : instance)
  : list registeredEvent :=
  filter (fun registeredEvent => String.eqb (event registeredEvent) eventName)
         (eventListeners this).

Definition globalName (this : instance) (eventName : string) : string :=
  (eventPrefix this ++ "." ++ eventName)%string.

(** [triggerEvent(eventName, ...parameters)]. *)
Definition triggerEvent (eventName : string) (parameters : list value)
                        (this : instance) : reply unit :=
  (* Fire local events first *)
  let events := listening eventName this in
  if (List.length events =? 0)%nat then Reply (Normal tt) this []
  else
    let r := fire events parameters false this in
    match completed r with
    | Normal cancelled =>
        if negb cancelled && negb (localEventsOnly (after r)) then
          Reply (Normal tt) (after r)
                (signals r
                   ++ [GlobalEvent (globalName (after r) eventName)
                                   parameters])
        else Reply (Normal tt) (after r) (signals r)
    | Abrupt e => Reply (Abrupt e) (after r) (signals r)
    end.

(** [events.map((event) => event.callback(...parameters))]; the array it
    builds is handed to [filter] as its [thisArg] and is not looked at. *)
Fixpoint callAll (events : list registeredEvent) (parameters : list value)
                 (this : instance) : reply unit :=
  match events with
  | [] => Reply (Normal tt) this []
  | event :: rest =>
      let r := invoke (callback event) parameters this in
      match completed r with
      | Normal _ =>
          let r' := callAll rest parameters (after r) in
          Reply (completed r') (after r') (signals r ++ signals r')
      | Abrupt e => Reply (Abrupt e) (after r) (signals r)
      end
  end.

(** [triggerPromiseEvent(eventName, ...parameters)].  [promises] is
    [events.filter((event) => event !== null, ...)], that is, the
    registrations themselves; none of them has a [then], so
    [Promise.all(promises)] is fulfilled and the first reaction of [then]
    is queued. *)
Definition triggerPromiseEvent (eventName : string) (parameters : list value)
                               (this : instance) : reply unit :=
  let events := listening eventName this in
  if (List.length events =? 0)%nat then Reply (Normal tt) this []
  else
    let r := callAll events parameters this in
    match completed r with
    | Normal _ =>
        Reply (Normal tt)
              (Instance (eventListeners (after r)) (localEventsOnly (after r))
                        (eventPrefix (after r)) (closures (after r))
                        (reactions (after r) ++ [(eventName, parameters)]))
              (signals r)
    | Abrupt e => Reply (Abrupt e) (after r) (signals r)
    end.

(** The queued reactions run, oldest first:
    [() => { if (!this.localEventsOnly) { this.snowboard.globalPromiseEvent(...) } }]. *)
Definition settle (this : instance) : reply unit :=
  Reply (Normal tt)
        (Instance (eventListeners this) (localEventsOnly this)
                  (eventPrefix this) (closures this) [])
        (flat_map (fun reaction =>
                     if negb (localEventsOnly this) then
                       [GlobalPromiseEvent (globalName this (fst reaction))
                                           (snd reaction)]
                     else [])
                  (reactions this)).

End FiresEvents.

(* ================================================================== *)
(** ** The trait [Configurable]

    [traits/Configurable.ts]: configuration of a plugin instance from the
    data attributes of its element.  The fields [instanceConfig],
    [acceptedConfigs], [acceptAllDataConfigs] and [element] are the state.
    The element is an HTML element or is absent; of it, the [dataset] is
    kept, a table from names to strings.  [defaults()] is a method of the
    plugin; it is modelled by the value it returns (a new object on every
    call, as an object literal in its body gives).  Names of configuration
    values are ordinary names: none is the name of a member of
    [Object.prototype], and each is a valid name of a data attribute.
    [atob], [String] and the registry's JSON parser belong to the host and
    to the registry; the trait is embedded over any such functions.  A
    number is kept as the literal it was read from. *)

Module Configurable.

Inductive jsvalue :=
| Undefined
| Null
| Boolean (b : bool)
| Number (literal : string)   (* [Number(literal)] *)
| Text (s : string)
| Parsed (source : string)    (* what the JSON parser returns for [source] *)
| Other (id : nat).           (* any other value: an object, a function *)

(** What [defaults()] returns. *)
Inductive defaultsValue :=
| DObject (members : list (string * jsvalue))
| DNull
| DOther.   (* a value whose [typeof] is not ['object'] *)

(** [acceptedConfigs: boolean | string[]]. *)
Inductive accepted :=
| Flag (b : bool)
| Keys (keys : list string).

Record instance := Instance {
  instanceConfig : option (list (string * jsvalue));   (* [None] is [null] *)
  acceptedConfigs : accepted;
  acceptAllDataConfigs : option bool;                  (* [None] is [undefined] *)
  element : option (list (string * string));
      (* the [dataset] of the element; [None] when there is no element *)
  defaults : defaultsValue
}.

Inductive exception :=
| NoElement
    (* [new Error('Data configuration can only be extracted from HTML elements')] *)
| TypeError (what : string)
| InvalidCharacterError   (* thrown by [atob] *)
| Unending.               (* the layers of base64 do not come to an end *)

Inductive completion (A : Type) :=
| Normal (a : A)
| Abrupt (e : exception).
Arguments Normal {A} a.
Arguments Abrupt {A} e.

Definition is_digit (c : ascii) : bool :=
  let n := nat_of_ascii c in ((48 <=? n)%nat && (n <=? 57)%nat)%bool.

(** [[0-9]+] at the start of [s]: what follows it, if it matches. *)
Fixpoint after_digits (s : string) (seen : bool) : option string :=
  match s with
  | String c r =>
      if is_digit c then after_digits r true
      else if seen then Some s else None
  | EmptyString => if seen then Some s else None
  end.

(** [/^[-+]?[0-9]+(\.[0-9]+)?$/.test(s)]. *)
Definition numeric (s : string) : bool :=
  let unsigned :=
    match s with
    | String c r =>
        if (Ascii.eqb c "-" || Ascii.eqb c "+")%bool then r else s
    | EmptyString => s
    end in
  match after_digits unsigned false with
  | Some EmptyString => true
  | Some (String c r) =>
      if Ascii.eqb c "." then
        match after_digits r false with
        | Some EmptyString => true
        | _ => false
        end
      else false
  | None => false
  end.

(** [s.startsWith(prefix)] and what follows the prefix. *)
Fixpoint stripPrefix (prefix s : string) : option string :=
  match prefix, s with
  | EmptyString, _ => Some s
  | String p prefix', String c s' =>
      if Ascii.eqb p c then stripPrefix prefix' s' else None
  | String _ _, EmptyString => None
  end.

Section Host.

Variable atob : string -> option string.
    (* [atob(s)]; [None] when it throws *)
Variable parses : string -> bool.
    (* whether [snowboard.jsonParser().parse(s, true)] returns *)
Variable String_ : jsvalue -> string.
    (* [String(v)], as the [dataset] stores a value *)

(** [coerceConfigValue(value, defaultValue)] on the string [String(value)];
    the call on the decoded payload passes no default. *)
Fixpoint coerceLayers (layers : nat) (stringValue : string)
                      (defaultValue : jsvalue) : completion jsvalue :=
  (* Null value *)
  if String.eqb stringValue "null" then Normal Null
  (* Undefined value *)
  else if String.eqb stringValue "undefined" then Normal Undefined
  else
    match stripPrefix "base64:" stringValue with
    (* Base64 value *)
    | Some base64str =>
        match atob base64str with
        | Some decoded =>
            match layers with
            | S layers' => coerceLayers layers' decoded Undefined
            | O => Abrupt Unending
            end
        | None => Abrupt InvalidCharacterError
        end
    | None =>
        (* Boolean value *)
        if Str.includes ["true"; "yes"] (Str.toLowerCase stringValue) then
          Normal (Boolean true)
        else if Str.includes ["false"; "no"] (Str.toLowerCase stringValue) then
          Normal (Boolean false)
        (* Numeric value *)
        else if numeric stringValue then
          match defaultValue with
          | Boolean _ =>
              (* If the default value is boolean and we have a 1 or a 0,
                 coerce to boolean. *)
              if Str.includes ["0"; "1"] stringValue then
                Normal (Boolean (String.eqb stringValue "1"))
              else Normal (Number stringValue)
          | _ => Normal (Number stringValue)
          end
        (* JSON value *)
        else if parses stringValue then Normal (Parsed stringValue)
        else if String.eqb stringValue EmptyString then Normal (Boolean true)
        else Normal (Text stringValue)
    end.

Definition coerceConfigValue (stringValue : string) (defaultValue : jsvalue)
  : completion jsvalue :=
  coerceLayers (String.length stringValue) stringValue defaultValue.

(** [getAcceptedConfigs()]. *)
Definition getAcceptedConfigs (this : instance) : completion accepted :=
  match acceptAllDataConfigs this with
  | Some true => Normal (Flag true)
  | _ =>
      match defaults this with
      | DObject members => Normal (Keys (map fst members))
      | DNull => Abrupt (TypeError "Cannot convert undefined or null to object")
      | DOther => Normal (Flag false)
      end
  end.

(** [getDefaultConfig()]. *)
Definition getDefaultConfig (this : instance)
  : option (list (string * jsvalue)) :=
  match defaults this with
  | DObject members => Some members
  | DNull => None
  | DOther => Some []
  end.

(** [config[key]] of an object. *)
Definition member (config : list (string * jsvalue)) (key : string)
  : jsvalue :=
  match assoc_get key config with
  | Some v => v
  | None => Undefined
  end.

(** The [for ... in] loop of [processConfig]. *)
Fixpoint applyDataset (acceptedConfigs : accepted)
                      (dataset : list (string * string))
                      (config : option (list (string * jsvalue)))
  : completion (option (list (string * jsvalue))) :=
  match dataset with
  | [] => Normal config
  | (key, data) :: rest =>
      if match acceptedConfigs with
         | Flag b => b
         | Keys keys => Str.includes keys key
         end
      then
        match config with
        | None => Abrupt (TypeError "Cannot read properties of null")
        | Some members =>
            match coerceConfigValue data (member members key) with
            | Normal v =>
                applyDataset acceptedConfigs rest
                             (Some (assoc_set key v members))
            | Abrupt e => Abrupt e
            end
        end
      else applyDataset acceptedConfigs rest config
  end.

(** [processConfig()]. *)
Definition processConfig (this : instance)
  : completion (option (list (string * jsvalue))) :=
  let config := getDefaultConfig this in
  match acceptedConfigs this, element this with
  | Flag false, _ => Normal config
  | _, None => Normal config
  | acceptedConfigs, Some dataset => applyDataset acceptedConfigs dataset config
  end.

Definition set_instanceConfig (config : option (list (string * jsvalue)))
                              (this : instance) : instance :=
  Instance config (acceptedConfigs this) (acceptAllDataConfigs this)
           (element this) (defaults this).

Definition set_acceptedConfigs (a : accepted) (this : instance) : instance :=
  Instance (instanceConfig this) a (acceptAllDataConfigs this)
           (element this) (defaults this).

Definition set_element (dataset : option (list (string * string)))
                       (this : instance) : instance :=
  Instance (instanceConfig this) (acceptedConfigs this)
           (acceptAllDataConfigs this) dataset (defaults this).

(** [refreshConfig()]: how it completes, and the instance it leaves. *)
Definition refreshConfig (this : instance) : completion unit * instance :=
  match getAcceptedConfigs this with
  | Abrupt e => (Abrupt e, this)
  | Normal a =>
      let this := set_acceptedConfigs a this in
      match processConfig this with
      | Abrupt e => (Abrupt e, this)
      | Normal config => (Normal tt, set_instanceConfig config this)
      end
  end.

(** [construct()]. *)
Definition construct (this : instance) : completion unit * instance :=
  match element this with
  | None => (Abrupt NoElement, this)
  | Some _ => refreshConfig this
  end.

(** [getConfig(config)]; [getConfig()] returns the whole configuration. *)
Definition getConfig (config : string) (this : instance)
  : completion jsvalue :=
  match instanceConfig this with
  | Some members => Normal (member members config)
  | None => Abrupt (TypeError "Cannot read properties of null")
  end.

Definition getWholeConfig (this : instance)
  : option (list (string * jsvalue)) :=
  instanceConfig this.

(** [setConfig(config, value, persist)]. *)
Definition setConfig (config : string) (value : jsvalue) (persist : bool)
                     (this : instance) : completion unit * instance :=
  match element this with
  | None => (Normal tt, this)
  | Some dataset =>
      match instanceConfig this with
      | None => (Abrupt (TypeError "Cannot set properties of null"), this)
      | Some members =>
          let this :=
            set_instanceConfig (Some (assoc_set config value members)) this in
          if persist then
            (Normal tt,
             set_element (Some (assoc_set config (String_ value) dataset))
                         this)
          else (Normal tt, this)
      end
  end.

End Host.
End Configurable.

(* ================================================================== *)
(** ** The outer mediator, [ProxyHandler]

    [main/ProxyHandler.ts]: the handler of the proxy that the page sees.
    The registry it wraps is not among the sources; the handler is
    embedded over what the registry answers to [hasAbstract] and
    [hasPlugin]. *)

Module ProxyHandler.

Import InnerProxyHandler.

(** What a read through the proxy resolves to. *)
Inductive resolution :=
| AbstractClass (prop : string)
    (* [Reflect.get(target, 'abstracts').get(prop)] *)
| PluginCallable (propLower : string)
    (* [(...params) => plugins.get(prop.toLowerCase()).getInstance(...params)] *)
| RegistryMember (prop : propkey).
    (* [Reflect.get(target, prop, receiver)] *)

Section Target.

Variable hasAbstract : string -> bool.
Variable hasPlugin : string -> bool.

Definition get (prop : propkey) : resolution :=
  match prop with
  | PString s =>
      if hasAbstract s then AbstractClass s
      else if hasPlugin s then PluginCallable (Str.toLowerCase s)
      else RegistryMember prop
  | PSymbol _ => RegistryMember prop
  end.

Definition has (prop : propkey) (reflect_has : propkey -> bool) : bool :=
  match prop with
  | PString s =>
      if hasAbstract s then true
      else if hasPlugin s then true
      else reflect_has prop
  | PSymbol _ => reflect_has prop
  end.

(** [deleteProperty]: what it returns, and the name it hands to
    [target.removePlugin], if any. *)
Definition deleteProperty (prop : propkey) : bool * option string :=
  match prop with
  | PString s => if hasPlugin s then (true, Some s) else (false, None)
  | PSymbol _ => (false, None)
  end.

End Target.

End ProxyHandler.

(* ================================================================== *)
(** ** Sample programs

    Concrete heaps on which the operations are run.  They hold the classes
    of the repository ([PluginBase], [Trait]) and small plugins and traits
    built on them.  The loader follows the member [prototype] from an
    instance upwards ([PrototypedObject] declares it on every instance), so
    each level of a sample plugin exposes its parent under that name:

      [instance.prototype === Widget.prototype],
      [Widget.prototype.prototype === PluginBase.prototype],
      [PluginBase.prototype.prototype === Object.prototype].  *)

Module Sample.

Definition objectPrototype : loc := 0.
Definition functionPrototype : loc := 1.
Definition objectClass : loc := 2.
Definition pluginBasePrototype : loc := 3.
Definition pluginBaseClass : loc := 4.
Definition traitPrototype : loc := 5.
Definition traitClass : loc := 6.
Definition widgetPrototype : loc := 7.
Definition widgetClass : loc := 8.

(** The own properties every class object has. *)
Definition classProps (name : string) (arity : Z) (prototype : loc)
  : list (string * property) :=
  [("length", Prop_ (VNumber arity) false false true);
   ("name", Prop_ (VString name) false false true);
   ("prototype", Prop_ (VRef prototype) false false false)].

Definition user (id : string) (a : answer) : property :=
  method (VFun (FUser id (Returns a))).

Definition base : heap :=
  [ (* Object.prototype *)
    Obj None [("constructor", method (VRef objectClass))] true None;
    (* Function.prototype *)
    Obj (Some objectPrototype)
        [("length", Prop_ (VNumber 0) false false true);
         ("name", Prop_ (VString EmptyString) false false true)]
        true None;
    (* Object *)
    Obj (Some functionPrototype) (classProps "Object" 1 objectPrototype)
        true (Some []);
    (* PluginBase.prototype *)
    Obj (Some objectPrototype)
        (PluginBase.members pluginBaseClass
           ++ [("prototype", plain (VRef objectPrototype))])
        true None;
    (* PluginBase *)
    Obj (Some functionPrototype)
        (classProps "PluginBase" 1 pluginBasePrototype)
        true (Some PluginBase.fields);
    (* Trait.prototype *)
    Obj (Some objectPrototype)
        [("constructor", method (VRef traitClass));
         ("construct", user "Trait.construct" AUndefined);
         ("getSnowboard", method (VFun (FNative "Trait.getSnowboard")));
         ("dependencies", user "Trait.dependencies" (AStrings []));
         ("listens", method (VFun (FNative "Trait.listens")))]
        true None;
    (* Trait *)
    Obj (Some functionPrototype) (classProps "Trait" 1 traitPrototype)
        true (Some [("snowboard", VUndefined)]) ].

(** [class Widget extends PluginBase] with the given answers of
    [isSingleton()], [dependencies()] and [traits()] and further members
    of its prototype. *)
Definition widget (single : bool) (dependencies traits : list string)
                  (members : list (string * property)) : heap :=
  [ (* Widget.prototype *)
    Obj (Some pluginBasePrototype)
        ([("constructor", method (VRef widgetClass));
          ("isSingleton", user "Widget.isSingleton" (ABool single));
          ("dependencies", user "Widget.dependencies" (AStrings dependencies));
          ("traits", user "Widget.traits" (AStrings traits))]
           ++ members
           ++ [("prototype", plain (VRef pluginBasePrototype))])
        true None;
    (* Widget *)
    Obj (Some pluginBaseClass) (classProps "Widget" 1 widgetPrototype)
        true
        (Some (PluginBase.fields ++ [("prototype", VRef widgetPrototype)])) ].

(** [class <name> extends Trait] with the given methods (members of its
    prototype) and fields; the prototype sits at [at_] and the class at
    [at_ + 1]. *)
Definition traitAt (at_ : loc) (name : string)
                   (methods : list (string * property))
                   (fields : list (string * value)) : heap :=
  [ Obj (Some traitPrototype)
        (("constructor", method (VRef (S at_))) :: methods) true None;
    Obj (Some traitClass) (classProps name 0 at_) true
        (Some (("snowboard", VUndefined) :: fields)) ].

Definition fooOfAlpha : value := VFun (FUser "Alpha.foo" (Returns AUndefined)).
Definition fooOfBeta : value := VFun (FUser "Beta.foo" (Returns AUndefined)).
Definition barOfGamma : value := VFun (FUser "Gamma.bar" (Returns AUndefined)).
Definition barOfDelta : value := VFun (FUser "Delta.bar" (Returns AUndefined)).

(** Traits [Alpha] and [Beta] both declare a member [foo] as a field;
    [Gamma] and [Delta] both declare a method [bar]; [Greedy] declares
    members under reserved names next to one of its own. *)
Definition traitClasses : heap :=
  traitAt 9 "Alpha" [] [("foo", fooOfAlpha)]
    ++ traitAt 11 "Beta" [] [("foo", fooOfBeta)]
    ++ traitAt 13 "Greedy"
         [("getSnowboard", user "Greedy.getSnowboard" AUndefined)]
         [("init", VFun (FUser "Greedy.init" (Returns AUndefined)));
          ("detach", VFun (FUser "Greedy.detach" (Returns AUndefined)));
          ("destructor", VFun (FUser "Greedy.destructor" (Returns AUndefined)));
          ("greed", VNumber 7)]
    ++ traitAt 15 "Gamma" [("bar", method barOfGamma)] []
    ++ traitAt 17 "Delta" [("bar", method barOfDelta)] [].

Definition program (single : bool) (dependencies traits : list string)
                   (members : list (string * property)) : heap :=
  base ++ widget single dependencies traits members ++ traitClasses.

(** Plugins [widget] and [modal] and the five traits are registered. *)
Definition registry_ : registry :=
  fold_left (fun reg entry => registerTrait reg (fst entry) (snd entry))
            [("Alpha", VRef 10); ("Beta", VRef 12); ("Greedy", VRef 14);
             ("Gamma", VRef 16); ("Delta", VRef 18)]
            (registerPlugin (registerPlugin (Registry [] []) "Widget")
                            "Modal").

(** [new PluginLoader('widget', snowboard, Widget)] over a program. *)
Definition load (h : heap) : loader * world :=
  PluginLoader.constructor "widget" registry_ (VRef widgetClass) h.

Definition this : loader := Loader "widget" registry_ (VRef widgetClass).

Definition start (h : heap) : world := snd (load h).

(** The instance that the first [new Widget(...)] yields in a program. *)
Definition firstInstance : loc := 19.

Definition greet : value := VFun (FUser "Widget.greet" (Returns AUndefined)).
Definition fake : func := FUser "fake" (Returns AUndefined).

(** A plugin without traits or dependencies and with a method [greet]. *)
Definition greeter (single : bool) : world :=
  start (program single [] [] [("greet", method greet)]).

(** A plugin that requests [Alpha] then [Beta]. *)
Definition alphaBeta : world := start (program false [] ["Alpha"; "Beta"] []).

(** A plugin that requests [Gamma] then [Delta]. *)
Definition gammaDelta : world :=
  start (program false [] ["Gamma"; "Delta"] []).




(** A singleton plugin that requests [Alpha]. *)
Definition single : world := start (program true [] ["Alpha"] []).

(** A plugin whose prototype holds members that are not functions. *)
Definition oddMembers : world :=
  start (program false [] []
           [("zero", method (VNumber 0));
            ("label", method (VString "label"))]).

(** The state after [new Widget(snowboard)], before anything else. *)
Definition built (w : world) : world :=
  final (new (VRef widgetClass) [VSnowboard] w).

(** The state after a first [getInstance()]. *)
Definition created (w : world) : world :=
  final (PluginLoader.getInstance this [] w).

(** The state after [mock('greet', fake)]. *)
Definition mocked (w : world) : world :=
  final (PluginLoader.mock this "greet" fake w).

End Sample.

(* ================================================================== *)
(** ** Further sample programs

    Inputs on which the operations of the loader and of the traits are
    run: plugins, registries, listeners and configured elements. *)

Module Scenario.

(** A plugin whose [init] throws. *)
Definition failingInit : world :=
  Sample.start
    (Sample.program false [] []
       [("init", method (VFun (FUser "Widget.init" (Throws "no element"))))]).

(** A singleton with a mocked method whose instance was destructed. *)
Definition detached : world :=
  final (PluginBase.destructor (VRef Sample.firstInstance)
           (Sample.mocked (Sample.greeter true))).

(** A plugin that lists a trait twice. *)
Definition repeatedTraits : world :=
  Sample.start (Sample.program false [] ["Alpha"; "Beta"; "Alpha"] []).

(** A registry with a plugin named after a registry method. *)
Definition shadowing : registry := registerPlugin (Registry [] []) "initialise".

(** Functions of a caller of [FiresEvents]. *)
Definition log (id : string) : FiresEvents.listener :=
  FiresEvents.Given id (Returns AUndefined).

Definition veto (id : string) : FiresEvents.listener :=
  FiresEvents.Given id (Returns (ABool false)).

(** An instance with global events enabled and no listener. *)
Definition silent : FiresEvents.instance :=
  FiresEvents.Instance [] false "widget" 0 [].

(** Three listeners for [open], the second of which returns [false], and
    one for [close]. *)
Definition wired : FiresEvents.instance :=
  FiresEvents.on "open" (log "third")
    (FiresEvents.on "close" (log "other")
       (FiresEvents.on "open" (veto "second")
          (FiresEvents.on "open" (log "first") silent))).

(** A host that decodes the payloads of the samples: [dHJ1ZQ==] is
    [true] in base64. *)
Definition decode (s : string) : option string :=
  if String.eqb s "dHJ1ZQ==" then Some "true" else None.

Definition parses (s : string) : bool := false.

(** A plugin with two defaults and three data attributes, one of which
    is no configuration of the plugin. *)
Definition configured : Configurable.instance :=
  Configurable.Instance
    (Some []) (Configurable.Flag false) None
    (Some [("open", "1"); ("colour", "red"); ("wide", "base64:dHJ1ZQ==")])
    (Configurable.DObject
       [("wide", Configurable.Boolean false);
        ("open", Configurable.Boolean false);
        ("size", Configurable.Number "3")]).

(** The same plugin with [defaults()] returning [null]. *)
Definition unconfigured : Configurable.instance :=
  Configurable.Instance
    (Some []) (Configurable.Flag false) None
    (Some [("open", "1")]) Configurable.DNull.

End Scenario.

(* ================================================================== *)
(** ** Vocabulary of the properties *)

(** [m] leaves the state and the trace alone. *)
Definition pure {A} (m : M A) : Prop :=
  forall w, final (m w) = w /\ out (m w) = [].

(** A triple for computations: [m] keeps the state invariant [I], emits
    only events in [E], and throws only errors in [X]. *)
Definition sat {A} (I : world -> Prop) (E : event -> Prop)
               (X : error -> Prop) (m : M A) : Prop :=
  forall w, I w ->
    I (final (m w))
    /\ Forall E (out (m w))
    /\ (forall e, res (m w) = Err e -> X e).

(** Errors that come from the language or from user code, as opposed to
    the three kinds that the loader and the mediator raise themselves and
    to a walk that does not end. *)
Definition incidental (e : error) : Prop :=
  match e with
  | TypeError _ | UserError _ | OutsideModel _ => True
  | MissingDependency _ | UnknownMethod _ | ForbiddenOperation _
  | Diverges => False
  end.

(** Any error but the unknown-method error of [mock]. *)
Definition not_unknown_method (e : error) : Prop :=
  match e with
  | UnknownMethod _ => False
  | _ => True
  end.

Definition any_world (w : world) : Prop := True.
Definition any_event (e : event) : Prop := True.

(** Event classes. *)
Definition is_hook (member : string) (e : event) : bool :=
  match e with
  | EvHook _ m _ => String.eqb m member
  | _ => false
  end.

Definition is_add (e : event) : bool :=
  match e with EvAdd _ => true | _ => false end.


(** What trait composition emits: trait instances built without arguments,
    members defined, trait construct hooks, warnings. *)
Definition is_composition (e : event) : Prop :=
  match e with
  | EvNew _ [] _ | EvDefine _ _ _ | EvTraitConstruct _ _ | EvWarning _ => True
  | _ => False
  end.

(** Number of times the lifecycle hook [member] was entered. *)
Definition entered (member : string) (tr : list event) : nat :=
  List.length (filter (is_hook member) tr).

(** Number of instances recorded. *)
Definition recorded (tr : list event) : nat :=
  List.length (filter is_add tr).


(** Internal prototype links point to objects allocated earlier, which
    holds of every heap that [new] and class declarations build. *)
Fixpoint links_back_from (l : loc) (h : heap) : bool :=
  match h with
  | [] => true
  | o :: r =>
      match o_proto o with
      | Some p => (p <? l)%nat
      | None => true
      end && links_back_from (S l) r
  end.

Definition links_back (h : heap) : bool := links_back_from 0 h.

(** The member [k] as seen from the internal prototype of [l]:
    [Object.getPrototypeOf(l)[k]]. *)
Definition inherited (h : heap) (l : loc) (k : string) : value :=
  match nth_error h l with
  | Some o => match o_proto o with
              | Some p => lookup h p k
              | None => VUndefined
              end
  | None => VUndefined
  end.

(** A plugin with the given answer of [isSingleton()], whose read has no
    effect. *)
Definition singleton_is (this : loader) (b : bool) (w : world) : Prop :=
  PluginLoader.isSingleton this w = Run (Ok b) w [].


(** The reserved members of instance [i] are as they were in the heap
    [h0]: the prototype chain still supplies every one of them, and what the
    instance itself holds under these names has not changed. *)
Definition reserved_intact (i : loc) (h0 : heap) (w : world) : Prop :=
  links_back (w_heap w) = true
  /\ (forall k, In k PluginLoader.reserved ->
        inherited (w_heap w) i k <> VUndefined)
  /\ (forall k, In k PluginLoader.reserved ->
        own (w_heap w) i k = own h0 i k).

(** No member with a reserved name is defined. *)
Definition spares_reserved (e : event) : Prop :=
  match e with
  | EvDefine _ k _ => ~ In k PluginLoader.reserved
  | _ => True
  end.

(** The prototype walk of [loadTraits] seen on the heap alone.
    [returns_strings f]: the function hands back an array.  [walk_step h c]:
    the value that one turn of the [while] loop moves to from [c], when the
    loop neither ends nor throws at [c].  [walk h n c]: where [n] turns lead
    from [c]. *)
Fixpoint returns_strings (f : func) : bool :=
  match f with
  | FUser _ (Returns (AStrings _)) => true
  | FMock callback _ => returns_strings callback
  | _ => false
  end.

Definition walk_step (h : heap) (c : value) : option value :=
  match c with
  | VRef l =>
      match lookup h l "constructor" with
      | VRef ctor =>
          if match lookup h ctor "name" with
             | VString n => String.eqb n "Object"
             | _ => false
             end
          then None
          else
            let member := lookup h l "traits" in
            if truthy member && is_function h member then
              match member with
              | VFun f =>
                  if returns_strings f then Some (lookup h l "prototype")
                  else None
              | _ => None
              end
            else Some (lookup h l "prototype")
      | _ => None
      end
  | _ => None
  end.

Fixpoint walk (h : heap) (n : nat) (c : value) : option value :=
  match n with
  | O => Some c
  | S n' =>
      match walk_step h c with
      | Some c' => walk h n' c'
      | None => None
      end
  end.




(** The class [cls] gives each of its instances a field [member] holding
    [v]. *)
Definition declares (h : heap) (cls : value) (member : string) (v : value)
  : Prop :=
  match cls with
  | VRef c =>
      match nth_error h c with
      | Some o =>
          match o_fields o with
          | Some fields => assoc_get member fields = Some v
          | None => False
          end
      | None => False
      end
  | _ => False
  end.


(** [m], when it throws, has kept the state invariant [I] and emitted only
    events in [E]. *)
Definition throws_within {A} (I : world -> Prop) (E : event -> Prop)
                         (m : M A) : Prop :=
  forall w e, I w -> res (m w) = Err e ->
    I (final (m w)) /\ Forall E (out (m w)).

(** The live set holds nothing but members of [xs], and the singleton flag
    is [b]. *)
Definition live_within (xs : list loc) (b : bool) (w : world) : Prop :=
  incl (w_instances w) xs /\ w_initialised w = b.

(** No instance is recorded. *)
Definition not_add (e : event) : Prop := is_add e = false.

(** The singleton flag is set. *)
Definition flag_set (w : world) : Prop := w_initialised w = true.

(** The state with other mock tables. *)
Definition with_tables (ms : list (string * func)) (os : list (string * value))
                       (w : world) : world :=
  set_originalFunctions os (set_mocks ms w).

(** The member [k] of instance [i] holds [v], in a heap whose prototype
    links point backwards. *)
Definition member_held (i : loc) (k : string) (v : value) (w : world)
  : Prop :=
  links_back (w_heap w) = true
  /\ i < List.length (w_heap w)
  /\ lookup (w_heap w) i k = v.

(** No member called [k] is defined. *)
Definition spares_member (k : string) (e : event) : Prop :=
  match e with
  | EvDefine _ k' _ => k' <> k
  | _ => True
  end.

(** The functions of the caller that running a listener enters. *)
Fixpoint enters (callback : FiresEvents.listener) (parameters : list value)
  : list FiresEvents.signal :=
  match callback with
  | FiresEvents.Given id _ => [FiresEvents.Entered id parameters]
  | FiresEvents.Once _ callback _ => enters callback parameters
  end.

(** The listener returns. *)
Fixpoint quiet (callback : FiresEvents.listener) : bool :=
  match callback with
  | FiresEvents.Given _ (Returns _) => true
  | FiresEvents.Given _ (Throws _) => false
  | FiresEvents.Once _ callback _ => quiet callback
  end.

(** The listener returns [false]. *)
Definition vetoes (callback : FiresEvents.listener) : bool :=
  match callback with
  | FiresEvents.Given _ (Returns (ABool false)) => true
  | _ => false
  end.

(** The registrations up to and including the first whose listener
    returns [false]. *)
Fixpoint until_veto (events : list FiresEvents.registeredEvent)
  : list FiresEvents.registeredEvent :=
  match events with
  | [] => []
  | event :: rest =>
      if vetoes (FiresEvents.callback event) then [event]
      else event :: until_veto rest
  end.

(** A function of the caller that returns something other than [false]:
    it leaves the instance alone and lets the event go on. *)
Definition bystander (r : FiresEvents.registeredEvent) : bool :=
  match FiresEvents.callback r with
  | FiresEvents.Given _ (Returns a) =>
      match a with ABool false => false | _ => true end
  | _ => false
  end.

(** How many closures of [once] are wrapped around a function. *)
Fixpoint depth (cb : FiresEvents.listener) : nat :=
  match cb with
  | FiresEvents.Given _ _ => 0
  | FiresEvents.Once _ cb _ => S (depth cb)
  end.

(** The signal of a function of the caller that was entered. *)
Definition local_signal (s : FiresEvents.signal) : Prop :=
  match s with
  | FiresEvents.Entered _ _ => True
  | _ => False
  end.

(* ================================================================== *)
(** ** Lemmas on strings and association lists *)



Lemma includes_In : forall xs x, Str.includes xs x = true <-> In x xs.
Proof.
  unfold Str.includes. intros xs x. rewrite existsb_exists. split.
  - intros [y [Hin Heq]]. apply String.eqb_eq in Heq. now subst.
  - intros Hin. exists x. split; [assumption | apply String.eqb_refl].
Qed.

Lemma append_assoc : forall a b c : string,
  ((a ++ b) ++ c)%string = (a ++ b ++ c)%string.
Proof.
  induction a as [|x a IH]; intros; simpl.
  - reflexivity.
  - now rewrite IH.
Qed.

Lemma mentions_refl : forall s, Str.mentions s s.
Proof.
  intros s. exists EmptyString, EmptyString. simpl.
  induction s as [|c s IH]; simpl; [reflexivity | now rewrite <- IH].
Qed.

Lemma mentions_inside : forall pre post s part,
  Str.mentions s part -> Str.mentions (pre ++ s ++ post)%string part.
Proof.
  intros pre post s part [a [b ->]].
  exists (pre ++ a)%string, (b ++ post)%string.
  now rewrite !append_assoc.
Qed.

Lemma mentions_suffix : forall pre s part,
  Str.mentions s part -> Str.mentions (pre ++ s)%string part.
Proof.
  intros pre s part [a [b ->]].
  exists (pre ++ a)%string, b. now rewrite !append_assoc.
Qed.


Lemma assoc_get_set_same : forall A k (a : A) xs,
  assoc_get k (assoc_set k a xs) = Some a.
Proof.
  induction xs as [|[k' a'] r IH]; simpl.
  - now rewrite String.eqb_refl.
  - destruct (String.eqb k k') eqn:E; simpl; rewrite E; [reflexivity | exact IH].
Qed.

Lemma assoc_get_set_other : forall A k k' (a : A) xs,
  k' <> k -> assoc_get k' (assoc_set k a xs) = assoc_get k' xs.
Proof.
  intros A k k' a xs Hne. induction xs as [|[k0 a0] r IH]; simpl.
  - apply String.eqb_neq in Hne. now rewrite Hne.
  - destruct (String.eqb k k0) eqn:E; simpl.
    + apply String.eqb_eq in E. subst k0.
      apply String.eqb_neq in Hne. now rewrite Hne.
    + now rewrite IH.
Qed.

Lemma assoc_get_app_other : forall A k k' (a : A) xs,
  k' <> k -> assoc_get k' (xs ++ [(k, a)]) = assoc_get k' xs.
Proof.
  intros A k k' a xs Hne. induction xs as [|[k0 a0] r IH]; simpl.
  - apply String.eqb_neq in Hne. now rewrite Hne.
  - now rewrite IH.
Qed.

Lemma assoc_get_app_new : forall A k (a : A) xs,
  assoc_get k xs = None -> assoc_get k (xs ++ [(k, a)]) = Some a.
Proof.
  intros A k a xs. induction xs as [|[k0 a0] r IH]; simpl; intros H.
  - now rewrite String.eqb_refl.
  - destruct (String.eqb k k0); [discriminate | auto].
Qed.

(* ================================================================== *)
(** ** Lemmas on the execution monad *)

Lemma run_eta : forall A (r : run A), r = Run (res r) (final r) (out r).
Proof. now intros A []. Qed.

Lemma bind_ok : forall A B (m : M A) (f : A -> M B) w a w1 o1,
  m w = Run (Ok a) w1 o1 ->
  bind m f w = Run (res (f a w1)) (final (f a w1)) (o1 ++ out (f a w1)).
Proof. intros. unfold bind. now rewrite H. Qed.

Lemma bind_err : forall A B (m : M A) (f : A -> M B) w e w1 o1,
  m w = Run (Err e) w1 o1 -> bind m f w = Run (Err e) w1 o1.
Proof. intros. unfold bind. now rewrite H. Qed.

Lemma bind_pure_ok : forall A B (m : M A) (f : A -> M B) w a,
  m w = Run (Ok a) w [] -> bind m f w = f a w.
Proof.
  intros. rewrite (bind_ok _ _ _ _ _ _ _ _ H). simpl. symmetry. apply run_eta.
Qed.

(** Inversion of a successful sequence. *)
Lemma bind_inv_ok : forall A B (m : M A) (f : A -> M B) w b,
  res (bind m f w) = Ok b ->
  exists a, res (m w) = Ok a
            /\ res (f a (final (m w))) = Ok b
            /\ final (bind m f w) = final (f a (final (m w)))
            /\ out (bind m f w) = out (m w) ++ out (f a (final (m w))).
Proof.
  intros A B m f w b. unfold bind.
  destruct (m w) as [[a|e] w1 o1]; simpl; intros H.
  - exists a. auto.
  - discriminate.
Qed.

Lemma pure_run : forall A (m : M A) w,
  pure m -> m w = Run (res (m w)) w [].
Proof.
  intros A m w H. destruct (H w) as [Hf Ho].
  rewrite (run_eta _ (m w)) at 1. now rewrite Hf, Ho.
Qed.

Lemma pure_ret : forall A (a : A), pure (ret a).
Proof. now intros A a w. Qed.

Lemma pure_throw : forall A e, pure (@throw A e).
Proof. now intros A e w. Qed.

Lemma pure_read : forall A (f : world -> A), pure (read f).
Proof. now intros A f w. Qed.

Lemma pure_bind : forall A B (m : M A) (f : A -> M B),
  pure m -> (forall a, pure (f a)) -> pure (bind m f).
Proof.
  intros A B m f Hm Hf w. unfold bind.
  destruct (Hm w) as [Hw Ho].
  destruct (m w) as [[a|e] w1 o1]; simpl in *; subst.
  - destruct (Hf a w) as [Hw' Ho']. now rewrite Hw', Ho'.
  - auto.
Qed.

Ltac pure_go :=
  repeat (cbv zeta;
          match goal with
          | |- pure (bind _ _) => apply pure_bind; [ | intros ? ]
          | |- pure (ret _) => apply pure_ret
          | |- pure (throw _) => apply pure_throw
          | |- pure (read _) => apply pure_read
          | |- pure (match ?x with _ => _ end) => destruct x
          end).

Lemma pure_get : forall v k, pure (get v k).
Proof. intros v k. unfold get. pure_go. Qed.

Lemma pure_getPrototypeOf : forall v, pure (getPrototypeOf v).
Proof. intros v. unfold getPrototypeOf. pure_go. Qed.

Lemma pure_getOwnPropertyDescriptor : forall v k,
  pure (getOwnPropertyDescriptor v k).
Proof. intros v k. unfold getOwnPropertyDescriptor. pure_go. Qed.

Lemma pure_deref : forall v, pure (deref v).
Proof. intros v. unfold deref. pure_go. Qed.

(** The triple through the combinators. *)
Lemma sat_ret : forall A I E X (a : A), sat I E X (ret a).
Proof. intros A I E X a w H. simpl. repeat split; auto. discriminate. Qed.

Lemma sat_read : forall A I E X (f : world -> A), sat I E X (read f).
Proof. intros A I E X f w H. simpl. repeat split; auto. discriminate. Qed.

Lemma sat_throw : forall A I E (X : error -> Prop) e,
  X e -> sat I E X (@throw A e).
Proof.
  intros A I E X e He w H. simpl. repeat split; auto.
  intros e' Heq. now inversion Heq; subst.
Qed.

Lemma sat_tell : forall I (E : event -> Prop) X e,
  E e -> sat I E X (tell e).
Proof. intros I E X e He w H. simpl. repeat split; auto. discriminate. Qed.

Lemma sat_modify : forall (I : world -> Prop) E X f,
  (forall w, I w -> I (f w)) -> sat I E X (modify f).
Proof. intros I E X f Hf w H. simpl. repeat split; auto. discriminate. Qed.

Lemma sat_bind : forall A B I E X (m : M A) (f : A -> M B),
  sat I E X m -> (forall a, sat I E X (f a)) -> sat I E X (bind m f).
Proof.
  intros A B I E X m f Hm Hf w Hw. unfold bind.
  destruct (Hm w Hw) as [H1 [H2 H3]].
  destruct (m w) as [[a|e] w1 o1]; simpl in *.
  - destruct (Hf a w1 H1) as [H4 [H5 H6]].
    split; [exact H4 | split; [apply Forall_app; split; assumption | exact H6]].
  - split; [exact H1 | split; [exact H2 | ]].
    intros e' Heq. inversion Heq; subst. now apply H3.
Qed.

Lemma sat_forEach : forall A I E X (f : A -> M unit) xs,
  (forall x, sat I E X (f x)) -> sat I E X (forEach xs f).
Proof.
  intros A I E X f xs Hf. induction xs as [|x r IH]; simpl.
  - apply sat_ret.
  - apply sat_bind; auto.
Qed.

Lemma sat_filterM : forall A I E X (f : A -> M bool) xs,
  (forall x, sat I E X (f x)) -> sat I E X (filterM f xs).
Proof.
  intros A I E X f xs Hf. induction xs as [|x r IH]; simpl.
  - apply sat_ret.
  - apply sat_bind; auto. intros b. apply sat_bind; auto.
    intros r'. apply sat_ret.
Qed.

Lemma sat_reduceM : forall A B I E X (f : B -> A -> M B) xs init,
  (forall b x, sat I E X (f b x)) ->
  sat I E X (PluginLoader.reduceM f xs init).
Proof.
  intros A B I E X f xs. induction xs as [|x r IH]; simpl; intros init Hf.
  - apply sat_ret.
  - apply sat_bind; auto.
Qed.

(** Decomposition of a computation along its syntax; [side] closes the
    conditions on thrown errors, emitted events and state changes. *)
Ltac sat_go side :=
  repeat (cbv zeta;
          match goal with
          | |- sat _ _ _ (bind _ _) => apply sat_bind; [ | intros ? ]
          | |- sat _ _ _ (ret _) => apply sat_ret
          | |- sat _ _ _ (read _) => apply sat_read
          | |- sat _ _ _ (throw _) => apply sat_throw; side
          | |- sat _ _ _ (tell _) => apply sat_tell; side
          | |- sat _ _ _ (modify _) => apply sat_modify; side
          | |- sat _ _ _ (forEach _ _) => apply sat_forEach; intros ?
          | |- sat _ _ _ (filterM _ _) => apply sat_filterM; intros ?
          | |- sat _ _ _ (PluginLoader.reduceM _ _ _) =>
              apply sat_reduceM; intros ? ?
          | |- sat _ _ _ (match ?x with _ => _ end) => destruct x
          end).

(* ================================================================== *)
(** ** Triples of the primitives and of the loader's operations *)

Ltac side :=
  intros; simpl;
  first
    [ assumption
    | exact Logic.I
    | match goal with
      | H : forall e, incidental e -> ?X e |- ?X _ => apply H; exact Logic.I
      end
    | solve [auto]
    | solve [eauto] ].

Section Triples.

Variable I : world -> Prop.
Variable E : event -> Prop.
Variable X : error -> Prop.

(** The invariant does not look at the heap, and survives the removal of
    an instance. *)
Hypothesis I_heap : forall w h, I w -> I (set_heap h w).
Hypothesis I_delete : forall w inst,
  I w -> I (set_instances (set_delete inst (w_instances w)) w).
Hypothesis X_incidental : forall e, incidental e -> X e.
Hypothesis X_diverges : X Diverges.

Lemma sat_get : forall v k, sat I E X (get v k).
Proof. intros. unfold get. sat_go side. Qed.

Lemma sat_getPrototypeOf : forall v, sat I E X (getPrototypeOf v).
Proof. intros. unfold getPrototypeOf. sat_go side. Qed.

Lemma sat_getOwnPropertyDescriptor : forall v k,
  sat I E X (getOwnPropertyDescriptor v k).
Proof. intros. unfold getOwnPropertyDescriptor. sat_go side. Qed.

Lemma sat_deref : forall v, sat I E X (deref v).
Proof. intros. unfold deref. sat_go side. Qed.

Lemma sat_assign : forall target k v,
  (forall l k v, E (EvAssign l k v)) -> sat I E X (assign target k v).
Proof. intros. unfold assign. sat_go side. Qed.

Lemma sat_call_func : forall f, sat I E X (call_func f).
Proof.
  induction f as [id [a|msg] | inst | cb IH bound | name]; simpl.
  - sat_go side.
  - sat_go side.
  - sat_go side.
  - exact IH.
  - sat_go side.
Qed.

Lemma sat_call : forall f, sat I E X (call f).
Proof.
  intros. unfold call. destruct f; try solve [sat_go side].
  apply sat_call_func.
Qed.

Lemma sat_callHook : forall this member args,
  E (EvHook this member args) -> sat I E X (callHook this member args).
Proof.
  intros. unfold callHook. apply sat_bind; [apply sat_get | intros f].
  destruct f; try solve [sat_go side].
  apply sat_bind; [now apply sat_tell | intros _]. apply sat_call_func.
Qed.

Lemma sat_new : forall cls args,
  (forall l, E (EvNew cls args l)) -> sat I E X (new cls args).
Proof. intros. unfold new. sat_go side. Qed.

Lemma sat_defineProperty : forall l k d,
  E (EvDefine l k d) -> sat I E X (defineProperty l k d).
Proof. intros. unfold defineProperty. sat_go side. Qed.

Lemma sat_defineProperties : forall target ds,
  (forall l k d, E (EvDefine l k d)) ->
  sat I E X (defineProperties target ds).
Proof.
  intros. unfold defineProperties. sat_go side.
  apply sat_defineProperty. auto.
Qed.

Variable this : loader.

Lemma sat_isSingleton : sat I E X (PluginLoader.isSingleton this).
Proof.
  unfold PluginLoader.isSingleton.
  apply sat_bind; [apply sat_get | intros p].
  apply sat_bind; [apply sat_get | intros f].
  apply sat_bind; [apply sat_call | intros a]. apply sat_ret.
Qed.

Lemma sat_getDependencies : sat I E X (PluginLoader.getDependencies this).
Proof.
  unfold PluginLoader.getDependencies.
  apply sat_bind; [apply sat_get | intros p].
  apply sat_bind; [apply sat_get | intros f].
  apply sat_bind; [apply sat_call | intros a]. sat_go side.
Qed.

Lemma sat_applyMocks : forall instance,
  (forall l k v, E (EvAssign l k v)) ->
  sat I E X (PluginLoader.applyMocks instance).
Proof.
  intros instance HE. unfold PluginLoader.applyMocks.
  apply sat_bind; [apply sat_read | intros mocks].
  destruct (0 <? List.length mocks)%nat; [ | apply sat_ret].
  apply sat_bind; [apply sat_read | intros originals].
  apply sat_bind.
  - apply sat_forEach. intros entry.
    apply sat_bind; [apply sat_get | intros p]. now apply sat_assign.
  - intros _. apply sat_forEach. intros entry.
    apply sat_bind; [apply sat_get | intros p].
    destruct instance; try solve [sat_go side]. now apply sat_assign.
Qed.

Lemma sat_builtByObject : forall v,
  sat I E X (PluginLoader.builtByObject v).
Proof.
  intros. unfold PluginLoader.builtByObject.
  apply sat_bind; [apply sat_get | intros c].
  apply sat_bind; [apply sat_get | intros n]. apply sat_ret.
Qed.

Lemma sat_declaredTraits : forall v traits,
  sat I E X (PluginLoader.declaredTraits v traits).
Proof.
  intros. unfold PluginLoader.declaredTraits.
  apply sat_bind; [apply sat_get | intros member].
  apply sat_bind; [apply sat_read | intros isf].
  destruct (truthy member && isf); [ | apply sat_ret].
  apply sat_bind; [apply sat_call | intros a]. sat_go side.
Qed.

Lemma sat_collectTraits : forall fuel v traits,
  sat I E X (PluginLoader.collectTraits fuel v traits).
Proof.
  induction fuel as [|fuel IH]; intros; simpl.
  - apply sat_throw. exact X_diverges.
  - apply sat_bind; [apply sat_builtByObject | intros root].
    destruct root; [apply sat_ret | ].
    apply sat_bind; [apply sat_declaredTraits | intros traits'].
    apply sat_bind; [apply sat_get | intros next]. apply IH.
Qed.

Hypothesis E_composition : forall e, is_composition e -> E e.

Lemma sat_applyTrait : forall instance trait,
  sat I E X (PluginLoader.applyTrait this instance trait).
Proof.
  intros. unfold PluginLoader.applyTrait.
  destruct (negb (hasTrait (l_snowboard this) trait)).
  - apply sat_tell. now apply E_composition.
  - apply sat_bind.
    { apply sat_new. intros l. now apply E_composition. }
    intros t. apply sat_bind; [apply sat_deref | intros tobj].
    apply sat_bind.
    { apply sat_reduceM. intros b x.
      apply sat_bind; [apply sat_getOwnPropertyDescriptor | intros d].
      apply sat_ret. }
    intros ds. apply sat_bind; [apply sat_deref | intros cls].
    apply sat_bind.
    { apply sat_reduceM. intros b x.
      destruct (Str.includes PluginLoader.reserved x); [apply sat_ret | ].
      apply sat_bind; [apply sat_getPrototypeOf | intros parent].
      apply sat_bind; [apply sat_getOwnPropertyDescriptor | intros d].
      apply sat_ret. }
    intros ds'. apply sat_bind.
    { apply sat_filterM. intros key.
      apply sat_bind; [apply sat_getPrototypeOf | intros p].
      apply sat_bind; [apply sat_get | intros member]. apply sat_ret. }
    intros newKeys. apply sat_bind.
    { apply sat_defineProperties. intros. now apply E_composition. }
    intros _. apply sat_bind; [apply sat_get | intros c].
    destruct (truthy c); [ | apply sat_ret].
    destruct c; try solve [sat_go side].
    apply sat_bind; [apply sat_tell; now apply E_composition | intros _].
    apply sat_bind; [apply sat_call_func | intros _]. apply sat_ret.
Qed.

Lemma sat_loadTraits : forall instance,
  sat I E X (PluginLoader.loadTraits this instance).
Proof.
  intros. unfold PluginLoader.loadTraits.
  apply sat_bind; [apply sat_read | intros h].
  apply sat_bind; [apply sat_collectTraits | intros traits].
  apply sat_forEach. intros trait. apply sat_applyTrait.
Qed.

End Triples.

(* ================================================================== *)
(** ** The internal mediator *)

(** C8.  A read through the internal mediator under one of the four names
    [attachAbstracts], [loadInbuilt], [initialise], [initialiseSingletons]
    raises an error whose message carries the name; a read under any other
    string resolves to a callable for the plugin of that (lower-cased) name
    when one is registered and to the registry's own member otherwise; a
    read under a symbol always goes to the registry. *)
Theorem inner_get_forbids_registry_management :
  forall (target : registry) (prop : InnerProxyHandler.propkey),
    match prop with
    | InnerProxyHandler.PString s =>
        (In s ["attachAbstracts"; "loadInbuilt"; "initialise";
               "initialiseSingletons"]
         /\ InnerProxyHandler.get target prop
            = Err (ForbiddenOperation (InnerProxyHandler.forbidden_message s))
         /\ Str.mentions (InnerProxyHandler.forbidden_message s) s)
        \/
        (~ In s ["attachAbstracts"; "loadInbuilt"; "initialise";
                 "initialiseSingletons"]
         /\ InnerProxyHandler.get target prop
            = Ok (if hasPlugin target (Str.toLowerCase s)
                  then InnerProxyHandler.PluginCallable (Str.toLowerCase s)
                  else InnerProxyHandler.RegistryMember prop))
    | InnerProxyHandler.PSymbol _ =>
        InnerProxyHandler.get target prop
        = Ok (InnerProxyHandler.RegistryMember prop)
    end.
Proof.
  intros target [s | id]; [ | reflexivity].
  unfold InnerProxyHandler.get.
  destruct (Str.includes InnerProxyHandler.forbidden s) eqn:Hf.
  - left. apply includes_In in Hf. split; [exact Hf | split; [reflexivity | ]].
    unfold InnerProxyHandler.forbidden_message, Str.quoted.
    apply mentions_suffix.
    rewrite !append_assoc.
    apply (mentions_inside Str.dquote _ s s), mentions_refl.
  - right. split.
    + intros Hin. apply includes_In in Hin.
      unfold InnerProxyHandler.forbidden in Hf. congruence.
    + now destruct (hasPlugin target (Str.toLowerCase s)).
Qed.

(* ================================================================== *)
(** ** Dependencies *)

Lemma pure_ok_run : forall A (m : M A) w a,
  pure m -> res (m w) = Ok a -> m w = Run (Ok a) w [].
Proof. intros A m w a Hp H. rewrite (pure_run _ m w Hp). now rewrite H. Qed.

Lemma get_ok_run : forall v k w x,
  res (get v k w) = Ok x -> get v k w = Run (Ok x) w [].
Proof. intros. apply pure_ok_run; [apply pure_get | assumption]. Qed.

(** A call that hands back an array had no effect. *)
Lemma call_func_strings : forall f w xs,
  res (call_func f w) = Ok (AStrings xs) ->
  call_func f w = Run (Ok (AStrings xs)) w [].
Proof.
  induction f as [id [a|msg] | inst | cb IH bound | name];
    simpl; intros w xs H.
  - unfold ret in *. simpl in H. now inversion H.
  - discriminate.
  - discriminate.
  - now apply IH.
  - discriminate.
Qed.

Lemma call_strings : forall f w xs,
  res (call f w) = Ok (AStrings xs) -> call f w = Run (Ok (AStrings xs)) w [].
Proof.
  intros [] w xs H; simpl in *; try discriminate.
  now apply call_func_strings.
Qed.








(* ================================================================== *)
(** ** Mocking: the precondition *)

Ltac sat_ops side :=
  repeat (cbv zeta;
          first
            [ apply sat_ret
            | apply sat_read
            | apply sat_get; side
            | apply sat_getPrototypeOf; side
            | apply sat_assign; side
            | apply sat_new; side
            | apply sat_callHook; side
            | apply sat_isSingleton; side
            | apply sat_getDependencies; side
            | apply sat_applyMocks; side
            | apply sat_loadTraits; side
            | apply sat_throw; side
            | apply sat_tell; side
            | apply sat_modify; side
            | apply sat_bind; [ | intros ? ]
            | match goal with
              | |- sat _ _ _ (match ?x with _ => _ end) => destruct x
              end ]).

Ltac side_any :=
  intros; simpl; unfold any_world, any_event;
  first
    [ exact Logic.I
    | match goal with
      | H : incidental ?e |- not_unknown_method ?e =>
          destruct e; first [exact Logic.I | destruct H]
      end
    | solve [auto] ].

Lemma member_read_inv : forall this methodName w member,
  res ((prototype <- get (l_instance this) "prototype" ;;
        get prototype methodName) w) = Ok member ->
  exists prototype,
    get (l_instance this) "prototype" w = Run (Ok prototype) w []
    /\ get prototype methodName w = Run (Ok member) w [].
Proof.
  intros this methodName w member H.
  apply bind_inv_ok in H. destruct H as [p [Hp [H _]]].
  apply get_ok_run in Hp. rewrite Hp in H. simpl in H.
  apply get_ok_run in H. eauto.
Qed.

(** C10.  [mock] tests the member of the factory's prototype for
    truthiness: it throws the unknown-method error, leaving everything as it
    was, when the member is falsy, and never throws that error when the
    member is truthy.  [hasMethod] tests for a function instead.  A function
    is truthy, but not the other way round: in the sample plugin the member
    [zero] exists, holds 0 and cannot be mocked, while the member [label]
    holds a string, is mocked without complaint, and is no method for
    [hasMethod]. *)
Theorem mock_tests_truthiness_not_function :
  forall this methodName callback w member,
    res ((prototype <- get (l_instance this) "prototype" ;;
          get prototype methodName) w) = Ok member ->
    (truthy member = false ->
       PluginLoader.mock this methodName callback w
       = Run (Err (UnknownMethod
                     (PluginLoader.unknown_method_message methodName))) w [])
    /\ (truthy member = true ->
          forall message,
            res (PluginLoader.mock this methodName callback w)
            <> Err (UnknownMethod message))
    /\ PluginLoader.hasMethod this methodName w
       = Run (Ok (is_function (w_heap w) member)) w []
    /\ (is_function (w_heap w) member = true -> truthy member = true)
    /\ (own (w_heap Sample.oddMembers) Sample.widgetPrototype "zero"
          = Some (method (VNumber 0))
        /\ res (PluginLoader.mock Sample.this "zero" Sample.fake
                                  Sample.oddMembers)
           = Err (UnknownMethod (PluginLoader.unknown_method_message "zero")))
    /\ (res (PluginLoader.mock Sample.this "label" Sample.fake
                               Sample.oddMembers) = Ok tt
        /\ res (PluginLoader.hasMethod Sample.this "label" Sample.oddMembers)
           = Ok false).
Proof.
  intros this methodName callback w member H.
  destruct (member_read_inv _ _ _ _ H) as [p [Hp Hm]].
  split; [ | split; [ | split; [ | split; [ | split]]]].
  - intros Ht. unfold PluginLoader.mock.
    rewrite (bind_pure_ok _ _ _ _ _ _ Hp), (bind_pure_ok _ _ _ _ _ _ Hm).
    now rewrite Ht.
  - intros Ht message. unfold PluginLoader.mock.
    rewrite (bind_pure_ok _ _ _ _ _ _ Hp), (bind_pure_ok _ _ _ _ _ _ Hm).
    rewrite Ht. simpl negb. cbv iota.
    match goal with
    | |- res (?tail w) <> _ =>
        assert (Hs : sat any_world any_event not_unknown_method tail)
    end.
    { sat_ops side_any. }
    intros Heq. destruct (Hs w Logic.I) as [_ [_ Hx]].
    exact (Hx _ Heq).
  - unfold PluginLoader.hasMethod.
    now rewrite (bind_pure_ok _ _ _ _ _ _ Hp), (bind_pure_ok _ _ _ _ _ _ Hm).
  - destruct member; simpl; try discriminate; reflexivity.
  - split; reflexivity.
  - split; reflexivity.
Qed.

Lemma mock_tests_truthiness_not_function_witness :
  PluginLoader.mock Sample.this "zero" Sample.fake Sample.oddMembers
  = Run (Err (UnknownMethod (PluginLoader.unknown_method_message "zero")))
        Sample.oddMembers []
  /\ PluginLoader.hasMethod Sample.this "zero" Sample.oddMembers
     = Run (Ok false) Sample.oddMembers [].
Proof.
  destruct (mock_tests_truthiness_not_function
              Sample.this "zero" Sample.fake Sample.oddMembers (VNumber 0))
    as [Hfalsy [_ [Hhas _]]].
  - reflexivity.
  - split; [apply Hfalsy; reflexivity | exact Hhas].
Defined.

(* ================================================================== *)
(** ** Heap lemmas *)

Lemma update_length : forall h l o, List.length (update h l o) = List.length h.
Proof.
  induction h as [|x r IH]; intros [|n] o; simpl; auto.
Qed.

Lemma nth_error_update_same : forall h l o x,
  nth_error h l = Some x -> nth_error (update h l o) l = Some o.
Proof.
  induction h as [|y r IH]; intros [|n] o x H; simpl in *;
    try discriminate; eauto.
Qed.

Lemma nth_error_update_other : forall h l l' o,
  l' <> l -> nth_error (update h l o) l' = nth_error h l'.
Proof.
  induction h as [|y r IH]; intros [|n] [|n'] o H; simpl; auto;
    try congruence.
Qed.

(** Replacing an object by one with the same prototype link and the same
    own property under [k] does not change what [k] resolves to anywhere. *)
Lemma find_from_update : forall fuel h i o o' l k,
  nth_error h i = Some o ->
  o_proto o' = o_proto o ->
  assoc_get k (o_props o') = assoc_get k (o_props o) ->
  find_from fuel (update h i o') l k = find_from fuel h l k.
Proof.
  induction fuel as [|n IH]; intros h i o o' l k Hi Hp Hk; simpl.
  - reflexivity.
  - destruct (Nat.eq_dec l i) as [-> | Hne].
    + rewrite (nth_error_update_same _ _ _ _ Hi), Hi, Hk, Hp.
      destruct (assoc_get k (o_props o)) eqn:Eg; [reflexivity | ].
      destruct (o_proto o) eqn:Ep; [ | reflexivity].
      apply IH with (o := o); congruence.
    + rewrite (nth_error_update_other _ _ _ _ Hne).
      destruct (nth_error h l) as [x|]; [ | reflexivity].
      destruct (assoc_get k (o_props x)); [reflexivity | ].
      destruct (o_proto x); [ | reflexivity]. now apply IH with (o := o).
Qed.

Lemma lookup_update : forall h i o o' l k,
  nth_error h i = Some o ->
  o_proto o' = o_proto o ->
  assoc_get k (o_props o') = assoc_get k (o_props o) ->
  lookup (update h i o') l k = lookup h l k.
Proof.
  intros. unfold lookup, find. rewrite update_length.
  now rewrite (find_from_update _ _ _ _ _ _ _ H H0 H1).
Qed.

Lemma lookup_own : forall h l k p,
  own h l k = Some p -> lookup h l k = p_value p.
Proof.
  intros h l k p H. unfold lookup, find, own in *. simpl.
  destruct (nth_error h l); [ | discriminate]. now rewrite H.
Qed.

(** What a successful assignment to an object does. *)
Lemma assign_ok : forall i k v w,
  res (assign (VRef i) k v w) = Ok tt ->
  exists o o',
    nth_error (w_heap w) i = Some o
    /\ assign (VRef i) k v w
       = Run (Ok tt) (set_heap (update (w_heap w) i o') w) [EvAssign i k v]
    /\ o_proto o' = o_proto o
    /\ (exists p, assoc_get k (o_props o') = Some p
                  /\ p_value p = v /\ p_writable p = true)
    /\ (forall k', k' <> k ->
          assoc_get k' (o_props o') = assoc_get k' (o_props o)).
Proof.
  intros i k v w. unfold assign, bind, read, modify, tell, throw. simpl.
  destruct (nth_error (w_heap w) i) as [o|] eqn:Ho; [ | discriminate].
  destruct (assoc_get k (o_props o)) as [p|] eqn:Hk.
  - destruct (p_writable p); [ | discriminate]. simpl. intros _.
    eexists o, _. split; [reflexivity | split; [reflexivity | ]]. simpl.
    split; [reflexivity | split].
    + eexists. rewrite assoc_get_set_same. auto.
    + intros k' Hne. now apply assoc_get_set_other.
  - destruct (match find (w_heap w) i k with
              | Some p => negb (p_writable p)
              | None => false
              end); [discriminate | ].
    destruct (o_extensible o); [ | discriminate]. simpl. intros _.
    eexists o, _. split; [reflexivity | split; [reflexivity | ]]. simpl.
    split; [reflexivity | split].
    + eexists. rewrite (assoc_get_app_new _ _ _ _ Hk). auto.
    + intros k' Hne. now apply assoc_get_app_other.
Qed.

(** A failed assignment changes nothing. *)
Lemma assign_err : forall target k v w e,
  res (assign target k v w) = Err e ->
  assign target k v w = Run (Err e) w [].
Proof.
  intros target k v w e.
  destruct target; simpl; unfold throw; simpl;
    try (intros H; inversion H; reflexivity).
  unfold assign, bind, read, modify, tell, throw. simpl.
  destruct (nth_error (w_heap w) l) as [o|];
    [ | intros H; inversion H; reflexivity].
  destruct (assoc_get k (o_props o)) as [p|].
  - destruct (p_writable p); simpl; [discriminate | ].
    intros H; inversion H; reflexivity.
  - destruct (match find (w_heap w) l k with
              | Some p => negb (p_writable p)
              | None => false
              end); simpl; [intros H; inversion H; reflexivity | ].
    destruct (o_extensible o); simpl; [discriminate | ].
    intros H; inversion H; reflexivity.
Qed.

(** A function body leaves the heap, the mocks and the trace alone. *)
Lemma call_func_frame : forall f w,
  w_heap (final (call_func f w)) = w_heap w
  /\ w_mocks (final (call_func f w)) = w_mocks w
  /\ w_originalFunctions (final (call_func f w)) = w_originalFunctions w
  /\ out (call_func f w) = [].
Proof.
  induction f as [id [a|msg] | inst | cb IH bound | name]; intros w; simpl;
    auto.
Qed.

(** Whether a function body returns does not depend on the state. *)
Lemma call_func_returns : forall f w w' a,
  res (call_func f w) = Ok a -> exists a', res (call_func f w') = Ok a'.
Proof.
  induction f as [id [b|msg] | inst | cb IH bound | name];
    intros w w' a; simpl; intros H; try discriminate; eauto.
Qed.

(** What a successful hook call amounts to. *)
Lemma callHook_ok : forall this member args w a,
  res (callHook this member args w) = Ok a ->
  exists i f,
    this = VRef i
    /\ lookup (w_heap w) i member = VFun f
    /\ res (call_func f w) = Ok a
    /\ final (callHook this member args w) = final (call_func f w)
    /\ out (callHook this member args w) = [EvHook this member args].
Proof.
  intros this member args w a H. unfold callHook in H |- *.
  destruct (bind_inv_ok _ _ _ _ _ _ H) as [f [Hf [Hc _]]].
  pose proof (get_ok_run _ _ _ _ Hf) as Hrun.
  rewrite (bind_pure_ok _ _ _ _ _ _ Hrun) in H |- *.
  destruct this; simpl in Hf; try discriminate.
  inversion Hf; subst f. clear Hf Hc.
  destruct (lookup (w_heap w) l member) eqn:Hl; simpl in H; try discriminate.
  exists l, f. split; [reflexivity | split; [exact Hl | ]].
  unfold bind, tell in *. simpl in *.
  destruct (call_func_frame f w) as [_ [_ [_ Ho]]].
  destruct (call_func f w) as [[x|e] w1 o1]; simpl in *; try discriminate.
  subst o1. auto.
Qed.

(** A hook call never changes the heap. *)
Lemma callHook_heap : forall this member args w,
  w_heap (final (callHook this member args w)) = w_heap w.
Proof.
  intros. unfold callHook, bind.
  destruct this; simpl; try reflexivity.
  destruct (lookup (w_heap w) l member); simpl; try reflexivity.
  destruct (call_func_frame f w) as [Hh _].
  destruct (call_func f w) as [[x|e] w1 o1]; simpl in *; assumption.
Qed.

(* ================================================================== *)
(** ** The destructor of [PluginBase] *)

Lemma lookup_after_assign : forall i k v w,
  res (assign (VRef i) k v w) = Ok tt ->
  lookup (w_heap (final (assign (VRef i) k v w))) i k = v
  /\ (exists p, own (w_heap (final (assign (VRef i) k v w))) i k = Some p
                /\ p_writable p = true)
  /\ (forall l k', k' <> k ->
        lookup (w_heap (final (assign (VRef i) k v w))) l k'
        = lookup (w_heap w) l k')
  /\ w_instances (final (assign (VRef i) k v w)) = w_instances w.
Proof.
  intros i k v w H.
  destruct (assign_ok _ _ _ _ H) as [o [o' [Ho [Hrun [Hp [[p [Hk [Hv Hw]]] Hother]]]]]].
  rewrite Hrun. simpl.
  assert (Hown : own (update (w_heap w) i o') i k = Some p).
  { unfold own. now rewrite (nth_error_update_same _ _ _ _ Ho). }
  split; [ | split; [ | split]].
  - rewrite (lookup_own _ _ _ _ Hown). exact Hv.
  - eauto.
  - intros l k' Hne. apply lookup_update with (o := o); auto.
  - reflexivity.
Qed.

(** The heap after [destructor()], whatever its outcome: untouched, or the
    flag was set. *)
Lemma destructor_heap : forall this w,
  w_heap (final (PluginBase.destructor this w)) = w_heap w
  \/ (exists i, this = VRef i
        /\ res (PluginBase.destructor this w) = Ok tt
        /\ lookup (w_heap (final (PluginBase.destructor this w))) i
                  "destructed" = VBool true).
Proof.
  intros this w. unfold PluginBase.destructor.
  pose proof (callHook_heap this "destruct" [] w) as H1.
  destruct (callHook this "destruct" [] w) as [[a1|e1] w1 o1] eqn:E1;
    cbn [final] in H1.
  2:{ rewrite (bind_err _ _ _ _ _ _ _ _ E1). now left. }
  rewrite (bind_ok _ _ _ _ _ _ _ _ E1). cbn [res final out].
  pose proof (callHook_heap this "detach" [] w1) as H2.
  destruct (callHook this "detach" [] w1) as [[a2|e2] w2 o2] eqn:E2;
    cbn [final] in H2.
  2:{ rewrite (bind_err _ _ _ _ _ _ _ _ E2). left. cbn [final]. congruence. }
  rewrite (bind_ok _ _ _ _ _ _ _ _ E2). cbn [res final out].
  destruct (res (assign this "destructed" (VBool true) w2)) as [[]|e3] eqn:H3.
  - right. destruct this; try (simpl in H3; discriminate).
    exists l. split; [reflexivity | split; [reflexivity | ]].
    now destruct (lookup_after_assign _ _ _ _ H3) as [Hl _].
  - left. rewrite (assign_err _ _ _ _ _ H3). cbn [final]. congruence.
Qed.

(** When the hooks return and the flag is writable, [destructor()]
    succeeds. *)
Lemma destructor_succeeds : forall i w f1 f2 p,
  lookup (w_heap w) i "destruct" = VFun f1 ->
  (exists a1, res (call_func f1 w) = Ok a1) ->
  lookup (w_heap w) i "detach" = VFun f2 ->
  (forall w', exists a2, res (call_func f2 w') = Ok a2) ->
  own (w_heap w) i "destructed" = Some p ->
  p_writable p = true ->
  res (PluginBase.destructor (VRef i) w) = Ok tt.
Proof.
  intros i w f1 f2 p Hd [a1 Hc1] Hdt Hc2 Hown Hw.
  unfold PluginBase.destructor, callHook, bind, get, read, tell. simpl.
  rewrite Hd. simpl.
  destruct (call_func_frame f1 w) as [Hh1 _].
  destruct (call_func f1 w) as [[x1|e1] w1 o1]; simpl in *; [ | discriminate].
  rewrite Hh1, Hdt. simpl.
  destruct (Hc2 w1) as [a2 Ha2].
  destruct (call_func_frame f2 w1) as [Hh2 _].
  destruct (call_func f2 w1) as [[x2|e2] w2 o2]; simpl in *; [ | discriminate].
  unfold assign, bind, read, modify, tell, own in *. simpl.
  rewrite Hh2, Hh1.
  destruct (nth_error (w_heap w) i) as [o|]; [ | discriminate].
  rewrite Hown, Hw. reflexivity.
Qed.

(** C9.  A call of [destructor()] that returns has entered [destruct],
    then [detach], then written [destructed = true], in this order; the
    loader's detach hook has taken the instance out of the live set; a
    second call returns as well and leaves [destructed] true; and no call of
    [destructor()], however it ends, takes [destructed] from true to
    anything else. *)
Theorem destructor_idempotent_flag_monotonic : forall this w,
  res (PluginBase.destructor this w) = Ok tt ->
  exists i,
    this = VRef i
    /\ out (PluginBase.destructor this w)
       = [EvHook this "destruct" []; EvHook this "detach" [];
          EvAssign i "destructed" (VBool true)]
    /\ lookup (w_heap (final (PluginBase.destructor this w))) i "destructed"
       = VBool true
    /\ (lookup (w_heap w) i "detach" = VFun (FDetach i) ->
          ~ In i (w_instances (final (PluginBase.destructor this w))))
    /\ res (PluginBase.destructor this
                                 (final (PluginBase.destructor this w)))
       = Ok tt
    /\ lookup (w_heap (final (PluginBase.destructor this
                                (final (PluginBase.destructor this w)))))
              i "destructed" = VBool true
    /\ (forall w',
          lookup (w_heap w') i "destructed" = VBool true ->
          lookup (w_heap (final (PluginBase.destructor this w'))) i
                 "destructed" = VBool true).
Proof.
  intros this w H.
  assert (Hmono : forall i, this = VRef i -> forall w',
            lookup (w_heap w') i "destructed" = VBool true ->
            lookup (w_heap (final (PluginBase.destructor this w'))) i
                   "destructed" = VBool true).
  { intros i Hi w' Hl. destruct (destructor_heap this w') as [-> | [j [Hj [_ Hset]]]].
    - exact Hl.
    - rewrite Hi in Hj. inversion Hj; subst j. exact Hset. }
  pose proof H as H0. unfold PluginBase.destructor in H0.
  destruct (bind_inv_ok _ _ _ _ _ _ H0) as [a1 [Hc1 [H1 [Hf1 Ho1]]]].
  destruct (callHook_ok _ _ _ _ _ Hc1) as [i [f1 [Hi [Hd [Hr1 [Hw1 Hout1]]]]]].
  subst this.
  destruct (bind_inv_ok _ _ _ _ _ _ H1) as [a2 [Hc2 [H2 [Hf2 Ho2]]]].
  destruct (callHook_ok _ _ _ _ _ Hc2) as [i' [f2 [Hi' [Hdt [Hr2 [Hw2 Hout2]]]]]].
  inversion Hi'; subst i'. clear Hi'.
  set (w1 := final (callHook (VRef i) "destruct" [] w)) in *.
  set (w2 := final (callHook (VRef i) "detach" [] w1)) in *.
  assert (Hh1 : w_heap w1 = w_heap w) by apply callHook_heap.
  assert (Hh2 : w_heap w2 = w_heap w1) by apply callHook_heap.
  destruct (lookup_after_assign _ _ _ _ H2) as [Hset [[p [Hown Hwr]] [Hother Hinst]]].
  assert (Hfinal : final (PluginBase.destructor (VRef i) w)
                   = final (assign (VRef i) "destructed" (VBool true) w2)).
  { unfold PluginBase.destructor. rewrite Hf1. fold w1. rewrite Hf2. reflexivity. }
  exists i. split; [reflexivity | ].
  split; [ | split; [ | split; [ | split; [ | split]]]].
  - unfold PluginBase.destructor. rewrite Ho1. fold w1. rewrite Ho2.
    fold w2. rewrite Hout1, Hout2.
    destruct (assign_ok _ _ _ _ H2) as [o [o' [_ [Hrun _]]]].
    rewrite Hrun. reflexivity.
  - rewrite Hfinal. exact Hset.
  - intros Hdetach. rewrite Hfinal, Hinst.
    rewrite Hh1 in Hdt. rewrite Hdt in Hdetach. inversion Hdetach; subst f2.
    rewrite Hw2. simpl. unfold set_delete.
    intros Hin. apply filter_In in Hin. destruct Hin as [_ Hne].
    now rewrite Nat.eqb_refl in Hne.
  - rewrite Hfinal.
    eapply destructor_succeeds with (f1 := f1) (f2 := f2) (p := p).
    + rewrite Hother by discriminate. now rewrite Hh2, Hh1.
    + exact (call_func_returns f1 w _ _ Hr1).
    + rewrite Hother by discriminate. now rewrite Hh2.
    + intros w'. exact (call_func_returns f2 w1 w' _ Hr2).
    + exact Hown.
    + exact Hwr.
  - apply Hmono; [reflexivity | ]. rewrite Hfinal. exact Hset.
  - apply Hmono. reflexivity.
Qed.

Lemma destructor_idempotent_flag_monotonic_witness :
  exists i,
    VRef Sample.firstInstance = VRef i
    /\ out (PluginBase.destructor (VRef Sample.firstInstance)
              (Sample.created (Sample.greeter false)))
       = [EvHook (VRef Sample.firstInstance) "destruct" [];
          EvHook (VRef Sample.firstInstance) "detach" [];
          EvAssign i "destructed" (VBool true)]
    /\ lookup (w_heap (final (PluginBase.destructor
                                (VRef Sample.firstInstance)
                                (Sample.created (Sample.greeter false)))))
              i "destructed" = VBool true
    /\ (lookup (w_heap (Sample.created (Sample.greeter false))) i "detach"
        = VFun (FDetach i) ->
          ~ In i (w_instances
                    (final (PluginBase.destructor
                              (VRef Sample.firstInstance)
                              (Sample.created (Sample.greeter false))))))
    /\ res (PluginBase.destructor (VRef Sample.firstInstance)
              (final (PluginBase.destructor
                        (VRef Sample.firstInstance)
                        (Sample.created (Sample.greeter false)))))
       = Ok tt
    /\ lookup (w_heap (final (PluginBase.destructor
                                (VRef Sample.firstInstance)
                                (final (PluginBase.destructor
                                          (VRef Sample.firstInstance)
                                          (Sample.created
                                             (Sample.greeter false)))))))
              i "destructed" = VBool true
    /\ (forall w',
          lookup (w_heap w') i "destructed" = VBool true ->
          lookup (w_heap (final (PluginBase.destructor
                                   (VRef Sample.firstInstance) w'))) i
                 "destructed" = VBool true).
Proof.
  apply (destructor_idempotent_flag_monotonic
           (VRef Sample.firstInstance)
           (Sample.created (Sample.greeter false))).
  vm_compute. reflexivity.
Defined.

(* ================================================================== *)
(** ** Missing traits *)

Lemma bind_assoc : forall A B C (m : M A) (f : A -> M B) (g : B -> M C) w,
  bind (bind m f) g w = bind m (fun a => bind (f a) g) w.
Proof.
  intros. unfold bind.
  destruct (m w) as [[a|e] w1 o1]; simpl; [ | reflexivity].
  destruct (f a w1) as [[b|e] w2 o2]; simpl; [ | reflexivity].
  now rewrite app_assoc.
Qed.





(* ================================================================== *)
(** ** The steps of [getInstance] *)

Lemma getDependencies_ok_run : forall this w deps,
  res (PluginLoader.getDependencies this w) = Ok deps ->
  PluginLoader.getDependencies this w = Run (Ok deps) w [].
Proof.
  intros this w deps H. unfold PluginLoader.getDependencies in *.
  destruct (bind_inv_ok _ _ _ _ _ _ H) as [p [Hp [H1 _]]].
  apply get_ok_run in Hp. rewrite (bind_pure_ok _ _ _ _ _ _ Hp) in H |- *.
  clear H1. destruct (bind_inv_ok _ _ _ _ _ _ H) as [f [Hf [H1 _]]].
  apply get_ok_run in Hf. rewrite (bind_pure_ok _ _ _ _ _ _ Hf) in H |- *.
  clear H1. destruct (bind_inv_ok _ _ _ _ _ _ H) as [a [Ha [H1 _]]].
  destruct a as [ | b | xs]; try discriminate.
  apply call_strings in Ha. rewrite (bind_pure_ok _ _ _ _ _ _ Ha) in H |- *.
  simpl in H. inversion H. reflexivity.
Qed.

Lemma dependenciesFulfilled_ok_run : forall this w b,
  res (PluginLoader.dependenciesFulfilled this w) = Ok b ->
  PluginLoader.dependenciesFulfilled this w = Run (Ok b) w [].
Proof.
  intros this w b H. unfold PluginLoader.dependenciesFulfilled in *.
  destruct (bind_inv_ok _ _ _ _ _ _ H) as [deps [Hd _]].
  apply getDependencies_ok_run in Hd.
  rewrite (bind_pure_ok _ _ _ _ _ _ Hd) in H |- *.
  simpl in H. inversion H. reflexivity.
Qed.

(** What a successful [new] does. *)
Lemma new_ok : forall cls args w l,
  res (new cls args w) = Ok l ->
  exists o,
    new cls args w = Run (Ok l) (set_heap (w_heap w ++ [o]) w)
                         [EvNew cls args l]
    /\ l = List.length (w_heap w)
    /\ (exists p, o_proto o = Some p /\ p < l)
    /\ o_extensible o = true.
Proof.
  intros cls args w l. unfold new, bind, read, modify, tell, throw.
  destruct cls; simpl; try discriminate.
  destruct (nth_error (w_heap w) l0) as [[pr props ext [fields|]]|];
    simpl; try discriminate.
  destruct (lookup (w_heap w) l0 "prototype"); simpl; try discriminate.
  destruct (l1 <? List.length (w_heap w))%nat eqn:Hlt; simpl;
    try discriminate.
  intros H. inversion H; subst l. eexists. split; [reflexivity | ].
  split; [reflexivity | ]. split; [ | reflexivity].
  exists l1. split; [reflexivity | now apply Nat.ltb_lt].
Qed.

Lemma set_add_In : forall x xs, In x (set_add x xs).
Proof.
  intros x xs. unfold set_add.
  destruct (existsb (Nat.eqb x) xs) eqn:E.
  - apply existsb_exists in E. destruct E as [y [Hy Heq]].
    apply Nat.eqb_eq in Heq. now subst.
  - apply in_or_app. right. now left.
Qed.

(** Taking a successful sequence apart, one step at a time. *)
Ltac chain H a Ha :=
  let Hr := fresh "Hr" in
  let Hf := fresh "Hfin" in
  let Ho := fresh "Hout" in
  destruct (bind_inv_ok _ _ _ _ _ _ H) as [a [Ha [Hr [Hf Ho]]]];
  rewrite ?Hf, ?Ho; clear H Hf Ho; rename Hr into H; cbv beta in H |- *.





(* ================================================================== *)
(** ** Mocking: the round trip *)

(** Unmocking a name that has no active mock changes nothing. *)
Lemma unmock_inactive_is_noop : forall this methodName w,
  assoc_has methodName (w_mocks w) = false ->
  PluginLoader.unmock this methodName w = Run (Ok tt) w [].
Proof.
  intros this methodName w H. unfold PluginLoader.unmock, bind, read. simpl.
  now rewrite H.
Qed.

(** C6 at its failing input: a singleton plugin whose prototype has the
    method [greet].  [mock] saves as the original what the parent of the
    class holds under that name, which is nothing; after [getInstance] the
    instance answers [greet] with the mock wrapper; after [unmock] and
    another [getInstance] the instance has no [greet] any more, and calling
    it is a type error. *)
Theorem mock_round_trip_loses_the_original :
  let w0 := Sample.greeter true in
  let w1 := final (PluginLoader.mock Sample.this "greet" Sample.fake w0) in
  let r2 := PluginLoader.getInstance Sample.this [] w1 in
  let r3 := PluginLoader.unmock Sample.this "greet" (final r2) in
  let r4 := PluginLoader.getInstance Sample.this [] (final r3) in
  lookup (w_heap w0) Sample.widgetPrototype "greet" = Sample.greet
  /\ inherited (w_heap w0) Sample.widgetClass "greet" = VUndefined
  /\ w_originalFunctions w1 = [("greet", VUndefined)]
  /\ res r2 = Ok (VRef Sample.firstInstance)
  /\ lookup (w_heap (final r2)) Sample.firstInstance "greet"
     = VFun (FMock Sample.fake (RInstance Sample.firstInstance))
  /\ res r3 = Ok tt
  /\ res r4 = Ok (VRef Sample.firstInstance)
  /\ lookup (w_heap (final r4)) Sample.firstInstance "greet" = VUndefined
  /\ res (callHook (VRef Sample.firstInstance) "greet" [] (final r4))
     = Err (TypeError "not a function").
Proof.
  vm_compute. repeat split.
Qed.

(* ================================================================== *)
(** ** Trait precedence *)

(** C3 at its failing input.  The sample plugin requests [Alpha] then
    [Beta]; both give their instances a member [foo]; the plugin declares
    none.  The composed instance carries the [foo] of [Beta]: the test
    [Object.getPrototypeOf(instance)[key] === undefined] does not see what
    the earlier trait put on the instance itself.  With [Gamma] then
    [Delta], which declare [bar] as a method of their prototypes, the
    instance gets no [bar] at all. *)
Theorem later_trait_overwrites_earlier :
  let r := PluginLoader.getInstance Sample.this [] Sample.alphaBeta in
  let r' := PluginLoader.getInstance Sample.this [] Sample.gammaDelta in
  declares (w_heap Sample.alphaBeta) (getTrait Sample.registry_ "Alpha")
           "foo" Sample.fooOfAlpha
  /\ declares (w_heap Sample.alphaBeta) (getTrait Sample.registry_ "Beta")
              "foo" Sample.fooOfBeta
  /\ lookup (w_heap Sample.alphaBeta) Sample.widgetPrototype "foo"
     = VUndefined
  /\ res r = Ok (VRef Sample.firstInstance)
  /\ lookup (w_heap (final r)) Sample.firstInstance "foo" = Sample.fooOfBeta
  /\ Sample.fooOfBeta <> Sample.fooOfAlpha
  /\ res r' = Ok (VRef Sample.firstInstance)
  /\ lookup (w_heap (final r')) Sample.firstInstance "bar" = VUndefined.
Proof.
  vm_compute. repeat split. discriminate.
Qed.

(** The older loader on the same traits: its filter reads
    [instance[key]], so the member of the trait applied first stays, and
    methods come from the prototype of the trait. *)
Lemma older_loader_keeps_the_first_writer :
  let r := forEach ["Alpha"; "Beta"]
                   (Legacy.applyTrait Sample.this (VRef Sample.firstInstance))
                   (Sample.built Sample.alphaBeta) in
  let r' := forEach ["Gamma"; "Delta"]
                    (Legacy.applyTrait Sample.this (VRef Sample.firstInstance))
                    (Sample.built Sample.gammaDelta) in
  res r = Ok tt
  /\ lookup (w_heap (final r)) Sample.firstInstance "foo" = Sample.fooOfAlpha
  /\ res r' = Ok tt
  /\ lookup (w_heap (final r')) Sample.firstInstance "bar" = Sample.barOfGamma.
Proof.
  vm_compute. repeat split.
Qed.

(* ================================================================== *)
(** ** Singletons *)

Lemma entered_app : forall member xs ys,
  entered member (xs ++ ys) = entered member xs + entered member ys.
Proof.
  intros. unfold entered. now rewrite filter_app, length_app.
Qed.

Lemma recorded_app : forall xs ys,
  recorded (xs ++ ys) = recorded xs + recorded ys.
Proof.
  intros. unfold recorded. now rewrite filter_app, length_app.
Qed.

Lemma entered_cons : forall member e tr,
  entered member (e :: tr)
  = (if is_hook member e then 1 else 0) + entered member tr.
Proof.
  intros. unfold entered. simpl. now destruct (is_hook member e).
Qed.

Lemma recorded_cons : forall e tr,
  recorded (e :: tr) = (if is_add e then 1 else 0) + recorded tr.
Proof.
  intros. unfold recorded. simpl. now destruct (is_add e).
Qed.

Lemma entered_none : forall member (P : event -> Prop) tr,
  (forall e, P e -> is_hook member e = false) ->
  Forall P tr -> entered member tr = 0.
Proof.
  intros member P tr HP H. unfold entered.
  induction H as [|e r He _ IH]; simpl; [reflexivity | ].
  now rewrite (HP e He).
Qed.

Lemma recorded_none : forall (P : event -> Prop) tr,
  (forall e, P e -> is_add e = false) ->
  Forall P tr -> recorded tr = 0.
Proof.
  intros P tr HP H. unfold recorded.
  induction H as [|e r He _ IH]; simpl; [reflexivity | ].
  now rewrite (HP e He).
Qed.

Lemma composition_no_hook : forall member e,
  is_composition e -> is_hook member e = false.
Proof. intros member []; simpl; intros H; try reflexivity; destruct H. Qed.

Lemma composition_no_add : forall e, is_composition e -> is_add e = false.
Proof. intros []; simpl; intros H; try reflexivity; destruct H. Qed.







Lemma applyMocks_none : forall instance w,
  w_mocks w = [] ->
  PluginLoader.applyMocks instance w = Run (Ok tt) w [].
Proof.
  intros instance w H. unfold PluginLoader.applyMocks, bind, read. simpl.
  now rewrite H.
Qed.








(* ================================================================== *)
(** ** Reserved names *)

Lemma links_back_from_spec : forall h n l o p,
  links_back_from n h = true ->
  nth_error h l = Some o -> o_proto o = Some p -> p < n + l.
Proof.
  induction h as [|x r IH]; intros n l o p H Hl Hp.
  - destruct l; discriminate.
  - simpl in H. apply andb_true_iff in H. destruct H as [Hx Hr].
    destruct l as [|l']; simpl in Hl.
    + inversion Hl; subst x. rewrite Hp in Hx. apply Nat.ltb_lt in Hx. lia.
    + specialize (IH (S n) l' o p Hr Hl Hp). lia.
Qed.

Lemma links_back_spec : forall h l o p,
  links_back h = true ->
  nth_error h l = Some o -> o_proto o = Some p -> p < l.
Proof.
  intros h l o p H Hl Hp.
  exact (links_back_from_spec h 0 l o p H Hl Hp).
Qed.

Lemma links_back_from_intro : forall h n,
  (forall l o p, nth_error h l = Some o -> o_proto o = Some p -> p < n + l) ->
  links_back_from n h = true.
Proof.
  induction h as [|x r IH]; intros n H; simpl.
  - reflexivity.
  - apply andb_true_iff. split.
    + destruct (o_proto x) as [p|] eqn:Hp; [ | reflexivity].
      apply Nat.ltb_lt. specialize (H 0 x p eq_refl Hp). lia.
    + apply IH. intros l o p Hl Hp. specialize (H (S l) o p Hl Hp). lia.
Qed.

Lemma links_back_intro : forall h,
  (forall l o p, nth_error h l = Some o -> o_proto o = Some p -> p < l) ->
  links_back h = true.
Proof. intros h H. apply links_back_from_intro. exact H. Qed.

Lemma links_back_alloc : forall h o,
  links_back h = true ->
  (forall p, o_proto o = Some p -> p < List.length h) ->
  links_back (h ++ [o]) = true.
Proof.
  intros h o H Ho. apply links_back_intro. intros l x p Hl Hp.
  destruct (Nat.lt_ge_cases l (List.length h)) as [Hlt | Hge].
  - rewrite nth_error_app1 in Hl by assumption.
    exact (links_back_spec _ _ _ _ H Hl Hp).
  - rewrite nth_error_app2 in Hl by assumption.
    destruct (l - List.length h) as [|n] eqn:E; simpl in Hl.
    + inversion Hl; subst x. specialize (Ho p Hp). lia.
    + destruct n; discriminate.
Qed.

Lemma links_back_update : forall h i o o',
  links_back h = true ->
  nth_error h i = Some o -> o_proto o' = o_proto o ->
  links_back (update h i o') = true.
Proof.
  intros h i o o' H Hi Hp. apply links_back_intro. intros l x p Hl Hx.
  destruct (Nat.eq_dec l i) as [-> | Hne].
  - rewrite (nth_error_update_same _ _ _ _ Hi) in Hl. inversion Hl; subst x.
    rewrite Hp in Hx. exact (links_back_spec _ _ _ _ H Hi Hx).
  - rewrite (nth_error_update_other _ _ _ _ Hne) in Hl.
    exact (links_back_spec _ _ _ _ H Hl Hx).
Qed.

(** Under backward links, what [k] resolves to from [l] depends only on
    the objects at [l] and below, and not on the fuel once it exceeds
    [l]. *)
Lemma find_local : forall fuel fuel' h h' l k,
  links_back h = true ->
  (forall l', l' <= l -> nth_error h' l' = nth_error h l') ->
  l < fuel -> l < fuel' ->
  find_from fuel h l k = find_from fuel' h' l k.
Proof.
  induction fuel as [|n IH]; intros fuel' h h' l k H Hsame Hf Hf'.
  - lia.
  - destruct fuel' as [|n']; [lia | ]. simpl.
    rewrite (Hsame l (Nat.le_refl l)).
    destruct (nth_error h l) as [o|] eqn:Ho; [ | reflexivity].
    destruct (assoc_get k (o_props o)); [reflexivity | ].
    destruct (o_proto o) as [p|] eqn:Hp; [ | reflexivity].
    pose proof (links_back_spec _ _ _ _ H Ho Hp) as Hlt.
    apply IH; try assumption; try lia.
    intros l' Hl'. apply Hsame. lia.
Qed.

Lemma lookup_local : forall h h' l k,
  links_back h = true ->
  l < List.length h ->
  l < List.length h' ->
  (forall l', l' <= l -> nth_error h' l' = nth_error h l') ->
  lookup h' l k = lookup h l k.
Proof.
  intros h h' l k H Hl Hl' Hsame. unfold lookup, find.
  rewrite (find_local (S (List.length h)) (S (List.length h')) h h' l k);
    auto; lia.
Qed.

(** The instance exists and has a prototype when its chain supplies a
    member. *)
Lemma inherited_defined : forall h i k,
  inherited h i k <> VUndefined ->
  exists o p, nth_error h i = Some o /\ o_proto o = Some p
              /\ inherited h i k = lookup h p k.
Proof.
  intros h i k H. unfold inherited in *.
  destruct (nth_error h i) as [o|]; [ | congruence].
  destruct (o_proto o) as [p|] eqn:Hp; [ | congruence].
  exists o, p. rewrite Hp. auto.
Qed.

Lemma nth_error_length : forall A (xs : list A) n x,
  nth_error xs n = Some x -> n < List.length xs.
Proof.
  intros A xs n x H. apply nth_error_Some. congruence.
Qed.

Lemma reserved_intact_alloc : forall i h0 w o,
  reserved_intact i h0 w ->
  (forall p, o_proto o = Some p -> p < List.length (w_heap w)) ->
  reserved_intact i h0 (set_heap (w_heap w ++ [o]) w).
Proof.
  intros i h0 w o [Hl [Hinh Hown]] Ho. unfold reserved_intact. simpl.
  destruct (inherited_defined _ i "constructor" (Hinh _ (or_introl eq_refl)))
    as [oi [pi [Hi [Hpi _]]]].
  pose proof (nth_error_length _ _ _ _ Hi) as Hilt.
  pose proof (links_back_spec _ _ _ _ Hl Hi Hpi) as Hplt.
  assert (Hnth : nth_error (w_heap w ++ [o]) i = Some oi)
    by (rewrite nth_error_app1; assumption).
  split; [now apply links_back_alloc | split].
  - intros k Hk. specialize (Hinh k Hk). unfold inherited in *.
    rewrite Hnth, Hpi. rewrite Hi, Hpi in Hinh.
    rewrite (lookup_local (w_heap w)); auto; try lia.
    + rewrite length_app. simpl. lia.
    + intros l' Hl'. apply nth_error_app1. lia.
  - intros k Hk. rewrite <- (Hown k Hk). unfold own. now rewrite Hnth, Hi.
Qed.

Lemma reserved_intact_update : forall i h0 w o o' k,
  reserved_intact i h0 w ->
  nth_error (w_heap w) i = Some o ->
  o_proto o' = o_proto o ->
  ~ In k PluginLoader.reserved ->
  (forall k', k' <> k -> assoc_get k' (o_props o') = assoc_get k' (o_props o)) ->
  reserved_intact i h0 (set_heap (update (w_heap w) i o') w).
Proof.
  intros i h0 w o o' k [Hl [Hinh Hown]] Hi Hp Hk Hother.
  unfold reserved_intact. simpl.
  destruct (inherited_defined _ i "constructor" (Hinh _ (or_introl eq_refl)))
    as [oi [pi [Hi' [Hpi _]]]].
  rewrite Hi in Hi'. inversion Hi'; subst oi. clear Hi'.
  pose proof (nth_error_length _ _ _ _ Hi) as Hilt.
  pose proof (links_back_spec _ _ _ _ Hl Hi Hpi) as Hplt.
  pose proof (nth_error_update_same _ _ o' _ Hi) as Hnth.
  split; [now apply links_back_update with (o := o) | split].
  - intros k' Hk'. specialize (Hinh k' Hk'). unfold inherited in *.
    rewrite Hnth, Hp, Hpi. rewrite Hi, Hpi in Hinh.
    rewrite (lookup_local (w_heap w)); auto; try lia.
    + rewrite update_length. lia.
    + intros l' Hl'. apply nth_error_update_other. lia.
  - intros k' Hk'. rewrite <- (Hown k' Hk'). unfold own. rewrite Hnth, Hi.
    apply Hother. intros ->. contradiction.
Qed.

(** A failed [new] changes nothing. *)
Lemma new_err : forall cls args w e,
  res (new cls args w) = Err e -> new cls args w = Run (Err e) w [].
Proof.
  intros cls args w e. unfold new, bind, read, modify, tell, throw.
  destruct cls; simpl; try (intros H; inversion H; reflexivity).
  destruct (nth_error (w_heap w) l) as [[pr props ext [fields|]]|];
    simpl; try (intros H; inversion H; reflexivity).
  destruct (lookup (w_heap w) l "prototype"); simpl;
    try (intros H; inversion H; reflexivity).
  destruct (l0 <? List.length (w_heap w))%nat; simpl;
    [discriminate | intros H; inversion H; reflexivity].
Qed.

(** What [defineProperty] can do to the heap. *)
Lemma defineProperty_frame : forall l k d w,
  (final (defineProperty l k d w) = w /\ out (defineProperty l k d w) = [])
  \/ exists o o',
       nth_error (w_heap w) l = Some o
       /\ final (defineProperty l k d w)
          = set_heap (update (w_heap w) l o') w
       /\ out (defineProperty l k d w) = [EvDefine l k d]
       /\ o_proto o' = o_proto o
       /\ (forall k', k' <> k ->
             assoc_get k' (o_props o') = assoc_get k' (o_props o)).
Proof.
  intros l k d w. unfold defineProperty, bind, read, modify, tell, throw.
  simpl.
  destruct (nth_error (w_heap w) l) as [o|] eqn:Ho; simpl; [ | now left].
  assert (Hset : forall props,
            (forall k', k' <> k -> assoc_get k' props = assoc_get k' (o_props o)) ->
            exists o0 o',
              Some o = Some o0
              /\ set_heap (update (w_heap w) l
                             (Obj (o_proto o) props (o_extensible o)
                                  (o_fields o))) w
                 = set_heap (update (w_heap w) l o') w
              /\ [EvDefine l k d] = [EvDefine l k d]
              /\ o_proto o' = o_proto o0
              /\ (forall k', k' <> k ->
                    assoc_get k' (o_props o') = assoc_get k' (o_props o0))).
  { intros props Hp. eexists o, _. repeat split; auto. }
  destruct (assoc_get k (o_props o)) as [cur|] eqn:Hk.
  - destruct (p_configurable cur); simpl.
    + right. apply Hset. intros k' Hne. now apply assoc_get_set_other.
    + destruct (p_configurable d
                || negb (Bool.eqb (p_enumerable d) (p_enumerable cur)));
        simpl; [now left | ].
      destruct (p_writable cur); simpl.
      * right. apply Hset. intros k' Hne. now apply assoc_get_set_other.
      * destruct (p_writable d
                  || negb (same_value (p_value d) (p_value cur)));
          simpl; now left.
  - destruct (o_extensible o); simpl; [ | now left].
    right. apply Hset. intros k' Hne. now apply assoc_get_app_other.
Qed.

Lemma sat_forEach_in : forall A I E X (f : A -> M unit) xs,
  (forall x, In x xs -> sat I E X (f x)) -> sat I E X (forEach xs f).
Proof.
  intros A I E X f xs. induction xs as [|x r IH]; intros Hf; simpl.
  - apply sat_ret.
  - apply sat_bind.
    + apply Hf. now left.
    + intros _. apply IH. intros y Hy. apply Hf. now right.
Qed.

Lemma pure_filterM : forall A (f : A -> M bool) xs,
  (forall x, pure (f x)) -> pure (filterM f xs).
Proof.
  intros A f xs Hf. induction xs as [|x r IH]; simpl.
  - apply pure_ret.
  - apply pure_bind; [apply Hf | intros b].
    apply pure_bind; [exact IH | intros r']. apply pure_ret.
Qed.

(** What a pure filter keeps has passed the test. *)
Lemma filterM_kept : forall A (f : A -> M bool) xs w ys,
  (forall x, pure (f x)) ->
  res (filterM f xs w) = Ok ys ->
  forall y, In y ys -> res (f y w) = Ok true.
Proof.
  intros A f xs w. induction xs as [|x r IH]; intros ys Hf H y Hy; simpl in H.
  - inversion H; subst ys. destruct Hy.
  - destruct (bind_inv_ok _ _ _ _ _ _ H) as [b [Hb [H1 _]]].
    destruct (Hf x w) as [Hw _]. rewrite Hw in H1.
    destruct (bind_inv_ok _ _ _ _ _ _ H1) as [r' [Hr' [H2 _]]].
    simpl in H2. inversion H2; subst ys. clear H2.
    destruct b.
    + destruct Hy as [<- | Hy]; [exact Hb | ]. now apply (IH r').
    + now apply (IH r').
Qed.

Lemma toPropertyDescriptors_keys : forall ds ds',
  toPropertyDescriptors ds = Some ds' -> map fst ds' = map fst ds.
Proof.
  induction ds as [|[k [d|]] r IH]; intros ds' H; simpl in H.
  - inversion H. reflexivity.
  - destruct (toPropertyDescriptors r) as [r'|]; [ | discriminate].
    inversion H; subst ds'. simpl. now rewrite (IH r' eq_refl).
  - discriminate.
Qed.

Lemma assoc_set_keys : forall A k (a : A) xs k',
  In k' (map fst (assoc_set k a xs)) -> k' = k \/ In k' (map fst xs).
Proof.
  intros A k a xs k'. induction xs as [|[k0 a0] r IH]; simpl.
  - intros [<- | []]. now left.
  - destruct (String.eqb k k0) eqn:E; simpl.
    + intros H. now right.
    + intros [<- | H]; [right; now left | ].
      destruct (IH H) as [-> | Hin]; [now left | right; now right].
Qed.

(** The keys of [newDescriptors] are among the keys that passed the
    filter. *)
Lemma newDescriptors_keys :
  forall (descriptors : list (string * option property)) newKeys acc k,
    In k (map fst
            (fold_left (fun filtered key =>
                          match assoc_get key descriptors with
                          | Some d => assoc_set key d filtered
                          | None => filtered
                          end)
                       newKeys acc)) ->
    In k newKeys \/ In k (map fst acc).
Proof.
  intros descriptors newKeys. induction newKeys as [|x r IH]; intros acc k H;
    simpl in H.
  - now right.
  - destruct (IH _ _ H) as [Hin | Hin]; [left; now right | ].
    destruct (assoc_get x descriptors) as [d|]; [ | now right].
    destruct (assoc_set_keys _ _ _ _ _ Hin) as [-> | Hacc];
      [left; now left | now right].
Qed.

Section ReservedTriples.

Variable this : loader.
Variable i : loc.
Variable h0 : heap.

Let J := reserved_intact i h0.
Let X := fun _ : error => True.

Ltac side_reserved :=
  first
    [ intros; exact Logic.I
    | intros ? ? H; exact H
    | intros; assumption
    | solve [auto] ].

Lemma sat_new_reserved : forall cls args,
  sat J spares_reserved X (new cls args).
Proof.
  intros cls args w HJ.
  destruct (res (new cls args w)) as [l|e] eqn:Hres.
  - destruct (new_ok _ _ _ _ Hres) as [o [Hrun [Hl [[p [Hp Hlt]] _]]]].
    rewrite Hrun. simpl. split; [ | split].
    + apply reserved_intact_alloc; [exact HJ | ].
      intros p' Hp'. rewrite Hp in Hp'. inversion Hp'; subst p'. lia.
    + constructor; [exact Logic.I | constructor].
    + discriminate.
  - rewrite (new_err _ _ _ _ Hres). simpl.
    split; [exact HJ | split; [constructor | intros; exact Logic.I]].
Qed.

Lemma sat_defineProperty_reserved : forall k d,
  ~ In k PluginLoader.reserved ->
  sat J spares_reserved X (defineProperty i k d).
Proof.
  intros k d Hk w HJ.
  destruct (defineProperty_frame i k d w)
    as [[Hf Ho] | [o [o' [Hi [Hf [Ho [Hp Hother]]]]]]];
    rewrite Hf, Ho.
  - split; [exact HJ | split; [constructor | intros; exact Logic.I]].
  - split; [ | split; [ | intros; exact Logic.I]].
    + now apply reserved_intact_update with (o := o) (k := k).
    + constructor; [exact Hk | constructor].
Qed.

Lemma sat_defineProperties_reserved : forall ds,
  (forall k, In k (map fst ds) -> ~ In k PluginLoader.reserved) ->
  sat J spares_reserved X (defineProperties (VRef i) ds).
Proof.
  intros ds Hks. unfold defineProperties.
  destruct (toPropertyDescriptors ds) as [ds'|] eqn:Hds.
  - apply sat_forEach_in. intros [k d] Hin. simpl.
    apply sat_defineProperty_reserved. apply Hks.
    rewrite <- (toPropertyDescriptors_keys _ _ Hds).
    now apply (in_map fst) in Hin.
  - apply sat_throw. exact Logic.I.
Qed.

(** A key that passes the filter of [loadTraits] is not supplied by the
    prototype chain of the instance. *)
Lemma passes_filter : forall key w,
  res ((prototype <- getPrototypeOf (VRef i) ;;
        member <- get prototype key ;;
        ret (is_undefined member)) w) = Ok true ->
  inherited (w_heap w) i key = VUndefined.
Proof.
  intros key w. unfold bind, getPrototypeOf, get, read, ret, throw, inherited.
  simpl.
  destruct (nth_error (w_heap w) i) as [o|]; simpl; [ | discriminate].
  destruct (o_proto o) as [p|]; simpl; [ | discriminate].
  destruct (lookup (w_heap w) p key); simpl; try discriminate. reflexivity.
Qed.

Lemma sat_filter_reserved : forall A keys (g : list string -> M A),
  (forall ks, (forall k, In k ks -> ~ In k PluginLoader.reserved) ->
              sat J spares_reserved X (g ks)) ->
  sat J spares_reserved X
      (newKeys <-
         filterM (fun key =>
                    prototype <- getPrototypeOf (VRef i) ;;
                    member <- get prototype key ;;
                    ret (is_undefined member))
                 keys ;;
       g newKeys).
Proof.
  intros A keys g Hg w HJ.
  set (test := fun key : string =>
                 prototype <- getPrototypeOf (VRef i) ;;
                 member <- get prototype key ;;
                 ret (is_undefined member)).
  assert (Hpure : forall key, pure (test key)).
  { intros key. unfold test.
    apply pure_bind; [apply pure_getPrototypeOf | intros p].
    apply pure_bind; [apply pure_get | intros m]. apply pure_ret. }
  pose proof (pure_filterM _ test keys Hpure) as Hpf.
  destruct (res (filterM test keys w)) as [ks|e] eqn:Hres.
  - rewrite (bind_pure_ok _ _ _ _ _ _ (pure_ok_run _ _ _ _ Hpf Hres)).
    apply Hg; [ | exact HJ].
    intros k Hk Hreserved.
    pose proof (filterM_kept _ test keys w ks Hpure Hres k Hk) as Hpass.
    apply passes_filter in Hpass.
    destruct HJ as [_ [Hinh _]]. exact (Hinh k Hreserved Hpass).
  - assert (Hrun : filterM test keys w = Run (Err e) w []).
    { rewrite (pure_run _ _ w Hpf). now rewrite Hres. }
    rewrite (bind_err _ _ _ _ _ _ _ _ Hrun). simpl.
    split; [exact HJ | split; [constructor | intros; exact Logic.I]].
Qed.

Lemma sat_applyTrait_reserved : forall trait,
  sat J spares_reserved X (PluginLoader.applyTrait this (VRef i) trait).
Proof.
  intros trait. unfold PluginLoader.applyTrait.
  destruct (negb (hasTrait (l_snowboard this) trait)).
  - apply sat_tell. exact Logic.I.
  - apply sat_bind; [apply sat_new_reserved | intros t].
    apply sat_bind; [apply sat_deref; side_reserved | intros tobj].
    apply sat_bind.
    { apply sat_reduceM. intros b x.
      apply sat_bind;
        [apply sat_getOwnPropertyDescriptor; side_reserved | intros d].
      apply sat_ret. }
    intros ds. apply sat_bind; [apply sat_deref; side_reserved | intros cls].
    apply sat_bind.
    { apply sat_reduceM. intros b x.
      destruct (Str.includes PluginLoader.reserved x); [apply sat_ret | ].
      apply sat_bind; [apply sat_getPrototypeOf; side_reserved | intros parent].
      apply sat_bind;
        [apply sat_getOwnPropertyDescriptor; side_reserved | intros d].
      apply sat_ret. }
    intros ds'. apply sat_filter_reserved. intros newKeys Hkeys.
    apply sat_bind.
    { apply sat_defineProperties_reserved. intros k Hk.
      destruct (newDescriptors_keys _ _ _ _ Hk) as [Hin | []].
      now apply Hkeys. }
    intros _. apply sat_bind; [apply sat_get; side_reserved | intros c].
    destruct (truthy c); [ | apply sat_ret].
    destruct c; try solve [sat_go ltac:(exact Logic.I)].
    apply sat_bind; [apply sat_tell; exact Logic.I | intros _].
    apply sat_bind; [apply sat_call_func; side_reserved | intros _].
    apply sat_ret.
Qed.

Lemma sat_loadTraits_reserved :
  sat J spares_reserved X (PluginLoader.loadTraits this (VRef i)).
Proof.
  unfold PluginLoader.loadTraits.
  apply sat_bind; [apply sat_read | intros h].
  apply sat_bind; [apply sat_collectTraits; side_reserved | intros traits].
  apply sat_forEach. intros trait. apply sat_applyTrait_reserved.
Qed.

End ReservedTriples.



(* ================================================================== *)
(** ** The prototype walk and its fuel

    [loadTraits] walks with as much fuel as the heap has objects, plus
    one.  The walk does not change the heap, so a walk that uses up this
    fuel has come back to an object it has seen and never ends: more fuel
    does not help. *)

Lemma call_func_returns_strings : forall f w,
  (returns_strings f = true ->
     exists xs, call_func f w = Run (Ok (AStrings xs)) w [])
  /\ (returns_strings f = false ->
        forall xs, res (call_func f w) <> Ok (AStrings xs)).
Proof.
  induction f as [id [a|msg] | inst | cb IH bound | name]; intros w; simpl.
  - destruct a; split; intros H; try discriminate;
      try (intros xs'; discriminate).
    exists xs. reflexivity.
  - split; intros H; [discriminate | intros xs; discriminate].
  - split; intros H; [discriminate | intros xs; discriminate].
  - apply IH.
  - split; intros H; [discriminate | intros xs; discriminate].
Qed.

(** One turn of the loop: it moves on, purely, exactly when [walk_step]
    says so; otherwise the loop ends or throws something other than
    [Diverges]. *)
Lemma collectTraits_turn : forall fuel c traits w,
  match walk_step (w_heap w) c with
  | Some c' =>
      exists traits',
        PluginLoader.collectTraits (S fuel) c traits w
        = PluginLoader.collectTraits fuel c' traits' w
  | None =>
      res (PluginLoader.collectTraits (S fuel) c traits w) <> Err Diverges
  end.
Proof.
  intros fuel c traits w.
  unfold walk_step. cbn [PluginLoader.collectTraits].
  unfold PluginLoader.builtByObject, PluginLoader.declaredTraits.
  destruct c; try (unfold bind, get, throw; simpl; discriminate).
  rewrite !bind_assoc.
  rewrite (bind_pure_ok _ _ _ _ _ _
             (eq_refl : get (VRef l) "constructor" w
                        = Run (Ok (lookup (w_heap w) l "constructor")) w [])).
  destruct (lookup (w_heap w) l "constructor") as [ | | | | | | | ctor | ];
    try (unfold bind, get, throw; simpl; discriminate).
  rewrite !bind_assoc.
  rewrite (bind_pure_ok _ _ _ _ _ _
             (eq_refl : get (VRef ctor) "name" w
                        = Run (Ok (lookup (w_heap w) ctor "name")) w [])).
  rewrite (bind_pure_ok _ _ _ _ _ _
             (eq_refl : ret (match lookup (w_heap w) ctor "name" with
                             | VString n => String.eqb n "Object"
                             | _ => false
                             end) w = Run (Ok _) w [])).
  destruct (match lookup (w_heap w) ctor "name" with
            | VString n => String.eqb n "Object"
            | _ => false
            end); [unfold ret; simpl; discriminate | ].
  rewrite !bind_assoc.
  rewrite (bind_pure_ok _ _ _ _ _ _
             (eq_refl : get (VRef l) "traits" w
                        = Run (Ok (lookup (w_heap w) l "traits")) w [])).
  rewrite !bind_assoc.
  rewrite (bind_pure_ok _ _ _ _ _ _
             (eq_refl : read (fun w0 => is_function (w_heap w0)
                                          (lookup (w_heap w) l "traits")) w
                        = Run (Ok (is_function (w_heap w)
                                     (lookup (w_heap w) l "traits"))) w [])).
  cbv zeta.
  destruct (truthy (lookup (w_heap w) l "traits")
            && is_function (w_heap w) (lookup (w_heap w) l "traits")).
  - destruct (lookup (w_heap w) l "traits") as [ | | | | | | | cl | f ];
      try (unfold bind, call, throw; simpl; discriminate).
    rewrite !bind_assoc.
    destruct (call_func_returns_strings f w) as [Hyes Hno].
    destruct (returns_strings f).
    + destruct (Hyes eq_refl) as [xs Hrun].
      change (call (VFun f)) with (call_func f).
      rewrite (bind_pure_ok _ _ _ _ _ _ Hrun).
      rewrite (bind_pure_ok _ _ _ _ _ _
                 (eq_refl : ret (fold_left (fun acc trait => strings_add trait acc)
                                           xs traits) w = Run (Ok _) w [])).
      rewrite (bind_pure_ok _ _ _ _ _ _
                 (eq_refl : get (VRef l) "prototype" w
                            = Run (Ok (lookup (w_heap w) l "prototype")) w [])).
      eauto.
    + change (call (VFun f)) with (call_func f).
      specialize (Hno eq_refl). unfold bind.
      destruct (call_func f w) as [[a|e] w1 o1] eqn:E; simpl in *.
      * destruct a; simpl; try discriminate. exfalso. now apply (Hno xs).
      * intros Heq. inversion Heq; subst e.
        assert (Hs : sat any_world any_event incidental (call_func f)).
        { apply sat_call_func; side_any. }
        destruct (Hs w Logic.I) as [_ [_ Hx]]. rewrite E in Hx.
        exact (Hx _ eq_refl).
  - rewrite (bind_pure_ok _ _ _ _ _ _
               (eq_refl : ret traits w = Run (Ok traits) w [])).
    rewrite (bind_pure_ok _ _ _ _ _ _
               (eq_refl : get (VRef l) "prototype" w
                          = Run (Ok (lookup (w_heap w) l "prototype")) w [])).
    eauto.
Qed.

Lemma collectTraits_diverges_iff : forall fuel c traits w,
  res (PluginLoader.collectTraits fuel c traits w) = Err Diverges
  <-> exists c', walk (w_heap w) fuel c = Some c'.
Proof.
  induction fuel as [|fuel IH]; intros c traits w.
  - simpl. split; eauto.
  - pose proof (collectTraits_turn fuel c traits w) as Hturn.
    cbn [walk].
    destruct (walk_step (w_heap w) c) as [c'|].
    + destruct Hturn as [traits' ->]. apply IH.
    + split; [intros H; contradiction | intros [c' H]; discriminate].
Qed.

Lemma walk_step_valid : forall h c c',
  walk_step h c = Some c' -> exists l, c = VRef l /\ l < List.length h.
Proof.
  intros h c c' H. destruct c; try discriminate. exists l. split; auto.
  unfold walk_step in H.
  destruct (nth_error h l) as [o|] eqn:Hl.
  - apply nth_error_Some. congruence.
  - assert (Hu : lookup h l "constructor" = VUndefined).
    { unfold lookup, find. simpl. now rewrite Hl. }
    rewrite Hu in H. discriminate.
Qed.

Lemma walk_add : forall h a b c,
  walk h (a + b) c
  = match walk h a c with Some c' => walk h b c' | None => None end.
Proof.
  intros h a. induction a as [|a IH]; intros b c; simpl.
  - reflexivity.
  - destruct (walk_step h c); [apply IH | reflexivity].
Qed.

Lemma walk_prefix : forall h a b c c',
  walk h (a + b) c = Some c' -> exists c'', walk h a c = Some c''.
Proof.
  intros h a b c c' H. rewrite walk_add in H.
  destruct (walk h a c); [eauto | discriminate].
Qed.

(** A walk that comes back to where it started goes on for ever. *)
Lemma walk_periodic : forall h k c,
  walk h (S k) c = Some c -> forall m, exists c', walk h m c = Some c'.
Proof.
  intros h k c Hp m. induction m as [m IH] using (well_founded_induction lt_wf).
  destruct (Nat.le_gt_cases m (S k)) as [Hle | Hgt].
  - apply (walk_prefix h m (S k - m) c c).
    now replace (m + (S k - m)) with (S k) by lia.
  - replace m with (S k + (m - S k)) by lia.
    rewrite walk_add, Hp. apply IH. lia.
Qed.

Lemma NoDup_bounded : forall (xs : list nat) n,
  NoDup xs -> (forall x, In x xs -> x < n) -> List.length xs <= n.
Proof.
  intros xs n Hnd Hb.
  rewrite <- (length_seq n 0). apply NoDup_incl_length; [exact Hnd | ].
  intros x Hx. apply in_seq. specialize (Hb x Hx). lia.
Qed.

Lemma walk_unbounded : forall h n visited c,
  NoDup visited ->
  (forall l, In l visited -> l < List.length h) ->
  (forall l, In l visited -> exists k, walk h (S k) (VRef l) = Some c) ->
  (exists c', walk h n c = Some c') ->
  List.length h < n + List.length visited ->
  forall m, exists c', walk h m c = Some c'.
Proof.
  intros h n. induction n as [|n IH]; intros visited c Hnd Hb Hreach Hn Hlen.
  - pose proof (NoDup_bounded _ _ Hnd Hb). simpl in Hlen. lia.
  - destruct Hn as [c' Hn]. cbn [walk] in Hn.
    destruct (walk_step h c) as [c1|] eqn:Hstep; [ | discriminate].
    destruct (walk_step_valid _ _ _ Hstep) as [l [-> Hl]].
    destruct (in_dec Nat.eq_dec l visited) as [Hin | Hnin].
    + destruct (Hreach l Hin) as [k Hk]. exact (walk_periodic h k _ Hk).
    + assert (Hnext : forall m, exists c'', walk h m c1 = Some c'').
      { apply (IH (l :: visited)).
        - now constructor.
        - intros l' [<- | Hl']; auto.
        - intros l' [<- | Hl'].
          + exists 0. cbn [walk]. now rewrite Hstep.
          + destruct (Hreach l' Hl') as [k Hk]. exists (S k).
            replace (S (S k)) with (S k + 1) by lia.
            rewrite walk_add, Hk. cbn [walk]. now rewrite Hstep.
        - eauto.
        - simpl. lia. }
      intros [|m]; [simpl; eauto | ].
      cbn [walk]. rewrite Hstep. apply Hnext.
Qed.

(** The fuel of [loadTraits] is enough: when the walk uses it up, it uses
    up any fuel. *)
Lemma walk_fuel_is_enough : forall c traits w,
  res (PluginLoader.collectTraits (S (List.length (w_heap w))) c traits w)
  = Err Diverges ->
  forall fuel traits',
    res (PluginLoader.collectTraits fuel c traits' w) = Err Diverges.
Proof.
  intros c traits w H fuel traits'.
  apply collectTraits_diverges_iff in H.
  apply collectTraits_diverges_iff.
  apply (walk_unbounded (w_heap w) (S (List.length (w_heap w))) [] c).
  - constructor.
  - intros l [].
  - intros l [].
  - exact H.
  - simpl. lia.
Qed.

(* ================================================================== *)
(** ** Dependencies: when the missing-dependency error is raised *)






(* ================================================================== *)
(** ** What a failed construction leaves behind *)

Lemma throws_within_bind : forall A B I E X (m : M A) (f : A -> M B),
  sat I E X m -> (forall a, throws_within I E (f a)) ->
  throws_within I E (bind m f).
Proof.
  intros A B I E X m f Hm Hf w e Hw. unfold bind.
  destruct (Hm w Hw) as [H1 [H2 _]].
  destruct (m w) as [[a|e1] w1 o1]; simpl in *.
  - intros He. destruct (Hf a w1 e H1 He) as [H3 H4].
    split; [exact H3 | apply Forall_app; split; assumption].
  - intros _. split; assumption.
Qed.

Lemma throws_within_total : forall A I E (m : M A),
  (forall w, exists a, res (m w) = Ok a) -> throws_within I E m.
Proof.
  intros A I E m Hm w e _ He. destruct (Hm w) as [a Ha]. congruence.
Qed.

Lemma live_within_heap : forall xs b w h,
  live_within xs b w -> live_within xs b (set_heap h w).
Proof. intros xs b w h [H1 H2]. now split. Qed.

Lemma live_within_delete : forall xs b w inst,
  live_within xs b w ->
  live_within xs b (set_instances (set_delete inst (w_instances w)) w).
Proof.
  intros xs b w inst [H1 H2]. split; simpl; [ | exact H2].
  intros x Hx. unfold set_delete in Hx. apply filter_In in Hx.
  apply H1. tauto.
Qed.

Ltac live_side :=
  first
    [ apply live_within_heap
    | apply live_within_delete
    | exact composition_no_add
    | intros; exact Logic.I
    | intros; unfold not_add; reflexivity
    | intros; assumption
    | solve [auto] ].

(** X2.  A call of [getInstance] on a plugin that is not a singleton, when
    it throws (unmet dependencies, a failing factory, [construct], trait or
    [init]), has recorded no instance: the live set has gained nothing, the
    singleton flag is as it was. *)
Theorem failed_getInstance_records_nothing :
  forall this parameters w e,
    singleton_is this false w ->
    res (PluginLoader.getInstance this parameters w) = Err e ->
    incl (w_instances (final (PluginLoader.getInstance this parameters w)))
         (w_instances w)
    /\ w_initialised (final (PluginLoader.getInstance this parameters w))
       = w_initialised w
    /\ recorded (out (PluginLoader.getInstance this parameters w)) = 0.
Proof.
  intros this parameters w e Hs H.
  assert (Hgoal : live_within (w_instances w) (w_initialised w)
                    (final (PluginLoader.getInstance this parameters w))
                  /\ Forall not_add
                       (out (PluginLoader.getInstance this parameters w))).
  { revert H. unfold PluginLoader.getInstance.
    destruct (PluginLoader.dependenciesFulfilled this w)
      as [[fulfilled|e0] w0 o0] eqn:Hdf.
    - assert (Hdf' : res (PluginLoader.dependenciesFulfilled this w)
                     = Ok fulfilled) by now rewrite Hdf.
      apply dependenciesFulfilled_ok_run in Hdf'.
      rewrite (bind_pure_ok _ _ _ _ _ _ Hdf').
      destruct fulfilled; cbv beta; cbn [negb]; cbv iota.
      + unfold singleton_is in Hs. rewrite (bind_pure_ok _ _ _ _ _ _ Hs).
        cbv beta iota. intros H.
        match goal with
        | |- live_within _ _ (final (?tail w)) /\ _ =>
            assert (Ht : throws_within
                           (live_within (w_instances w) (w_initialised w))
                           not_add tail)
        end.
        { eapply throws_within_bind with (X := fun _ => True);
            [apply sat_new; live_side | intros newInstance].
          eapply throws_within_bind with (X := fun _ => True);
            [apply sat_applyMocks; live_side | intros _].
          eapply throws_within_bind with (X := fun _ => True);
            [apply sat_assign; live_side | intros _].
          eapply throws_within_bind with (X := fun _ => True);
            [apply sat_callHook; live_side | intros _].
          eapply throws_within_bind with (X := fun _ => True);
            [apply sat_loadTraits; live_side | intros _].
          eapply throws_within_bind with (X := fun _ => True);
            [apply sat_callHook; live_side | intros _].
          apply throws_within_total. intros w1. eexists. reflexivity. }
        apply (Ht w e); [ | exact H]. split; [apply incl_refl | reflexivity].
      + intros H.
        destruct (PluginLoader.getDependencies this w) as [[deps|e1] w1 o1] eqn:Hg.
        * assert (Hg' : res (PluginLoader.getDependencies this w) = Ok deps)
            by now rewrite Hg.
          apply getDependencies_ok_run in Hg'.
          rewrite (bind_pure_ok _ _ _ _ _ _ Hg'). simpl.
          split; [ | constructor]. split; [apply incl_refl | reflexivity].
        * exfalso. unfold PluginLoader.dependenciesFulfilled in Hdf'.
          unfold bind in Hdf'. rewrite Hg in Hdf'. discriminate.
    - intros _. rewrite (bind_err _ _ _ _ _ _ _ _ Hdf). simpl.
      assert (Hp : sat (live_within (w_instances w) (w_initialised w))
                       not_add (fun _ => True)
                       (PluginLoader.dependenciesFulfilled this)).
      { unfold PluginLoader.dependenciesFulfilled.
        apply sat_bind; [apply sat_getDependencies; live_side | intros deps].
        apply sat_ret. }
      destruct (Hp w) as [H1 [H2 _]]; [split; [apply incl_refl | reflexivity] | ].
      rewrite Hdf in H1, H2. simpl in *. now split. }
  destruct Hgoal as [[H1 H2] H3]. split; [exact H1 | split; [exact H2 | ]].
  apply (recorded_none not_add); [ | exact H3]. intros e0 He0. exact He0.
Qed.

Lemma failed_getInstance_records_nothing_witness :
  incl (w_instances (final (PluginLoader.getInstance Sample.this []
                              Scenario.failingInit)))
       (w_instances Scenario.failingInit)
  /\ w_initialised (final (PluginLoader.getInstance Sample.this []
                             Scenario.failingInit))
     = w_initialised Scenario.failingInit
  /\ recorded (out (PluginLoader.getInstance Sample.this []
                      Scenario.failingInit)) = 0.
Proof.
  apply (failed_getInstance_records_nothing
           Sample.this [] Scenario.failingInit (UserError "no element")).
  - vm_compute. reflexivity.
  - vm_compute. reflexivity.
Defined.

(* ================================================================== *)
(** ** From [getInstance] to [destructor] and back *)

Lemma set_add_incl : forall x xs ys,
  incl xs ys -> incl (set_add x xs) (ys ++ [x]).
Proof.
  intros x xs ys H. unfold set_add.
  destruct (existsb (Nat.eqb x) xs).
  - intros y Hy. apply in_or_app. left. now apply H.
  - intros y Hy. apply in_app_or in Hy. apply in_or_app.
    destruct Hy as [Hy | Hy]; [left; now apply H | now right].
Qed.

(** The object that [new] allocates is linked to the prototype object of
    the class. *)
Lemma new_proto : forall c args w l p,
  res (new (VRef c) args w) = Ok l ->
  lookup (w_heap w) c "prototype" = VRef p ->
  exists o, nth_error (w_heap (final (new (VRef c) args w))) l = Some o
            /\ o_proto o = Some p
            /\ w_heap (final (new (VRef c) args w)) = w_heap w ++ [o]
            /\ l = List.length (w_heap w) /\ p < l.
Proof.
  intros c args w l p. unfold new, bind, read, modify, tell, throw. simpl.
  destruct (nth_error (w_heap w) c) as [[pr props ext [fields|]]|];
    simpl; try discriminate.
  intros H Hp. rewrite Hp in H |- *.
  destruct (p <? List.length (w_heap w))%nat eqn:Hlt; simpl in *;
    try discriminate.
  inversion H; subst l. eexists. split.
  { rewrite nth_error_app2 by lia. rewrite Nat.sub_diag. reflexivity. }
  split; [reflexivity | ].
  split; [reflexivity | split; [reflexivity | now apply Nat.ltb_lt]].
Qed.

(** The loader's detach hook takes the instance out of the live set. *)
Lemma destructor_detaches : forall i w,
  lookup (w_heap w) i "detach" = VFun (FDetach i) ->
  res (PluginBase.destructor (VRef i) w) = Ok tt ->
  ~ In i (w_instances (final (PluginBase.destructor (VRef i) w))).
Proof.
  intros i w Hdetach H. unfold PluginBase.destructor in H |- *.
  chain H a1 Hc1.
  destruct (callHook_ok _ _ _ _ _ Hc1) as [i1 [f1 [Hi1 [_ [_ [_ _]]]]]].
  pose proof (callHook_heap (VRef i) "destruct" [] w) as Hh1.
  set (w1 := final (callHook (VRef i) "destruct" [] w)) in *.
  chain H a2 Hc2.
  destruct (callHook_ok _ _ _ _ _ Hc2) as [i2 [f2 [Hi2 [Hdt [_ [Hw2 _]]]]]].
  inversion Hi2; subst i2. rewrite Hh1, Hdetach in Hdt. inversion Hdt; subst f2.
  set (w2 := final (callHook (VRef i) "detach" [] w1)) in *.
  destruct (assign_ok _ _ _ _ H) as [o [o' [_ [Hrun _]]]].
  rewrite Hrun. cbn [final set_heap w_instances].
  rewrite Hw2. simpl. unfold set_delete. intros Hin.
  apply filter_In in Hin. destruct Hin as [_ Hne].
  now rewrite Nat.eqb_refl in Hne.
Qed.

(** X3.  For a plugin class whose prototype supplies the reserved lifecycle
    members (every class built on [PluginBase]), with no mock active: the
    instance that [getInstance] returns is new, is live, and carries the
    loader's detach closure as its own [detach], which no trait can
    displace.  When [destructor()] of this instance returns, the instance is
    no longer live and the live set holds nothing that it did not hold
    before the instance was made. *)
Theorem getInstance_then_destructor_round_trip :
  forall this parameters w c p i,
    links_back (w_heap w) = true ->
    Forall (fun l => l < List.length (w_heap w)) (w_instances w) ->
    l_instance this = VRef c ->
    lookup (w_heap w) c "prototype" = VRef p ->
    (forall k, In k ["constructor"; "construct"; "init"; "getSnowboard";
                     "destruct"; "destructor"; "detach"] ->
               lookup (w_heap w) p k <> VUndefined) ->
    singleton_is this false w ->
    w_mocks w = [] ->
    res (PluginLoader.getInstance this parameters w) = Ok (VRef i) ->
    let w' := final (PluginLoader.getInstance this parameters w) in
    ~ In i (w_instances w)
    /\ In i (w_instances w')
    /\ lookup (w_heap w') i "detach" = VFun (FDetach i)
    /\ (res (PluginBase.destructor (VRef i) w') = Ok tt ->
          ~ In i (w_instances (final (PluginBase.destructor (VRef i) w')))
          /\ incl (w_instances (final (PluginBase.destructor (VRef i) w')))
                  (w_instances w)).
Proof.
  intros this parameters w c p i Hlinks Hlive Hc Hp Hres Hs Hm H. cbv zeta.
  unfold PluginLoader.getInstance in H |- *.
  destruct (bind_inv_ok _ _ _ _ _ _ H) as [fulfilled [Hdf _]].
  apply dependenciesFulfilled_ok_run in Hdf.
  rewrite (bind_pure_ok _ _ _ _ _ _ Hdf) in H.
  rewrite (bind_pure_ok _ _ _ _ _ _ Hdf).
  destruct fulfilled; cbv beta in H |- *; cbn [negb] in H |- *;
    cbv iota in H |- *.
  2:{ destruct (bind_inv_ok _ _ _ _ _ _ H) as [deps [_ [Hthrow _]]].
      discriminate. }
  unfold singleton_is in Hs.
  rewrite (bind_pure_ok _ _ _ _ _ _ Hs) in H.
  rewrite (bind_pure_ok _ _ _ _ _ _ Hs). cbv beta iota in H |- *.
  rewrite Hc in H |- *.
  set (I := live_within (w_instances w) (w_initialised w)).
  assert (Hsat : forall A (m : M A) E,
            sat I E (fun _ => True) m ->
            forall w0, I w0 -> I (final (m w0))).
  { intros A m E Hsm w0 Hw0. now destruct (Hsm w0 Hw0). }
  assert (H0 : I w) by (split; [apply incl_refl | reflexivity]).
  chain H j Hnew.
  destruct (new_proto _ _ _ _ _ Hnew Hp) as [o [Hj [Hop [Hheap1 [Hjl Hplt]]]]].
  destruct (new_ok _ _ _ _ Hnew) as [o0 [Hnewrun _]].
  assert (H1 : I (final (new (VRef c) (VSnowboard :: parameters) w))).
  { rewrite Hnewrun. now apply live_within_heap. }
  assert (Hm1 : w_mocks (final (new (VRef c) (VSnowboard :: parameters) w)) = []).
  { rewrite Hnewrun. exact Hm. }
  set (w1 := final (new (VRef c) (VSnowboard :: parameters) w)) in *.
  rewrite (bind_pure_ok _ _ _ _ _ _ (applyMocks_none (VRef j) w1 Hm1)) in H.
  rewrite (bind_pure_ok _ _ _ _ _ _ (applyMocks_none (VRef j) w1 Hm1)).
  chain H u2 Hdetach. destruct u2.
  destruct (assign_ok _ _ _ _ Hdetach)
    as [o2 [o2' [Ho2 [Hdrun [Hproto [[pd [Hpd [Hpv _]]] _]]]]]].
  rewrite Hdrun in H |- *. cbn [final out res] in H |- *.
  rewrite Hj in Ho2. inversion Ho2; subst o2. clear Ho2.
  set (w2 := set_heap (update (w_heap w1) j o2') w1) in *.
  assert (H2 : I w2) by (now apply live_within_heap).
  chain H a1 Hconstruct.
  pose proof (callHook_heap (VRef j) "construct" parameters w2) as Hh3.
  assert (H3 : I (final (callHook (VRef j) "construct" parameters w2))).
  { apply (Hsat _ _ any_event); [apply sat_callHook; live_side | exact H2]. }
  set (w3 := final (callHook (VRef j) "construct" parameters w2)) in *.
  assert (Hnth3 : nth_error (w_heap w3) j = Some o2').
  { rewrite Hh3. unfold w2. cbn [set_heap w_heap].
    apply nth_error_update_same with (x := o). exact Hj. }
  assert (Hlinks3 : links_back (w_heap w3) = true).
  { rewrite Hh3. unfold w2. cbn [set_heap w_heap].
    apply links_back_update with (o := o); [ | exact Hj | exact Hproto].
    rewrite Hheap1. apply links_back_alloc; [exact Hlinks | ].
    intros q Hq. rewrite Hop in Hq. inversion Hq; subst q. lia. }
  assert (Hlen3 : List.length (w_heap w3) = S (List.length (w_heap w))).
  { rewrite Hh3. unfold w2. cbn [set_heap w_heap].
    rewrite update_length, Hheap1, length_app. simpl. lia. }
  assert (Hlook3 : forall k, lookup (w_heap w3) p k = lookup (w_heap w) p k).
  { intros k. apply lookup_local; try assumption; try lia.
    intros l' Hl'. rewrite Hh3. unfold w2. cbn [set_heap w_heap].
    rewrite nth_error_update_other by lia.
    rewrite Hheap1. apply nth_error_app1. lia. }
  assert (HJ : reserved_intact j (w_heap w3) w3).
  { split; [exact Hlinks3 | split; [ | reflexivity]].
    intros k Hk. unfold inherited. rewrite Hnth3, Hproto, Hop.
    rewrite Hlook3. now apply Hres. }
  chain H u3 Htraits.
  destruct (sat_loadTraits_reserved this j (w_heap w3) w3 HJ)
    as [[_ [_ Hown4]] _].
  assert (H4 : I (final (PluginLoader.loadTraits this (VRef j) w3))).
  { apply (Hsat _ _ is_composition); [apply sat_loadTraits; live_side | exact H3]. }
  set (w4 := final (PluginLoader.loadTraits this (VRef j) w3)) in *.
  chain H a2 Hinit.
  pose proof (callHook_heap (VRef j) "init" [] w4) as Hh5.
  assert (H5 : I (final (callHook (VRef j) "init" [] w4))).
  { apply (Hsat _ _ any_event); [apply sat_callHook; live_side | exact H4]. }
  set (w5 := final (callHook (VRef j) "init" [] w4)) in *.
  assert (Hfresh : ~ In j (w_instances w)).
  { intros Hin. rewrite Forall_forall in Hlive. specialize (Hlive _ Hin). lia. }
  assert (Hdet : lookup (w_heap w5) j "detach" = VFun (FDetach j)).
  { rewrite Hh5. rewrite <- Hpv. apply lookup_own.
    fold w4. rewrite (Hown4 "detach") by (simpl; tauto).
    unfold own. rewrite Hnth3. exact Hpd. }
  clearbody w5 w4 w3 w2 w1. clear Hjl.
  simpl in H. inversion H; subst j. clear H.
  cbn [PluginLoader.addInstance bind modify tell ret final out res app].
  cbn [set_instances w_heap w_instances].
  split; [exact Hfresh | ].
  split; [apply set_add_In | ].
  split; [exact Hdet | ].
  intros Hd.
  set (w6 := {| w_heap := w_heap w5;
                w_instances := set_add i (w_instances w5);
                w_initialised := w_initialised w5;
                w_mocks := w_mocks w5;
                w_originalFunctions := w_originalFunctions w5 |}) in *.
  assert (Hnot : ~ In i (w_instances (final (PluginBase.destructor (VRef i) w6)))).
  { apply destructor_detaches; [exact Hdet | exact Hd]. }
  split; [exact Hnot | ].
  assert (H6 : live_within (w_instances w ++ [i]) (w_initialised w) w6).
  { destruct H5 as [Ha Hb]. split; [ | exact Hb].
    unfold w6. cbn [w_instances]. now apply set_add_incl. }
  assert (Hsd : sat (live_within (w_instances w ++ [i]) (w_initialised w))
                    any_event (fun _ => True)
                    (PluginBase.destructor (VRef i))).
  { unfold PluginBase.destructor.
    apply sat_bind; [apply sat_callHook; live_side | intros _].
    apply sat_bind; [apply sat_callHook; live_side | intros _].
    apply sat_assign; live_side. }
  destruct (Hsd w6 H6) as [[Hincl _] _].
  intros x Hx. specialize (Hincl x Hx). apply in_app_or in Hincl.
  destruct Hincl as [Hin | [<- | []]]; [exact Hin | contradiction].
Qed.

Lemma getInstance_then_destructor_round_trip_witness :
  let w := Sample.greeter false in
  let w' := final (PluginLoader.getInstance Sample.this [] w) in
  ~ In Sample.firstInstance (w_instances w)
  /\ In Sample.firstInstance (w_instances w')
  /\ lookup (w_heap w') Sample.firstInstance "detach"
     = VFun (FDetach Sample.firstInstance)
  /\ (res (PluginBase.destructor (VRef Sample.firstInstance) w') = Ok tt ->
        ~ In Sample.firstInstance
             (w_instances
                (final (PluginBase.destructor (VRef Sample.firstInstance) w')))
        /\ incl (w_instances
                   (final (PluginBase.destructor
                             (VRef Sample.firstInstance) w')))
                (w_instances w)).
Proof.
  apply (getInstance_then_destructor_round_trip
           Sample.this [] (Sample.greeter false)
           Sample.widgetClass Sample.widgetPrototype Sample.firstInstance).
  - vm_compute. reflexivity.
  - vm_compute. constructor.
  - reflexivity.
  - vm_compute. reflexivity.
  - intros k Hk. simpl in Hk.
    repeat (destruct Hk as [<- | Hk]; [vm_compute; discriminate | ]).
    destruct Hk.
  - vm_compute. reflexivity.
  - vm_compute. reflexivity.
  - vm_compute. reflexivity.
Defined.

(* ================================================================== *)
(** ** The singleton flag *)

Ltac side_flag :=
  intros; simpl; unfold flag_set, any_event in *;
  first
    [ exact Logic.I
    | assumption
    | reflexivity
    | solve [auto] ].

Lemma sat_initialiseSingleton_flag : forall this parameters,
  sat flag_set any_event (fun _ => True)
      (PluginLoader.initialiseSingleton this parameters).
Proof.
  intros. unfold PluginLoader.initialiseSingleton, PluginLoader.addInstance.
  sat_ops side_flag.
Qed.

(** X4.  The flag behind [isInitialised] only ever goes up: no call of
    [getInstance], [initialiseSingleton], [mock] or [unmock], however it
    ends, takes it from true to false, and a call of [initialiseSingleton]
    that returns on a singleton leaves it true.  [isInitialised] answers
    true for a plugin that is not a singleton whatever the flag, and the
    flag for a singleton. *)
Theorem singleton_flag_is_never_reset :
  forall this w,
    (w_initialised w = true ->
       (forall parameters,
          w_initialised (final (PluginLoader.getInstance this parameters w))
          = true)
       /\ (forall parameters,
             w_initialised
               (final (PluginLoader.initialiseSingleton this parameters w))
             = true)
       /\ (forall methodName callback,
             w_initialised
               (final (PluginLoader.mock this methodName callback w)) = true)
       /\ (forall methodName,
             w_initialised (final (PluginLoader.unmock this methodName w))
             = true))
    /\ (forall parameters,
          singleton_is this true w ->
          res (PluginLoader.initialiseSingleton this parameters w) = Ok tt ->
          w_initialised
            (final (PluginLoader.initialiseSingleton this parameters w))
          = true)
    /\ (singleton_is this false w ->
          PluginLoader.isInitialised this w = Run (Ok true) w [])
    /\ (singleton_is this true w ->
          PluginLoader.isInitialised this w
          = Run (Ok (w_initialised w)) w []).
Proof.
  intros this w. split; [ | split; [ | split]].
  - intros Hw.
    assert (Hkeep : forall A (m : M A),
              sat flag_set any_event (fun _ => True) m ->
              w_initialised (final (m w)) = true).
    { intros A m Hm. now destruct (Hm w Hw). }
    split; [ | split; [ | split]].
    + intros parameters. apply Hkeep.
      unfold PluginLoader.getInstance.
      apply sat_bind.
      { unfold PluginLoader.dependenciesFulfilled. sat_ops side_flag. }
      intros fulfilled. destruct fulfilled; cbn [negb].
      * apply sat_bind; [apply sat_isSingleton; side_flag | intros single].
        destruct single.
        -- apply sat_bind; [apply sat_read | intros size].
           apply sat_bind.
           { destruct (size =? 0)%nat; [ | apply sat_ret].
             apply sat_initialiseSingleton_flag. }
           intros _. unfold PluginLoader.firstInstance.
           sat_ops side_flag.
        -- unfold PluginLoader.addInstance. sat_ops side_flag.
      * sat_ops side_flag.
    + intros parameters. apply Hkeep. apply sat_initialiseSingleton_flag.
    + intros methodName callback. apply Hkeep. unfold PluginLoader.mock.
      apply sat_bind; [apply sat_get; side_flag | intros prototype].
      apply sat_bind; [apply sat_get; side_flag | intros member].
      destruct (negb (truthy member)); [sat_ops side_flag | ].
      apply sat_bind; [apply sat_modify; side_flag | intros _].
      apply sat_bind; [apply sat_getPrototypeOf; side_flag | intros parent].
      apply sat_bind; [apply sat_get; side_flag | intros original].
      apply sat_bind; [apply sat_modify; side_flag | intros _].
      apply sat_bind; [apply sat_isSingleton; side_flag | intros single].
      apply sat_bind; [apply sat_read | intros size].
      destruct (single && (size =? 0)%nat); [ | apply sat_ret].
      apply sat_bind; [apply sat_initialiseSingleton_flag | intros _].
      unfold PluginLoader.firstInstance. sat_ops side_flag.
    + intros methodName. apply Hkeep. unfold PluginLoader.unmock.
      apply sat_bind; [apply sat_read | intros has].
      destruct (negb has); [apply sat_ret | ].
      apply sat_bind; [apply sat_isSingleton; side_flag | intros single].
      apply sat_bind.
      { destruct single; [ | apply sat_ret].
        unfold PluginLoader.firstInstance. sat_ops side_flag. }
      intros _. sat_ops side_flag.
  - intros parameters Hs H.
    unfold PluginLoader.initialiseSingleton in H |- *.
    unfold singleton_is in Hs.
    rewrite (bind_pure_ok _ _ _ _ _ _ Hs) in H |- *.
    cbv beta in H |- *. cbn [negb] in H |- *. cbv iota in H |- *.
    chain H i Hnew. chain H u1 Hdetach. chain H a1 Hconstruct.
    chain H u2 Htraits. chain H a2 Hinit. chain H u3 Hadd.
    reflexivity.
  - intros Hs. unfold PluginLoader.isInitialised. unfold singleton_is in Hs.
    rewrite (bind_pure_ok _ _ _ _ _ _ Hs). reflexivity.
  - intros Hs. unfold PluginLoader.isInitialised. unfold singleton_is in Hs.
    rewrite (bind_pure_ok _ _ _ _ _ _ Hs). reflexivity.
Qed.

Lemma singleton_flag_is_never_reset_witness :
  w_initialised
    (final (PluginLoader.unmock Sample.this "greet"
              (Sample.created Sample.single))) = true
  /\ PluginLoader.isInitialised Sample.this (Sample.greeter false)
     = Run (Ok true) (Sample.greeter false) [].
Proof.
  destruct (singleton_flag_is_never_reset
              Sample.this (Sample.created Sample.single))
    as [Hkeep _].
  destruct (Hkeep eq_refl) as [_ [_ [_ Hunmock]]].
  destruct (singleton_flag_is_never_reset Sample.this (Sample.greeter false))
    as [_ [_ [Hplain _]]].
  split; [apply Hunmock | apply Hplain; vm_compute; reflexivity].
Defined.

(** X5.  [initialiseSingleton] does not look at the live set.  Every call
    that returns on a singleton has built and recorded one more instance,
    entered its [construct] and [init] once, and set the flag, also when an
    instance was live already. *)
Theorem initialiseSingleton_always_builds :
  forall this parameters w,
    singleton_is this true w ->
    Forall (fun l => l < List.length (w_heap w)) (w_instances w) ->
    res (PluginLoader.initialiseSingleton this parameters w) = Ok tt ->
    let i := List.length (w_heap w) in
    let r := PluginLoader.initialiseSingleton this parameters w in
    ~ In i (w_instances w)
    /\ In i (w_instances (final r))
    /\ incl (w_instances (final r)) (w_instances w ++ [i])
    /\ w_initialised (final r) = true
    /\ entered "construct" (out r) = 1
    /\ entered "init" (out r) = 1
    /\ recorded (out r) = 1.
Proof.
  intros this parameters w Hs Hlive H. cbv zeta.
  split.
  { intros Hin. rewrite Forall_forall in Hlive. specialize (Hlive _ Hin). lia. }
  unfold PluginLoader.initialiseSingleton in H |- *.
  unfold singleton_is in Hs.
  rewrite (bind_pure_ok _ _ _ _ _ _ Hs) in H |- *.
  cbv beta in H |- *. cbn [negb] in H |- *. cbv iota in H |- *.
  set (I := live_within (w_instances w) (w_initialised w)).
  assert (Hsat : forall A (m : M A) E,
            sat I E (fun _ => True) m ->
            forall w0, I w0 -> I (final (m w0)) /\ Forall E (out (m w0))).
  { intros A m E Hm w0 Hw0. destruct (Hm w0 Hw0) as [Ha [Hb _]]. now split. }
  assert (H0 : I w) by (split; [apply incl_refl | reflexivity]).
  chain H i Hnew.
  destruct (new_ok _ _ _ _ Hnew) as [o [Hnewrun [Hi _]]].
  rewrite Hnewrun in H |- *. cbn [final out res] in H |- *.
  set (w1 := set_heap (w_heap w ++ [o]) w) in *.
  assert (H1 : I w1) by (now apply live_within_heap).
  chain H u2 Hdetach. destruct u2.
  destruct (assign_ok _ _ _ _ Hdetach) as [o2 [o2' [_ [Hdrun _]]]].
  rewrite Hdrun in H |- *. cbn [final out res] in H |- *.
  set (w2 := set_heap (update (w_heap w1) i o2') w1) in *.
  assert (H2 : I w2) by (now apply live_within_heap).
  chain H a1 Hconstruct.
  destruct (callHook_ok _ _ _ _ _ Hconstruct) as [i1 [f1 [_ [_ [_ [_ Hco]]]]]].
  rewrite Hco.
  destruct (Hsat _ (callHook (VRef i) "construct" parameters) any_event)
    with (w0 := w2) as [H3 _]; [apply sat_callHook; live_side | exact H2 | ].
  set (w3 := final (callHook (VRef i) "construct" parameters w2)) in *.
  chain H u3 Htraits.
  destruct (Hsat _ (PluginLoader.loadTraits this (VRef i)) is_composition)
    with (w0 := w3) as [H4 Hcomp]; [apply sat_loadTraits; live_side | exact H3 | ].
  set (w4 := final (PluginLoader.loadTraits this (VRef i) w3)) in *.
  chain H a2 Hinit.
  destruct (callHook_ok _ _ _ _ _ Hinit) as [i2 [f2 [_ [_ [_ [_ Hio]]]]]].
  rewrite Hio.
  destruct (Hsat _ (callHook (VRef i) "init" []) any_event)
    with (w0 := w4) as [H5 _]; [apply sat_callHook; live_side | exact H4 | ].
  set (w5 := final (callHook (VRef i) "init" [] w4)) in *.
  subst i. cbn [PluginLoader.addInstance bind modify tell final out res app].
  destruct H5 as [H5 _].
  split; [apply set_add_In | ].
  split; [now apply set_add_incl | ].
  split; [reflexivity | ].
  assert (Hc0 : forall member,
            entered member (out (PluginLoader.loadTraits this
                                   (VRef (List.length (w_heap w))) w3)) = 0).
  { intros member. apply (entered_none member is_composition); [ | exact Hcomp].
    apply composition_no_hook. }
  assert (Hcr : recorded (out (PluginLoader.loadTraits this
                                 (VRef (List.length (w_heap w))) w3)) = 0).
  { apply (recorded_none is_composition); [ | exact Hcomp].
    apply composition_no_add. }
  split; [ | split].
  - rewrite !entered_cons, !entered_app, !entered_cons, Hc0. reflexivity.
  - rewrite !entered_cons, !entered_app, !entered_cons, Hc0. reflexivity.
  - rewrite !recorded_cons, !recorded_app, !recorded_cons, Hcr. reflexivity.
Qed.

Lemma initialiseSingleton_always_builds_witness :
  let w := Sample.created Sample.single in
  let r := PluginLoader.initialiseSingleton Sample.this [] w in
  w_instances w = [Sample.firstInstance]
  /\ ~ In (List.length (w_heap w)) (w_instances w)
  /\ In (List.length (w_heap w)) (w_instances (final r))
  /\ incl (w_instances (final r))
          (w_instances w ++ [List.length (w_heap w)])
  /\ w_initialised (final r) = true
  /\ entered "construct" (out r) = 1
  /\ entered "init" (out r) = 1
  /\ recorded (out r) = 1.
Proof.
  split; [vm_compute; reflexivity | ].
  apply (initialiseSingleton_always_builds
           Sample.this [] (Sample.created Sample.single)).
  - vm_compute. reflexivity.
  - vm_compute. repeat constructor.
  - vm_compute. reflexivity.
Defined.

(* ================================================================== *)
(** ** Mocking outside the singleton round trip *)

Lemma assoc_del_set_new : forall A k (a : A) xs,
  assoc_get k xs = None -> assoc_del k (assoc_set k a xs) = xs.
Proof.
  intros A k a xs. induction xs as [|[k' a'] r IH]; simpl; intros H.
  - now rewrite String.eqb_refl.
  - destruct (String.eqb k k') eqn:E; [discriminate | ].
    simpl. rewrite E. now rewrite IH.
Qed.

Lemma call_func_with_tables : forall f ms os w,
  call_func f (with_tables ms os w)
  = Run (res (call_func f w)) (with_tables ms os (final (call_func f w)))
        (out (call_func f w)).
Proof.
  induction f as [id [a|msg] | inst | cb IH bound | name]; intros ms os w;
    simpl; try reflexivity.
  apply IH.
Qed.

Lemma get_with_tables : forall v k ms os w x,
  get v k w = Run (Ok x) w [] ->
  get v k (with_tables ms os w) = Run (Ok x) (with_tables ms os w) [].
Proof.
  intros v k ms os w x. destruct v; simpl; try discriminate.
  unfold read. simpl. intros H. inversion H. reflexivity.
Qed.

Lemma singleton_is_with_tables : forall this b ms os w,
  singleton_is this b w -> singleton_is this b (with_tables ms os w).
Proof.
  intros this b ms os w H. unfold singleton_is in *.
  assert (Hres : res (PluginLoader.isSingleton this w) = Ok b)
    by now rewrite H.
  unfold PluginLoader.isSingleton in *.
  destruct (bind_inv_ok _ _ _ _ _ _ Hres) as [p [Hp _]].
  apply get_ok_run in Hp. rewrite (bind_pure_ok _ _ _ _ _ _ Hp) in H, Hres.
  rewrite (bind_pure_ok _ _ _ _ _ _ (get_with_tables _ _ ms os _ _ Hp)).
  destruct (bind_inv_ok _ _ _ _ _ _ Hres) as [member [Hmem _]].
  apply get_ok_run in Hmem. rewrite (bind_pure_ok _ _ _ _ _ _ Hmem) in H.
  rewrite (bind_pure_ok _ _ _ _ _ _ (get_with_tables _ _ ms os _ _ Hmem)).
  clear Hres. unfold bind in *.
  destruct member; simpl in *; try discriminate.
  rewrite call_func_with_tables.
  destruct (call_func f w) as [[a|e] w1 o1]; simpl in *; [ | discriminate].
  inversion H. subst. rewrite app_nil_r in *. subst. reflexivity.
Qed.

(** X6.  On a plugin that is not a singleton, [mock] of a method that was
    not mocked yet touches nothing but the two mock tables, and [unmock] of
    the same method takes the loader back to the very state it was in. *)
Theorem mock_then_unmock_restores_a_plain_loader :
  forall this methodName callback w,
    singleton_is this false w ->
    assoc_get methodName (w_mocks w) = None ->
    assoc_get methodName (w_originalFunctions w) = None ->
    res (PluginLoader.mock this methodName callback w) = Ok tt ->
    let mocked := PluginLoader.mock this methodName callback w in
    assoc_get methodName (w_mocks (final mocked)) = Some callback
    /\ w_heap (final mocked) = w_heap w
    /\ out mocked = []
    /\ PluginLoader.unmock this methodName (final mocked) = Run (Ok tt) w [].
Proof.
  intros this methodName callback w Hs Hm Ho H. cbv zeta.
  unfold PluginLoader.mock in H |- *.
  chain H prototype Hp. apply get_ok_run in Hp. rewrite Hp in H |- *.
  cbn [res final out app] in H |- *.
  chain H member Hmem. apply get_ok_run in Hmem. rewrite Hmem in H |- *.
  cbn [res final out app] in H |- *.
  destruct (negb (truthy member)); [discriminate | ].
  chain H u1 Hset. cbn [modify res final out app] in H |- *. clear Hset.
  set (w1 := set_mocks (assoc_set methodName callback (w_mocks w)) w) in *.
  chain H parent Hpar.
  pose proof (pure_ok_run _ _ _ _ (pure_getPrototypeOf _) Hpar) as Hpar'.
  rewrite Hpar' in H |- *. cbn [res final out app] in H |- *.
  chain H original Horig. apply get_ok_run in Horig. rewrite Horig in H |- *.
  cbn [res final out app] in H |- *.
  chain H u2 Hset. cbn [modify res final out app] in H |- *. clear Hset.
  set (w2 := set_originalFunctions
               (assoc_set methodName original (w_originalFunctions w1)) w1) in *.
  assert (Hs2 : singleton_is this false w2).
  { exact (singleton_is_with_tables this false _ _ w Hs). }
  unfold singleton_is in Hs2.
  rewrite (bind_pure_ok _ _ _ _ _ _ Hs2) in H |- *.
  cbn [andb read bind ret res final out app] in H |- *.
  split; [apply assoc_get_set_same | ].
  split; [reflexivity | ]. split; [reflexivity | ].
  unfold PluginLoader.unmock.
  assert (Hhas : read (fun w0 => assoc_has methodName (w_mocks w0)) w2
                 = Run (Ok true) w2 []).
  { unfold read, assoc_has. cbn [w_mocks w2 w1 set_originalFunctions set_mocks].
    now rewrite assoc_get_set_same. }
  rewrite (bind_pure_ok _ _ _ _ _ _ Hhas). cbn [negb].
  rewrite (bind_pure_ok _ _ _ _ _ _ Hs2).
  cbn [bind ret modify res final out app].
  unfold w2, w1, set_originalFunctions, set_mocks. cbn.
  rewrite (assoc_del_set_new _ _ _ _ Hm), (assoc_del_set_new _ _ _ _ Ho).
  now destruct w.
Qed.

Lemma mock_then_unmock_restores_a_plain_loader_witness :
  let mocked := PluginLoader.mock Sample.this "greet" Sample.fake
                                  (Sample.greeter false) in
  assoc_get "greet" (w_mocks (final mocked)) = Some Sample.fake
  /\ w_heap (final mocked) = w_heap (Sample.greeter false)
  /\ out mocked = []
  /\ PluginLoader.unmock Sample.this "greet" (final mocked)
     = Run (Ok tt) (Sample.greeter false) [].
Proof.
  apply (mock_then_unmock_restores_a_plain_loader
           Sample.this "greet" Sample.fake (Sample.greeter false)).
  - vm_compute. reflexivity.
  - reflexivity.
  - reflexivity.
  - vm_compute. reflexivity.
Defined.

(** X7.  [unmock] of an active mock on a singleton that has no live
    instance (it was destructed) is a [TypeError], and the mock stays
    registered: nothing has changed. *)
Theorem unmock_without_live_singleton_throws :
  forall this methodName w,
    singleton_is this true w ->
    assoc_has methodName (w_mocks w) = true ->
    w_instances w = [] ->
    exists what,
      PluginLoader.unmock this methodName w = Run (Err (TypeError what)) w [].
Proof.
  intros this methodName w Hs Hhas Hempty.
  unfold PluginLoader.unmock.
  assert (Hr : read (fun w0 => assoc_has methodName (w_mocks w0)) w
               = Run (Ok true) w []).
  { unfold read. now rewrite Hhas. }
  rewrite (bind_pure_ok _ _ _ _ _ _ Hr). cbn [negb].
  unfold singleton_is in Hs. rewrite (bind_pure_ok _ _ _ _ _ _ Hs).
  unfold PluginLoader.firstInstance, bind, read. rewrite Hempty.
  cbn. eexists. reflexivity.
Qed.

Lemma unmock_without_live_singleton_throws_witness :
  exists what,
    PluginLoader.unmock Sample.this "greet" Scenario.detached
    = Run (Err (TypeError what)) Scenario.detached [].
Proof.
  apply (unmock_without_live_singleton_throws
           Sample.this "greet" Scenario.detached).
  - vm_compute. reflexivity.
  - vm_compute. reflexivity.
  - vm_compute. reflexivity.
Defined.

(* ================================================================== *)
(** ** Static calls *)

(** X8.  A method that [hasMethod] denies cannot be called through
    [callMethod]: the call is a [TypeError] and changes nothing. *)
Theorem callMethod_needs_hasMethod :
  forall this method w,
    res (PluginLoader.hasMethod this method w) = Ok false ->
    exists what,
      PluginLoader.callMethod this method w = Run (Err (TypeError what)) w [].
Proof.
  intros this method w H. unfold PluginLoader.hasMethod in H.
  unfold PluginLoader.callMethod.
  destruct (bind_inv_ok _ _ _ _ _ _ H) as [p [Hp _]].
  apply get_ok_run in Hp. rewrite (bind_pure_ok _ _ _ _ _ _ Hp) in H.
  rewrite (bind_pure_ok _ _ _ _ _ _ Hp).
  destruct (bind_inv_ok _ _ _ _ _ _ H) as [member [Hm _]].
  apply get_ok_run in Hm. rewrite (bind_pure_ok _ _ _ _ _ _ Hm) in H.
  rewrite (bind_pure_ok _ _ _ _ _ _ Hm).
  unfold read in H. simpl in H.
  destruct member; simpl in *; try discriminate; eexists; reflexivity.
Qed.

Lemma callMethod_needs_hasMethod_witness :
  exists what,
    PluginLoader.callMethod Sample.this "label" Sample.oddMembers
    = Run (Err (TypeError what)) Sample.oddMembers [].
Proof.
  apply (callMethod_needs_hasMethod Sample.this "label" Sample.oddMembers).
  vm_compute. reflexivity.
Defined.

(* ================================================================== *)
(** ** The collected traits are a set in order of discovery *)

Lemma strings_add_prefix : forall x xs, exists ys, strings_add x xs = xs ++ ys.
Proof.
  intros x xs. unfold strings_add. destruct (Str.includes xs x).
  - exists []. now rewrite app_nil_r.
  - now exists [x].
Qed.

Lemma strings_add_NoDup : forall x xs, NoDup xs -> NoDup (strings_add x xs).
Proof.
  intros x xs H. unfold strings_add.
  destruct (Str.includes xs x) eqn:E; [exact H | ].
  apply NoDup_app; [exact H | constructor; [intros [] | constructor] | ].
  intros y Hy [<- | []]. apply includes_In in Hy. congruence.
Qed.

Lemma strings_add_In : forall x y xs,
  In y (strings_add x xs) <-> y = x \/ In y xs.
Proof.
  intros x y xs. unfold strings_add.
  destruct (Str.includes xs x) eqn:E.
  - apply includes_In in E. split; [tauto | ]. intros [-> | H]; assumption.
  - rewrite in_app_iff. simpl. split; intros H; intuition (subst; auto).
Qed.

Lemma fold_strings_add : forall news xs,
  NoDup xs ->
  let r := fold_left (fun acc trait => strings_add trait acc) news xs in
  NoDup r
  /\ (exists ys, r = xs ++ ys)
  /\ (forall y, In y r <-> In y xs \/ In y news).
Proof.
  induction news as [|n news IH]; intros xs H; cbv zeta; simpl.
  - split; [exact H | split; [exists []; now rewrite app_nil_r | ]].
    intros y. tauto.
  - destruct (IH (strings_add n xs) (strings_add_NoDup _ _ H)) as [H1 [[ys H2] H3]].
    split; [exact H1 | split].
    + destruct (strings_add_prefix n xs) as [zs Hz].
      exists (zs ++ ys). rewrite H2, Hz. now rewrite app_assoc.
    + intros y. rewrite H3, strings_add_In. intuition.
Qed.

(** X9.  The walk of [loadTraits] collects trait names as a set kept in
    insertion order: when it returns, no name occurs twice, the names found
    at a lower level of the hierarchy come before those found further up,
    and the walk has changed nothing. *)
Theorem collectTraits_is_an_ordered_set :
  forall fuel currentPrototype traits w collected,
    NoDup traits ->
    res (PluginLoader.collectTraits fuel currentPrototype traits w)
    = Ok collected ->
    NoDup collected
    /\ (exists later, collected = traits ++ later)
    /\ PluginLoader.collectTraits fuel currentPrototype traits w
       = Run (Ok collected) w [].
Proof.
  induction fuel as [|fuel IH]; intros c traits w collected Hnd H;
    simpl in H |- *; [discriminate | ].
  assert (Hb : pure (PluginLoader.builtByObject c)).
  { unfold PluginLoader.builtByObject.
    apply pure_bind; [apply pure_get | intros ctor].
    apply pure_bind; [apply pure_get | intros name]. apply pure_ret. }
  destruct (bind_inv_ok _ _ _ _ _ _ H) as [root [Hroot _]].
  apply (pure_ok_run _ _ _ _ Hb) in Hroot.
  rewrite (bind_pure_ok _ _ _ _ _ _ Hroot) in H |- *.
  destruct root.
  - simpl in H. inversion H; subst collected.
    split; [exact Hnd | split; [exists []; now rewrite app_nil_r | reflexivity]].
  - destruct (bind_inv_ok _ _ _ _ _ _ H) as [traits' [Hdecl _]].
    assert (Hd : PluginLoader.declaredTraits c traits w
                 = Run (Ok traits') w []
                 /\ NoDup traits' /\ exists ys, traits' = traits ++ ys).
    { unfold PluginLoader.declaredTraits in Hdecl |- *.
      destruct (bind_inv_ok _ _ _ _ _ _ Hdecl) as [member [Hm _]].
      apply get_ok_run in Hm.
      rewrite (bind_pure_ok _ _ _ _ _ _ Hm) in Hdecl |- *.
      rewrite (bind_pure_ok _ _ _ _ _ _
                 (eq_refl : read (fun w0 => is_function (w_heap w0) member) w
                            = Run (Ok (is_function (w_heap w) member)) w []))
        in Hdecl |- *.
      destruct (truthy member && is_function (w_heap w) member).
      - destruct (bind_inv_ok _ _ _ _ _ _ Hdecl) as [a [Ha Hrest]].
        destruct a as [ | b | currentTraits];
          try (destruct Hrest as [Hrest _]; discriminate).
        apply call_strings in Ha.
        rewrite (bind_pure_ok _ _ _ _ _ _ Ha) in Hdecl |- *.
        simpl in Hdecl. inversion Hdecl; subst traits'.
        destruct (fold_strings_add currentTraits traits Hnd) as [H1 [H2 _]].
        split; [reflexivity | split; assumption].
      - simpl in Hdecl. inversion Hdecl; subst traits'.
        split; [reflexivity | split; [exact Hnd | ]].
        exists []. now rewrite app_nil_r. }
    destruct Hd as [Hd [Hnd' [ys Hys]]].
    rewrite (bind_pure_ok _ _ _ _ _ _ Hd) in H |- *.
    destruct (bind_inv_ok _ _ _ _ _ _ H) as [next [Hnext _]].
    apply get_ok_run in Hnext.
    rewrite (bind_pure_ok _ _ _ _ _ _ Hnext) in H |- *.
    destruct (IH next traits' w collected Hnd' H) as [H1 [[later H2] H3]].
    split; [exact H1 | split; [ | exact H3]].
    exists (ys ++ later). rewrite H2, Hys. now rewrite app_assoc.
Qed.

Lemma collectTraits_is_an_ordered_set_witness :
  let w := Sample.built Scenario.repeatedTraits in
  NoDup ["Alpha"; "Beta"]
  /\ (exists later, ["Alpha"; "Beta"] = [] ++ later)
  /\ PluginLoader.collectTraits (S (List.length (w_heap w)))
                                (VRef Sample.firstInstance) [] w
     = Run (Ok ["Alpha"; "Beta"]) w [].
Proof.
  apply (collectTraits_is_an_ordered_set
           (S (List.length (w_heap (Sample.built Scenario.repeatedTraits))))
           (VRef Sample.firstInstance) []
           (Sample.built Scenario.repeatedTraits) ["Alpha"; "Beta"]).
  - constructor.
  - vm_compute. reflexivity.
Defined.

(* ================================================================== *)
(** ** The frozen plugin class *)

Lemma assoc_get_freeze : forall k o,
  assoc_get k (o_props (freeze o))
  = option_map (fun p => Prop_ (p_value p) false (p_enumerable p) false)
               (assoc_get k (o_props o)).
Proof.
  intros k [pr props ext fields]. simpl.
  induction props as [|[k' p] r IH]; simpl; [reflexivity | ].
  destruct (String.eqb k k'); [reflexivity | exact IH].
Qed.

Lemma find_from_freeze : forall fuel h c o l k,
  nth_error h c = Some o ->
  option_map p_value (find_from fuel (update h c (freeze o)) l k)
  = option_map p_value (find_from fuel h l k).
Proof.
  induction fuel as [|n IH]; intros h c o l k Hc; simpl; [reflexivity | ].
  destruct (Nat.eq_dec l c) as [-> | Hne].
  - rewrite (nth_error_update_same _ _ _ _ Hc), Hc, assoc_get_freeze.
    destruct (assoc_get k (o_props o)) as [p|]; simpl; [reflexivity | ].
    destruct o as [pr props ext fields]; simpl.
    destruct pr as [p|]; [ | reflexivity]. now apply IH.
  - rewrite (nth_error_update_other _ _ _ _ Hne).
    destruct (nth_error h l) as [x|]; [ | reflexivity].
    destruct (assoc_get k (o_props x)); [reflexivity | ].
    destruct (o_proto x); [ | reflexivity]. now apply IH.
Qed.

Lemma lookup_freeze : forall h c o l k,
  nth_error h c = Some o ->
  lookup (update h c (freeze o)) l k = lookup h l k.
Proof.
  intros h c o l k Hc. unfold lookup, find. rewrite update_length.
  pose proof (find_from_freeze (S (List.length h)) h c o l k Hc) as H.
  destruct (find_from (S (List.length h)) (update h c (freeze o)) l k);
    destruct (find_from (S (List.length h)) h l k); simpl in H;
    congruence.
Qed.

(** X10.  Of the objects of the plugin's program, the constructor of the
    loader freezes the plugin class and no other.  Every member of every
    object reads as before; an assignment to a member of the class is a
    [TypeError]; a definition on the class changes nothing; every other
    object, the prototype object of the class included, is left as it
    was. *)
Theorem constructor_freezes_the_plugin_class :
  forall name snowboard c h o,
    nth_error h c = Some o ->
    let w := snd (PluginLoader.constructor name snowboard (VRef c) h) in
    (forall l k, lookup (w_heap w) l k = lookup h l k)
    /\ (forall k v, exists what,
          assign (VRef c) k v w = Run (Err (TypeError what)) w [])
    /\ (forall k d,
          w_heap (final (defineProperty c k d w)) = w_heap w
          /\ out (defineProperty c k d w) = [])
    /\ (forall l, l <> c -> nth_error (w_heap w) l = nth_error h l).
Proof.
  intros name snowboard c h o Hc. cbv zeta.
  unfold PluginLoader.constructor. rewrite Hc. cbn [snd w_heap].
  pose proof (nth_error_update_same _ _ (freeze o) _ Hc) as Hf.
  split; [ | split; [ | split]].
  - intros l k. now apply lookup_freeze.
  - intros k v. unfold assign, bind, read. cbn [res final out w_heap].
    rewrite Hf. rewrite assoc_get_freeze.
    destruct (assoc_get k (o_props o)) as [p|]; cbn.
    + eexists. reflexivity.
    + match goal with
      | |- context [match ?x with Some _ => _ | None => _ end] => destruct x
      end.
      * destruct (negb (p_writable p)); eexists; reflexivity.
      * eexists. reflexivity.
  - intros k d. unfold defineProperty, bind, read. cbn [res final out w_heap].
    rewrite Hf. rewrite assoc_get_freeze.
    destruct (assoc_get k (o_props o)) as [p|]; cbn.
    + destruct (p_configurable d || negb (Bool.eqb (p_enumerable d) (p_enumerable p)));
        cbn; [now split | ].
      destruct (p_writable d || negb (same_value (p_value d) (p_value p)));
        cbn; now split.
    + now split.
  - intros l Hl. now apply nth_error_update_other.
Qed.

Lemma constructor_freezes_the_plugin_class_witness :
  let h := Sample.program false [] [] [] in
  let w := snd (PluginLoader.constructor "widget" Sample.registry_
                                         (VRef Sample.widgetClass) h) in
  (forall l k, lookup (w_heap w) l k = lookup h l k)
  /\ (forall k v, exists what,
        assign (VRef Sample.widgetClass) k v w
        = Run (Err (TypeError what)) w [])
  /\ (forall k d,
        w_heap (final (defineProperty Sample.widgetClass k d w)) = w_heap w
        /\ out (defineProperty Sample.widgetClass k d w) = [])
  /\ (forall l, l <> Sample.widgetClass ->
        nth_error (w_heap w) l = nth_error h l).
Proof.
  eapply (constructor_freezes_the_plugin_class
            "widget" Sample.registry_ Sample.widgetClass
            (Sample.program false [] [] [])).
  vm_compute. reflexivity.
Defined.

(* ================================================================== *)
(** ** The internal mediator: [has] beside [get] *)

(** X11.  [has] and [get] of the internal mediator agree.  A name that
    [has] reports can be read; a name whose read is refused is reported
    absent; a name that resolves to a plugin is reported, and the registry
    knows the plugin; and for any other name both hand on to the
    registry. *)
Theorem inner_has_agrees_with_get :
  forall target prop reflect_has,
    (InnerProxyHandler.has target prop reflect_has = true ->
       exists r, InnerProxyHandler.get target prop = Ok r)
    /\ (forall e, InnerProxyHandler.get target prop = Err e ->
          InnerProxyHandler.has target prop reflect_has = false)
    /\ (forall propLower,
          InnerProxyHandler.get target prop
          = Ok (InnerProxyHandler.PluginCallable propLower) ->
          InnerProxyHandler.has target prop reflect_has = true
          /\ hasPlugin target propLower = true)
    /\ (forall member,
          InnerProxyHandler.get target prop
          = Ok (InnerProxyHandler.RegistryMember member) ->
          member = prop
          /\ InnerProxyHandler.has target prop reflect_has
             = reflect_has prop).
Proof.
  intros target prop reflect_has.
  unfold InnerProxyHandler.has, InnerProxyHandler.get.
  destruct prop as [s | id].
  - destruct (Str.includes InnerProxyHandler.forbidden s) eqn:Hf.
    + repeat split; intros; try discriminate.
    + destruct (hasPlugin target (Str.toLowerCase s)) eqn:Hp.
      * split; [intros _; eexists; reflexivity | ].
        split; [intros e He; discriminate | ].
        split.
        -- intros propLower H. inversion H; subst propLower. now split.
        -- intros member H. discriminate.
      * split; [intros _; eexists; reflexivity | ].
        split; [intros e He; discriminate | ].
        split.
        -- intros propLower H. discriminate.
        -- intros member H. inversion H. now split.
  - split; [intros _; eexists; reflexivity | ].
    split; [intros e He; discriminate | ].
    split.
    + intros propLower H. discriminate.
    + intros member H. inversion H. now split.
Qed.

Lemma forbidden_by_lower_case : forall f s,
  In f InnerProxyHandler.forbidden ->
  In s InnerProxyHandler.forbidden ->
  Str.toLowerCase s = Str.toLowerCase f -> s = f.
Proof.
  intros f s Hf Hs. simpl in Hf, Hs.
  repeat (destruct Hf as [<- | Hf]);
    repeat (destruct Hs as [<- | Hs]);
    try contradiction; intros H; try reflexivity;
    vm_compute in H; discriminate.
Qed.

(** X12.  The refusal of [get] compares the name as written, the plugin
    lookup compares it lower-cased.  A name that differs from a refused one
    by case only is not refused: it resolves to the plugin registered under
    the common lower-case name when there is one, and is handed on to the
    registry otherwise. *)
Theorem inner_get_refusal_is_case_sensitive :
  forall target f s,
    In f InnerProxyHandler.forbidden ->
    Str.toLowerCase s = Str.toLowerCase f ->
    s <> f ->
    InnerProxyHandler.get target (InnerProxyHandler.PString f)
    = Err (ForbiddenOperation (InnerProxyHandler.forbidden_message f))
    /\ InnerProxyHandler.get target (InnerProxyHandler.PString s)
       = (if hasPlugin target (Str.toLowerCase f)
          then Ok (InnerProxyHandler.PluginCallable (Str.toLowerCase f))
          else Ok (InnerProxyHandler.RegistryMember
                     (InnerProxyHandler.PString s))).
Proof.
  intros target f s Hf Hlow Hne. unfold InnerProxyHandler.get.
  assert (Hin : Str.includes InnerProxyHandler.forbidden f = true)
    by now apply includes_In.
  assert (Hout : Str.includes InnerProxyHandler.forbidden s = false).
  { apply not_true_is_false. intros Hs. apply includes_In in Hs.
    apply Hne. now apply (forbidden_by_lower_case f s). }
  rewrite Hin, Hout, Hlow. split; reflexivity.
Qed.

Lemma inner_get_refusal_is_case_sensitive_witness :
  InnerProxyHandler.get Scenario.shadowing
                        (InnerProxyHandler.PString "initialise")
  = Err (ForbiddenOperation (InnerProxyHandler.forbidden_message "initialise"))
  /\ InnerProxyHandler.get Scenario.shadowing
                           (InnerProxyHandler.PString "Initialise")
     = Ok (InnerProxyHandler.PluginCallable "initialise").
Proof.
  destruct (inner_get_refusal_is_case_sensitive
              Scenario.shadowing "initialise" "Initialise")
    as [H1 H2].
  - simpl. tauto.
  - reflexivity.
  - discriminate.
  - split; [exact H1 | exact H2].
Defined.

(* ================================================================== *)
(** ** The outer mediator *)

(** X13.  The handler of the outer proxy.  A name that [has] does not
    report resolves to a member of the registry which the registry does not
    have; [deleteProperty] succeeds only on names that [has] reports; for a
    name that is both an abstract and a plugin, a read gives the abstract
    while a delete removes the plugin; and a delete of anything that is not
    a plugin is refused and removes nothing. *)
Theorem outer_handler_has_get_delete :
  forall hasAbstract hasPlugin prop reflect_has,
    (ProxyHandler.has hasAbstract hasPlugin prop reflect_has = false ->
       ProxyHandler.get hasAbstract hasPlugin prop
       = ProxyHandler.RegistryMember prop
       /\ reflect_has prop = false)
    /\ (fst (ProxyHandler.deleteProperty hasPlugin prop) = true ->
          ProxyHandler.has hasAbstract hasPlugin prop reflect_has = true)
    /\ (forall s,
          prop = InnerProxyHandler.PString s ->
          hasAbstract s = true -> hasPlugin s = true ->
          ProxyHandler.get hasAbstract hasPlugin prop
          = ProxyHandler.AbstractClass s
          /\ ProxyHandler.deleteProperty hasPlugin prop = (true, Some s))
    /\ (forall s,
          prop = InnerProxyHandler.PString s ->
          hasPlugin s = false ->
          ProxyHandler.deleteProperty hasPlugin prop = (false, None)).
Proof.
  intros hasAbstract hasPlugin prop reflect_has.
  unfold ProxyHandler.has, ProxyHandler.get, ProxyHandler.deleteProperty.
  destruct prop as [s | id].
  - assert (Hinv : forall s', InnerProxyHandler.PString s
                              = InnerProxyHandler.PString s' -> s' = s)
      by (intros s' Hs'; now inversion Hs').
    destruct (hasAbstract s) eqn:Ha, (hasPlugin s) eqn:Hp; cbn [fst];
      (split; [first [discriminate | intros H; now split] | ]);
      (split; [first [discriminate | reflexivity] | ]);
      split; intros s' Hs'; apply Hinv in Hs'; subst s'; intros;
      first [congruence | now split | reflexivity].
  - cbn [fst]. split; [intros H; now split | ]. split; [discriminate | ].
    split; intros s Hs; discriminate.
Qed.

(* ================================================================== *)
(** ** [FiresEvents] *)

Section FiresEventsFacts.

Import FiresEvents.

Lemma listening_none : forall eventName this,
  (forall r, In r (eventListeners this) -> event r <> eventName) ->
  listening eventName this = [].
Proof.
  intros eventName this H. unfold listening.
  induction (eventListeners this) as [|r rest IH]; simpl; [reflexivity | ].
  destruct (String.eqb (event r) eventName) eqn:E.
  - apply String.eqb_eq in E. exfalso. exact (H r (or_introl eq_refl) E).
  - apply IH. intros r' Hr'. apply H. now right.
Qed.

(** X14.  An event without a local listener is not fired at all:
    [triggerEvent] and [triggerPromiseEvent] return at once, and no global
    event is sent, also when global events are enabled. *)
Theorem trigger_without_listener_is_silent :
  forall eventName parameters this,
    (forall r, In r (eventListeners this) -> event r <> eventName) ->
    triggerEvent eventName parameters this = Reply (Normal tt) this []
    /\ triggerPromiseEvent eventName parameters this
       = Reply (Normal tt) this [].
Proof.
  intros eventName parameters this H.
  unfold triggerEvent, triggerPromiseEvent.
  rewrite (listening_none _ _ H). split; reflexivity.
Qed.

(** Running a listener that returns: what it enters, and that the flags
    stay. *)
Lemma invoke_quiet : forall cb parameters this,
  quiet cb = true ->
  exists a,
    completed (invoke cb parameters this) = Normal a
    /\ signals (invoke cb parameters this) = enters cb parameters
    /\ localEventsOnly (after (invoke cb parameters this))
       = localEventsOnly this
    /\ eventPrefix (after (invoke cb parameters this))
       = eventPrefix this
    /\ reactions (after (invoke cb parameters this)) = reactions this
    /\ (a = ABool false <-> vetoes cb = true).
Proof.
  induction cb as [id [a|msg] | serial inner IH length];
    intros parameters this Hq; simpl in Hq |- *.
  - exists a. do 5 (split; [reflexivity | ]). split.
    + intros ->. reflexivity.
    + destruct a as [ | [|] | ]; simpl; intros H; try discriminate; reflexivity.
  - discriminate.
  - destruct (IH parameters this Hq) as [a [Hc [Hs [Hl [Hp [Hr _]]]]]].
    rewrite Hc. simpl. exists AUndefined.
    split; [reflexivity | ]. split; [exact Hs | ]. split; [exact Hl | ].
    split; [exact Hp | ]. split; [exact Hr | ]. split; discriminate.
Qed.

Lemma fire_cancelled : forall events parameters this,
  fire events parameters true this = Reply (Normal true) this [].
Proof.
  induction events as [|e rest IH]; intros; simpl; auto.
Qed.

Lemma fire_quiet : forall events parameters this,
  forallb (fun r => quiet (callback r)) events = true ->
  completed (fire events parameters false this)
  = Normal (existsb (fun r => vetoes (callback r)) events)
  /\ signals (fire events parameters false this)
     = flat_map (fun r => enters (callback r) parameters) (until_veto events)
  /\ localEventsOnly (after (fire events parameters false this))
     = localEventsOnly this
  /\ eventPrefix (after (fire events parameters false this))
     = eventPrefix this.
Proof.
  induction events as [|e rest IH]; intros parameters this Hq; simpl in *.
  - auto.
  - apply andb_true_iff in Hq. destruct Hq as [Hq Hrest].
    destruct (invoke_quiet (callback e) parameters this Hq)
      as [a [Hc [Hs [Hl [Hp [_ Hv]]]]]].
    rewrite Hc. cbn [completed after signals].
    destruct (vetoes (callback e)) eqn:Ev.
    + assert (Ha : a = ABool false) by now apply Hv.
      subst a. rewrite fire_cancelled. simpl.
      rewrite !app_nil_r. auto.
    + assert (Hna : match a with ABool false => true | _ => false end = false).
      { destruct a as [ | [|] | ]; try reflexivity.
        destruct Hv as [Hv _]. specialize (Hv eq_refl). discriminate. }
      rewrite Hna.
      destruct (IH parameters (after (invoke (callback e) parameters this))
                   Hrest) as [H1 [H2 [H3 H4]]].
      rewrite H1, H2, H3, H4, Hs. simpl. auto.
Qed.

(** X15.  [triggerEvent], when the listeners of the event return: they
    are entered in the order of their registration up to and including the
    first that returns [false]; the global event, named by prefix, dot and
    event name, follows exactly when no listener returned [false] and the
    instance is not restricted to local events.  A listener registered
    with [once] never counts as having returned [false]. *)
Theorem triggerEvent_runs_until_a_listener_returns_false :
  forall eventName parameters this,
    listening eventName this <> [] ->
    forallb (fun r => quiet (callback r)) (listening eventName this) = true ->
    let events := listening eventName this in
    let r := triggerEvent eventName parameters this in
    completed r = Normal tt
    /\ signals r
       = flat_map (fun e => enters (callback e) parameters) (until_veto events)
         ++ (if existsb (fun e => vetoes (callback e)) events
                || localEventsOnly this
             then []
             else [GlobalEvent (eventPrefix this ++ "." ++ eventName)
                               parameters]).
Proof.
  intros eventName parameters this Hne Hq. cbv zeta.
  unfold triggerEvent.
  destruct (listening eventName this) as [|e rest] eqn:El; [congruence | ].
  cbn [List.length Nat.eqb].
  destruct (fire_quiet (e :: rest) parameters this Hq) as [H1 [H2 [H3 H4]]].
  rewrite H1. cbn [completed after signals].
  rewrite H3.
  destruct (existsb (fun e0 => vetoes (callback e0)) (e :: rest)); cbn [negb andb orb].
  - split; [reflexivity | ]. rewrite H2. now rewrite app_nil_r.
  - destruct (localEventsOnly this); cbn [negb].
    + split; [reflexivity | ]. rewrite H2. now rewrite app_nil_r.
    + split; [reflexivity | ]. rewrite H2. unfold globalName. now rewrite H4.
Qed.

Lemma same_function_eq : forall a b, same_function a b = true <-> a = b.
Proof.
  intros a b. unfold same_function.
  destruct (listener_eq_dec a b); split; intros; congruence.
Qed.

Lemma kept_by_off : forall event_ cb r,
  negb (String.eqb (event r) event_) || negb (same_function (callback r) cb)
  = true
  <-> r <> Registered event_ cb.
Proof.
  intros event_ cb [e c]. simpl. split.
  - intros H Heq. inversion Heq; subst.
    rewrite String.eqb_refl in H.
    assert (Hs : same_function cb cb = true) by now apply same_function_eq.
    rewrite Hs in H. discriminate.
  - intros H. destruct (String.eqb e event_) eqn:Ee; [ | reflexivity].
    destruct (same_function c cb) eqn:Ec; [ | reflexivity].
    apply String.eqb_eq in Ee. apply same_function_eq in Ec. subst.
    now contradiction H.
Qed.

Lemma filter_all : forall A (f : A -> bool) xs,
  (forall x, In x xs -> f x = true) -> filter f xs = xs.
Proof.
  intros A f xs. induction xs as [|x r IH]; simpl; intros H; [reflexivity | ].
  rewrite (H x (or_introl eq_refl)). f_equal. apply IH. intros y Hy.
  apply H. now right.
Qed.

(** X16.  [off] removes every registration of the pair of event and
    function, and only those: registering the pair twice and deregistering
    it once leaves none, and [on] followed by [off] restores the listeners
    exactly when the pair was not registered before. *)
Theorem off_removes_every_registration_of_the_pair :
  forall event_ cb this,
    (forall r, In r (eventListeners (off event_ cb this))
               <-> In r (eventListeners this) /\ r <> Registered event_ cb)
    /\ off event_ cb (on event_ cb (on event_ cb this)) = off event_ cb this
    /\ (~ In (Registered event_ cb) (eventListeners this) ->
          off event_ cb (on event_ cb this) = this).
Proof.
  intros event_ cb this.
  assert (Hdrop : forall ls,
            filter (fun r => negb (String.eqb (event r) event_)
                             || negb (same_function (callback r) cb))
                   (ls ++ [Registered event_ cb])
            = filter (fun r => negb (String.eqb (event r) event_)
                               || negb (same_function (callback r) cb)) ls).
  { intros ls. rewrite filter_app. simpl. rewrite String.eqb_refl.
    assert (Hs : same_function cb cb = true) by now apply same_function_eq.
    rewrite Hs. simpl. apply app_nil_r. }
  split; [ | split].
  - intros r. unfold off. cbn [set_eventListeners eventListeners].
    rewrite filter_In. now rewrite kept_by_off.
  - unfold off, on. cbn [set_eventListeners eventListeners localEventsOnly
                           eventPrefix closures reactions].
    now rewrite !Hdrop.
  - intros Hnew. unfold off, on.
    cbn [set_eventListeners eventListeners localEventsOnly eventPrefix
           closures reactions].
    rewrite Hdrop. rewrite filter_all.
    + now destruct this.
    + intros r Hr. apply kept_by_off. intros ->. contradiction.
Qed.

(** A closure built by [once] is not the function it wraps. *)
Lemma once_is_another_function : forall serial cb length,
  Once serial cb length <> cb.
Proof.
  intros serial cb length H. apply (f_equal depth) in H. simpl in H. lia.
Qed.

(** X17.  A listener registered with [once] cannot be deregistered with
    [off] under the function that was given: the closure that [once] built
    stays registered and keeps listening. *)
Theorem off_does_not_reach_a_once_listener :
  forall event_ cb this,
    eventListeners (off event_ cb (once event_ cb this))
    = eventListeners (off event_ cb this)
      ++ [Registered event_
            (Once (closures this) cb (List.length (eventListeners this) + 1))]
    /\ listening event_ (off event_ cb (once event_ cb this)) <> [].
Proof.
  intros event_ cb this.
  assert (H : eventListeners (off event_ cb (once event_ cb this))
    = eventListeners (off event_ cb this)
      ++ [Registered event_
            (Once (closures this) cb (List.length (eventListeners this) + 1))]).
  { unfold off, once. cbn [set_eventListeners eventListeners].
    rewrite filter_app. f_equal. simpl. rewrite String.eqb_refl. simpl.
    destruct (same_function
                (Once (closures this) cb (List.length (eventListeners this) + 1))
                cb) eqn:E; [ | reflexivity].
    apply same_function_eq in E. now apply once_is_another_function in E. }
  split; [exact H | ].
  unfold listening. rewrite H, filter_app. simpl. rewrite String.eqb_refl.
  intros Hnil. apply app_eq_nil in Hnil. destruct Hnil as [_ Hnil].
  discriminate.
Qed.

Lemma fire_app : forall xs ys parameters cancelled this,
  fire (xs ++ ys) parameters cancelled this
  = let r := fire xs parameters cancelled this in
    match completed r with
    | Normal c =>
        let r' := fire ys parameters c (after r) in
        Reply (completed r') (after r') (signals r ++ signals r')
    | Abrupt e => Reply (Abrupt e) (after r) (signals r)
    end.
Proof.
  induction xs as [|x r IH]; intros ys parameters cancelled this; simpl.
  - now destruct (fire ys parameters cancelled this).
  - destruct cancelled.
    + apply IH.
    + destruct (invoke (callback x) parameters this) as [[a|e] s1 o1];
        cbn [completed after signals]; [ | reflexivity].
      rewrite IH. cbv zeta.
      destruct (fire r parameters
                     match a with ABool false => true | _ => false end s1)
        as [[c|e] s2 o2]; cbn [completed after signals].
      * now rewrite app_assoc.
      * reflexivity.
Qed.

Lemma fire_bystanders : forall events parameters this,
  forallb bystander events = true ->
  fire events parameters false this
  = Reply (Normal false) this
          (flat_map (fun r => enters (callback r) parameters) events).
Proof.
  induction events as [|[e cb] rest IH]; intros parameters this H; simpl in *;
    [reflexivity | ].
  apply andb_true_iff in H. destruct H as [Hb Hrest].
  unfold bystander in Hb. simpl in Hb.
  destruct cb as [id [a|msg] | ]; try discriminate.
  cbn [invoke completed after signals].
  replace (match a with ABool false => true | _ => false end) with false
    by (destruct a as [ | [|] | ]; try reflexivity; discriminate).
  rewrite (IH parameters this Hrest). reflexivity.
Qed.

Lemma splice_here : forall xs x rest,
  splice (List.length xs) (xs ++ x :: rest) = xs ++ rest.
Proof.
  intros xs x rest. unfold splice.
  induction xs as [|y r IH]; simpl; [reflexivity | ].
  f_equal. exact IH.
Qed.

Lemma splice_last : forall xs x,
  splice (List.length xs + 1 - 1) (xs ++ [x]) = xs.
Proof.
  intros xs x.
  replace (List.length xs + 1 - 1) with (List.length xs) by lia.
  rewrite splice_here. apply app_nil_r.
Qed.

Lemma listening_app : forall eventName this more,
  filter (fun r => String.eqb (event r) eventName)
         (eventListeners this ++ more)
  = listening eventName this
    ++ filter (fun r => String.eqb (event r) eventName) more.
Proof. intros. unfold listening. apply filter_app. Qed.

(** X18.  A listener registered with [once] after listeners that are
    plain functions of the caller, none of which stops the event: the next
    [triggerEvent] enters the earlier listeners, then this one, then sends
    the global event if enabled, and leaves the listeners as they were
    before [once]. *)
Theorem once_listener_is_dropped_after_its_call :
  forall event_ id a parameters this,
    forallb bystander (listening event_ this) = true ->
    let r := triggerEvent event_ parameters
                          (once event_ (Given id (Returns a)) this) in
    completed r = Normal tt
    /\ eventListeners (after r) = eventListeners this
    /\ signals r
       = flat_map (fun e => enters (callback e) parameters)
                  (listening event_ this)
         ++ Entered id parameters
         :: (if localEventsOnly this then []
             else [GlobalEvent (eventPrefix this ++ "." ++ event_)
                               parameters]).
Proof.
  intros event_ id a parameters this Hby. cbv zeta.
  unfold triggerEvent.
  set (armed := once event_ (Given id (Returns a)) this).
  assert (Hl : listening event_ armed
               = listening event_ this
                 ++ [Registered event_
                       (Once (closures this) (Given id (Returns a))
                             (List.length (eventListeners this) + 1))]).
  { unfold listening at 1. unfold armed, once. cbn [eventListeners].
    rewrite listening_app. simpl. now rewrite String.eqb_refl. }
  rewrite Hl. rewrite length_app. cbn [List.length].
  replace (List.length (listening event_ this) + 1 =? 0)%nat with false
    by (symmetry; apply Nat.eqb_neq; lia).
  rewrite fire_app. rewrite (fire_bystanders _ _ _ Hby). cbv zeta.
  cbn [completed after signals fire invoke callback].
  assert (Ha : eventListeners armed
               = eventListeners this
                 ++ [Registered event_
                       (Once (closures this) (Given id (Returns a))
                             (List.length (eventListeners this) + 1))])
    by reflexivity.
  assert (Hlo : localEventsOnly armed = localEventsOnly this) by reflexivity.
  assert (Hpre : eventPrefix armed = eventPrefix this) by reflexivity.
  rewrite Ha, splice_last. cbn [negb andb].
  cbn [set_eventListeners localEventsOnly]. rewrite Hlo.
  destruct (localEventsOnly this); cbn [negb after completed signals];
    cbn [eventListeners];
    (split; [reflexivity | split; [reflexivity | ]]).
  - rewrite app_nil_r. reflexivity.
  - unfold globalName. cbn [eventPrefix]. rewrite app_nil_r.
    rewrite <- app_assoc. reflexivity.
Qed.

Lemma splice_beyond : forall start xs,
  List.length xs <= start -> splice start xs = xs.
Proof.
  intros start xs H. unfold splice.
  rewrite firstn_all2 by lia. rewrite skipn_all2 by lia. apply app_nil_r.
Qed.

Lemma splice_at_end : forall xs x y,
  splice (List.length xs) (xs ++ [x; y]) = xs ++ [y].
Proof. intros. apply splice_here. Qed.

(** X19.  Two listeners registered with [once] for an event that has no
    other listener.  Each removes the registration at the position it was
    given when registered.  The first [triggerEvent] enters both and
    removes the first; the position of the second is then past the end, so
    the second stays registered, and every later [triggerEvent] enters it
    again. *)
Theorem second_once_listener_is_never_dropped :
  forall event_ ida a idb b parameters this,
    listening event_ this = [] ->
    let first := Once (closures this) (Given ida (Returns a))
                      (List.length (eventListeners this) + 1) in
    let second := Once (S (closures this)) (Given idb (Returns b))
                       (List.length (eventListeners this) + 2) in
    let armed := once event_ (Given idb (Returns b))
                   (once event_ (Given ida (Returns a)) this) in
    let r1 := triggerEvent event_ parameters armed in
    let r2 := triggerEvent event_ parameters (after r1) in
    eventListeners armed
    = eventListeners this
      ++ [Registered event_ first; Registered event_ second]
    /\ eventListeners (after r1)
       = eventListeners this ++ [Registered event_ second]
    /\ (exists more,
          signals r1
          = Entered ida parameters :: Entered idb parameters :: more)
    /\ eventListeners (after r2) = eventListeners (after r1)
    /\ (exists more, signals r2 = Entered idb parameters :: more).
Proof.
  intros event_ ida a idb b parameters this Hnone. cbv zeta.
  set (first := Once (closures this) (Given ida (Returns a))
                     (List.length (eventListeners this) + 1)).
  set (second := Once (S (closures this)) (Given idb (Returns b))
                      (List.length (eventListeners this) + 2)).
  set (armed := once event_ (Given idb (Returns b))
                  (once event_ (Given ida (Returns a)) this)).
  assert (Harmed : eventListeners armed
                   = eventListeners this
                     ++ [Registered event_ first; Registered event_ second]).
  { unfold armed, once. cbn [eventListeners closures].
    rewrite <- app_assoc. simpl. unfold first, second.
    rewrite length_app. simpl.
    replace (List.length (eventListeners this) + 1 + 1)
      with (List.length (eventListeners this) + 2) by lia.
    reflexivity. }
  assert (Hl : listening event_ armed
               = [Registered event_ first; Registered event_ second]).
  { unfold listening at 1. rewrite Harmed, listening_app, Hnone.
    simpl. now rewrite String.eqb_refl. }
  assert (Hr1 : eventListeners (after (triggerEvent event_ parameters armed))
                = eventListeners this ++ [Registered event_ second]
                /\ (exists more,
                      signals (triggerEvent event_ parameters armed)
                      = Entered ida parameters :: Entered idb parameters
                          :: more)
                /\ localEventsOnly (after (triggerEvent event_ parameters armed))
                   = localEventsOnly this
                /\ eventPrefix (after (triggerEvent event_ parameters armed))
                   = eventPrefix this).
  { unfold triggerEvent. rewrite Hl. cbn [List.length Nat.eqb].
    cbn [fire invoke callback completed after signals first second].
    cbn [set_eventListeners eventListeners localEventsOnly eventPrefix
           closures reactions].
    rewrite Harmed.
    replace (List.length (eventListeners this) + 1 - 1)
      with (List.length (eventListeners this)) by lia.
    rewrite splice_at_end.
    rewrite splice_beyond
      by (rewrite length_app; simpl; lia).
    fold second. cbn [negb andb].
    destruct (localEventsOnly armed) eqn:Elo; cbn [negb after signals];
      cbn [eventListeners localEventsOnly eventPrefix];
      (split; [reflexivity | split; [eexists; reflexivity | ]]);
      split; try reflexivity; exact Elo. }
  destruct Hr1 as [Hls1 [Hsig1 [Hlo1 Hpre1]]].
  split; [exact Harmed | ]. split; [exact Hls1 | ]. split; [exact Hsig1 | ].
  set (s1 := after (triggerEvent event_ parameters armed)) in *.
  assert (Hl1 : listening event_ s1 = [Registered event_ second]).
  { unfold listening at 1. rewrite Hls1, listening_app, Hnone.
    simpl. now rewrite String.eqb_refl. }
  unfold triggerEvent. rewrite Hl1. cbn [List.length Nat.eqb].
  cbn [fire invoke callback completed after signals second].
  cbn [set_eventListeners eventListeners localEventsOnly eventPrefix
         closures reactions].
  rewrite Hls1.
  rewrite splice_beyond by (rewrite length_app; simpl; lia).
  cbn [negb andb].
  destruct (localEventsOnly s1); cbn [negb after signals eventListeners];
    (split; [reflexivity | eexists; reflexivity]).
Qed.

Lemma callAll_quiet : forall events parameters this,
  forallb (fun r => quiet (callback r)) events = true ->
  completed (callAll events parameters this) = Normal tt
  /\ signals (callAll events parameters this)
     = flat_map (fun r => enters (callback r) parameters) events
  /\ localEventsOnly (after (callAll events parameters this))
     = localEventsOnly this
  /\ eventPrefix (after (callAll events parameters this)) = eventPrefix this
  /\ reactions (after (callAll events parameters this)) = reactions this.
Proof.
  induction events as [|e rest IH]; intros parameters this Hq; simpl in *.
  - auto.
  - apply andb_true_iff in Hq. destruct Hq as [Hq Hrest].
    destruct (invoke_quiet (callback e) parameters this Hq)
      as [a [Hc [Hs [Hl [Hp [Hr _]]]]]].
    rewrite Hc. cbn [completed after signals].
    destruct (IH parameters (after (invoke (callback e) parameters this))
                 Hrest) as [H1 [H2 [H3 [H4 H5]]]].
    rewrite H1, H2, H3, H4, H5, Hs, Hl, Hp, Hr. auto.
Qed.

(** X20.  [triggerPromiseEvent], when the listeners of the event return,
    enters every one of them, whatever the earlier ones returned, and
    queues the global promise event without looking at what they returned:
    once the queue runs, the global promise event is sent exactly when the
    instance is not restricted to local events. *)
Theorem triggerPromiseEvent_ignores_what_listeners_return :
  forall eventName parameters this,
    listening eventName this <> [] ->
    forallb (fun r => quiet (callback r)) (listening eventName this) = true ->
    let r := triggerPromiseEvent eventName parameters this in
    completed r = Normal tt
    /\ signals r
       = flat_map (fun e => enters (callback e) parameters)
                  (listening eventName this)
    /\ reactions (after r) = reactions this ++ [(eventName, parameters)]
    /\ signals (settle (after r))
       = signals (settle this)
         ++ (if localEventsOnly this then []
             else [GlobalPromiseEvent (eventPrefix this ++ "." ++ eventName)
                                      parameters]).
Proof.
  intros eventName parameters this Hne Hq. cbv zeta.
  unfold triggerPromiseEvent.
  destruct (listening eventName this) as [|e rest] eqn:El; [congruence | ].
  cbn [List.length Nat.eqb].
  destruct (callAll_quiet (e :: rest) parameters this Hq)
    as [H1 [H2 [H3 [H4 H5]]]].
  set (r := callAll (e :: rest) parameters this) in *.
  rewrite H1. cbn [completed after signals reactions].
  split; [reflexivity | ]. split; [exact H2 | ].
  split; [now rewrite H5 | ].
  unfold settle, globalName.
  cbn [signals localEventsOnly reactions eventPrefix].
  rewrite H3, H4, H5, flat_map_app. f_equal.
  cbn [flat_map fst snd app].
  destruct (localEventsOnly this); reflexivity.
Qed.

End FiresEventsFacts.

Lemma trigger_without_listener_is_silent_witness :
  FiresEvents.triggerEvent "resize" [VNumber 1] Scenario.wired
  = FiresEvents.Reply (FiresEvents.Normal tt) Scenario.wired []
  /\ FiresEvents.triggerPromiseEvent "resize" [VNumber 1] Scenario.wired
     = FiresEvents.Reply (FiresEvents.Normal tt) Scenario.wired [].
Proof.
  apply (trigger_without_listener_is_silent "resize" [VNumber 1]
           Scenario.wired).
  intros r Hr. simpl in Hr.
  repeat (destruct Hr as [<- | Hr]; [discriminate | ]). destruct Hr.
Defined.

Lemma triggerEvent_runs_until_a_listener_returns_false_witness :
  FiresEvents.completed
    (FiresEvents.triggerEvent "open" [VNumber 1] Scenario.wired)
  = FiresEvents.Normal tt
  /\ FiresEvents.signals
       (FiresEvents.triggerEvent "open" [VNumber 1] Scenario.wired)
     = [FiresEvents.Entered "first" [VNumber 1];
        FiresEvents.Entered "second" [VNumber 1]].
Proof.
  destruct (triggerEvent_runs_until_a_listener_returns_false
              "open" [VNumber 1] Scenario.wired) as [H1 H2].
  - discriminate.
  - reflexivity.
  - split; [exact H1 | exact H2].
Defined.

Lemma once_listener_is_dropped_after_its_call_witness :
  let r := FiresEvents.triggerEvent "close" []
             (FiresEvents.once "close" (Scenario.log "last")
                               Scenario.wired) in
  FiresEvents.completed r = FiresEvents.Normal tt
  /\ FiresEvents.eventListeners (FiresEvents.after r)
     = FiresEvents.eventListeners Scenario.wired
  /\ FiresEvents.signals r
     = [FiresEvents.Entered "other" []; FiresEvents.Entered "last" [];
        FiresEvents.GlobalEvent "widget.close" []].
Proof.
  apply (once_listener_is_dropped_after_its_call
           "close" "last" AUndefined [] Scenario.wired).
  reflexivity.
Defined.

Lemma second_once_listener_is_never_dropped_witness :
  let armed := FiresEvents.once "ready" (Scenario.log "b")
                 (FiresEvents.once "ready" (Scenario.log "a")
                                   Scenario.wired) in
  let r1 := FiresEvents.triggerEvent "ready" [] armed in
  let r2 := FiresEvents.triggerEvent "ready" [] (FiresEvents.after r1) in
  FiresEvents.signals r1
  = [FiresEvents.Entered "a" []; FiresEvents.Entered "b" [];
     FiresEvents.GlobalEvent "widget.ready" []]
  /\ FiresEvents.signals r2
     = [FiresEvents.Entered "b" [];
        FiresEvents.GlobalEvent "widget.ready" []]
  /\ FiresEvents.eventListeners (FiresEvents.after r2)
     = FiresEvents.eventListeners (FiresEvents.after r1).
Proof.
  destruct (second_once_listener_is_never_dropped
              "ready" "a" AUndefined "b" AUndefined [] Scenario.wired)
    as [_ [_ [_ [H _]]]].
  - reflexivity.
  - split; [reflexivity | split; [reflexivity | exact H]].
Defined.

Lemma triggerPromiseEvent_ignores_what_listeners_return_witness :
  let r := FiresEvents.triggerPromiseEvent "open" [] Scenario.wired in
  FiresEvents.completed r = FiresEvents.Normal tt
  /\ FiresEvents.signals r
     = [FiresEvents.Entered "first" []; FiresEvents.Entered "second" [];
        FiresEvents.Entered "third" []]
  /\ FiresEvents.signals (FiresEvents.settle (FiresEvents.after r))
     = [FiresEvents.GlobalPromiseEvent "widget.open" []].
Proof.
  destruct (triggerPromiseEvent_ignores_what_listeners_return
              "open" [] Scenario.wired) as [H1 [H2 [_ H4]]].
  - discriminate.
  - reflexivity.
  - split; [exact H1 | split; [exact H2 | exact H4]].
Defined.

(* ================================================================== *)
(** ** [Configurable] *)

Lemma stripPrefix_length : forall prefix s r,
  Configurable.stripPrefix prefix s = Some r ->
  String.length s = String.length prefix + String.length r.
Proof.
  induction prefix as [|p prefix IH]; intros s r H; simpl in *.
  - inversion H. reflexivity.
  - destruct s as [|c s]; [discriminate | ].
    destruct (Ascii.eqb p c); [ | discriminate].
    simpl. f_equal. now apply IH.
Qed.

Lemma coerceLayers_ends : forall atob parses,
  (forall x y, atob x = Some y -> String.length y <= String.length x) ->
  forall layers s d e,
    String.length s < 7 * S layers ->
    Configurable.coerceLayers atob parses layers s d = Configurable.Abrupt e ->
    e = Configurable.InvalidCharacterError.
Proof.
  intros atob parses Hshort.
  induction layers as [|layers IH]; intros s d e Hlen H;
    cbn [Configurable.coerceLayers] in H.
  - destruct (String.eqb s "null"); [discriminate | ].
    destruct (String.eqb s "undefined"); [discriminate | ].
    destruct (Configurable.stripPrefix "base64:" s) as [b|] eqn:Hp.
    + apply stripPrefix_length in Hp. cbn [String.length] in Hp. lia.
    + destruct (Str.includes ["true"; "yes"] (Str.toLowerCase s));
        [discriminate | ].
      destruct (Str.includes ["false"; "no"] (Str.toLowerCase s));
        [discriminate | ].
      destruct (Configurable.numeric s).
      * destruct d; try discriminate.
        destruct (Str.includes ["0"; "1"] s); discriminate.
      * destruct (parses s); [discriminate | ].
        destruct (String.eqb s EmptyString); discriminate.
  - destruct (String.eqb s "null"); [discriminate | ].
    destruct (String.eqb s "undefined"); [discriminate | ].
    destruct (Configurable.stripPrefix "base64:" s) as [b|] eqn:Hp.
    + apply stripPrefix_length in Hp. cbn [String.length] in Hp.
      destruct (atob b) as [decoded|] eqn:Ha.
      * apply (IH decoded Configurable.Undefined e); [ | exact H].
        apply Hshort in Ha. lia.
      * now inversion H.
    + destruct (Str.includes ["true"; "yes"] (Str.toLowerCase s));
        [discriminate | ].
      destruct (Str.includes ["false"; "no"] (Str.toLowerCase s));
        [discriminate | ].
      destruct (Configurable.numeric s).
      * destruct d; try discriminate.
        destruct (Str.includes ["0"; "1"] s); discriminate.
      * destruct (parses s); [discriminate | ].
        destruct (String.eqb s EmptyString); discriminate.
Qed.

(** X21.  For a decoder that never returns more than it was given, as
    [atob] does, [coerceConfigValue] comes to an end on every string: the
    layers of base64 are peeled one by one, and the call returns a value or
    throws the decoder's error. *)
Theorem coerceConfigValue_peels_every_layer :
  forall atob parses stringValue defaultValue,
    (forall x y, atob x = Some y -> String.length y <= String.length x) ->
    (exists v,
       Configurable.coerceConfigValue atob parses stringValue defaultValue
       = Configurable.Normal v)
    \/ Configurable.coerceConfigValue atob parses stringValue defaultValue
       = Configurable.Abrupt Configurable.InvalidCharacterError.
Proof.
  intros atob parses s d Hshort. unfold Configurable.coerceConfigValue.
  destruct (Configurable.coerceLayers atob parses (String.length s) s d)
    as [v|e] eqn:H.
  - left. now exists v.
  - right. f_equal.
    apply (coerceLayers_ends atob parses Hshort (String.length s) s d e);
      [lia | exact H].
Qed.

Lemma coerceConfigValue_peels_every_layer_witness :
  Configurable.coerceConfigValue Scenario.decode Scenario.parses
                                 "base64:dHJ1ZQ==" Configurable.Undefined
  = Configurable.Normal (Configurable.Boolean true)
  /\ ((exists v,
         Configurable.coerceConfigValue Scenario.decode Scenario.parses
                                        "base64:????" Configurable.Undefined
         = Configurable.Normal v)
      \/ Configurable.coerceConfigValue Scenario.decode Scenario.parses
                                        "base64:????" Configurable.Undefined
         = Configurable.Abrupt Configurable.InvalidCharacterError).
Proof.
  split; [reflexivity | ].
  apply (coerceConfigValue_peels_every_layer
           Scenario.decode Scenario.parses "base64:????"
           Configurable.Undefined).
  intros x y. unfold Scenario.decode.
  destruct (String.eqb x "dHJ1ZQ==") eqn:E; [ | discriminate].
  apply String.eqb_eq in E. subst x. intros H. inversion H. simpl. lia.
Defined.

Section ConfigurableFacts.

Import Configurable.

Lemma assoc_set_same_keys : forall A k (a : A) xs,
  In k (map fst xs) -> map fst (assoc_set k a xs) = map fst xs.
Proof.
  intros A k a xs. induction xs as [|[k' a'] r IH]; simpl; intros H.
  - destruct H.
  - destruct (String.eqb k k') eqn:E; simpl; [reflexivity | ].
    f_equal. apply IH. destruct H as [H | H]; [ | exact H].
    subst k'. now rewrite String.eqb_refl in E.
Qed.

Lemma member_set_same : forall k v xs, member (assoc_set k v xs) k = v.
Proof. intros. unfold member. now rewrite assoc_get_set_same. Qed.

Lemma member_set_other : forall k k' v xs,
  k' <> k -> member (assoc_set k v xs) k' = member xs k'.
Proof.
  intros. unfold member. rewrite assoc_get_set_other; [reflexivity | ].
  congruence.
Qed.

Lemma assoc_get_In : forall A k (a : A) xs,
  assoc_get k xs = Some a -> In (k, a) xs.
Proof.
  intros A k a xs. induction xs as [|[k' a'] r IH]; simpl; intros H.
  - discriminate.
  - destruct (String.eqb k k') eqn:E.
    + apply String.eqb_eq in E. inversion H. subst. now left.
    + right. now apply IH.
Qed.

Section Data.

Variable atob : string -> option string.
Variable parses : string -> bool.

(** The loop over the data attributes, for a list of accepted keys that
    the configuration holds already. *)
Lemma applyDataset_keys : forall keys dataset config,
  NoDup (map fst dataset) ->
  (forall key, In key keys -> In key (map fst config)) ->
  (forall key data,
     In (key, data) dataset -> In key keys ->
     exists v, coerceConfigValue atob parses data (member config key)
               = Normal v) ->
  exists config',
    applyDataset atob parses (Keys keys) dataset (Some config)
    = Normal (Some config')
    /\ map fst config' = map fst config
    /\ (forall key,
          match assoc_get key dataset with
          | Some data =>
              if Str.includes keys key then
                coerceConfigValue atob parses data (member config key)
                = Normal (member config' key)
              else member config' key = member config key
          | None => member config' key = member config key
          end).
Proof.
  intros keys dataset. induction dataset as [|[k data] rest IH];
    intros config Hnd Hkeys Hco; cbn [applyDataset].
  - exists config. split; [reflexivity | split; [reflexivity | ]].
    intros key. reflexivity.
  - simpl in Hnd. inversion Hnd as [|x xs Hnotin Hnd']. subst.
    destruct (Str.includes keys k) eqn:Hin.
    + apply includes_In in Hin.
      destruct (Hco k data (or_introl eq_refl) Hin) as [v Hv].
      rewrite Hv.
      destruct (IH (assoc_set k v config) Hnd') as [config' [Hrun [Hk Hm]]].
      * intros key Hkey. rewrite assoc_set_same_keys; auto.
      * intros key d Hd Hkey.
        assert (Hne : key <> k).
        { intros ->. apply Hnotin. apply in_map_iff. now exists (k, d). }
        rewrite member_set_other by exact Hne.
        apply Hco; [now right | exact Hkey].
      * exists config'. split; [exact Hrun | split].
        -- rewrite Hk. apply assoc_set_same_keys. now apply Hkeys.
        -- intros key. cbn [assoc_get].
           destruct (String.eqb key k) eqn:E.
           ++ apply String.eqb_eq in E. subst key.
              assert (Hi : Str.includes keys k = true) by now apply includes_In.
              rewrite Hi, Hv. f_equal.
              specialize (Hm k).
              destruct (assoc_get k rest) as [d|] eqn:Hg.
              ** exfalso. apply Hnotin. apply assoc_get_In in Hg.
                 apply in_map_iff. now exists (k, d).
              ** rewrite Hm. now rewrite member_set_same.
           ++ apply String.eqb_neq in E. specialize (Hm key).
              rewrite member_set_other in Hm by exact E. exact Hm.
    + destruct (IH config Hnd' Hkeys) as [config' [Hrun [Hk Hm]]].
      * intros key d Hd Hkey. apply Hco; [now right | exact Hkey].
      * exists config'. split; [exact Hrun | split; [exact Hk | ]].
        intros key. cbn [assoc_get].
        destruct (String.eqb key k) eqn:E.
        -- apply String.eqb_eq in E. subst key. rewrite Hin.
           specialize (Hm k).
           destruct (assoc_get k rest) as [d|] eqn:Hg.
           ++ exfalso. apply Hnotin. apply assoc_get_In in Hg.
              apply in_map_iff. now exists (k, d).
           ++ exact Hm.
        -- exact (Hm key).
Qed.

(** X22.  [refreshConfig] on an element, for a plugin whose [defaults()]
    returns an object and that does not accept all data attributes, when
    the data values coerce: the configuration has exactly the names of the
    defaults, in their order; a name that has a data attribute holds the
    coerced data value (coerced against the default), any other name holds
    its default; a data attribute that is not among the defaults adds
    nothing. *)
Theorem refreshConfig_overrides_defaults_with_accepted_data :
  forall this members dataset,
    defaults this = DObject members ->
    acceptAllDataConfigs this <> Some true ->
    element this = Some dataset ->
    NoDup (map fst dataset) ->
    (forall key data,
       In (key, data) dataset -> In key (map fst members) ->
       exists v, coerceConfigValue atob parses data (member members key)
                 = Normal v) ->
    exists config,
      refreshConfig atob parses this
      = (Normal tt,
         set_instanceConfig (Some config)
           (set_acceptedConfigs (Keys (map fst members)) this))
      /\ map fst config = map fst members
      /\ (forall key data,
            In key (map fst members) ->
            assoc_get key dataset = Some data ->
            coerceConfigValue atob parses data (member members key)
            = Normal (member config key))
      /\ (forall key,
            assoc_get key dataset = None ->
            member config key = member members key)
      /\ (forall key,
            ~ In key (map fst members) -> member config key = Undefined).
Proof.
  intros this members dataset Hd Hall He Hnd Hco.
  destruct (applyDataset_keys (map fst members) dataset members Hnd
              (fun key H => H) Hco) as [config [Hrun [Hk Hm]]].
  exists config. split; [ | split; [exact Hk | split; [ | split]]].
  - unfold refreshConfig, getAcceptedConfigs. rewrite Hd.
    assert (Ha : match acceptAllDataConfigs this with
                 | Some true => Normal (Flag true)
                 | _ => Normal (Keys (map fst members))
                 end = Normal (Keys (map fst members))).
    { destruct (acceptAllDataConfigs this) as [[|]|]; try reflexivity.
      now contradiction Hall. }
    rewrite Ha. unfold processConfig, getDefaultConfig.
    cbn [set_acceptedConfigs acceptedConfigs element defaults].
    rewrite He, Hd, Hrun. reflexivity.
  - intros key data Hin Hg. specialize (Hm key). rewrite Hg in Hm.
    assert (Hi : Str.includes (map fst members) key = true)
      by now apply includes_In.
    now rewrite Hi in Hm.
  - intros key Hg. specialize (Hm key). now rewrite Hg in Hm.
  - intros key Hnot. unfold member.
    destruct (assoc_get key config) as [v|] eqn:Hg; [ | reflexivity].
    exfalso. apply Hnot. rewrite <- Hk. apply assoc_get_In in Hg.
    apply in_map_iff. now exists (key, v).
Qed.

(** X23.  Without an object of defaults there is no configuration from
    data attributes.  When [defaults()] returns [null], whose [typeof] is
    ['object'], [refreshConfig] is a [TypeError] and leaves the instance as
    it was; when it returns a value that is no object, no data attribute is
    accepted and the configuration is empty.  (Both for a plugin that does
    not accept all data attributes.) *)
Theorem refreshConfig_needs_an_object_of_defaults :
  forall this,
    acceptAllDataConfigs this <> Some true ->
    (defaults this = DNull ->
       exists what,
         refreshConfig atob parses this = (Abrupt (TypeError what), this))
    /\ (defaults this = DOther ->
          refreshConfig atob parses this
          = (Normal tt,
             set_instanceConfig (Some [])
               (set_acceptedConfigs (Flag false) this))).
Proof.
  intros this Hall.
  assert (Ha : forall x y : completion accepted,
            match acceptAllDataConfigs this with
            | Some true => x
            | _ => y
            end = y).
  { intros x y. destruct (acceptAllDataConfigs this) as [[|]|];
      try reflexivity. now contradiction Hall. }
  split; intros Hd; unfold refreshConfig, getAcceptedConfigs;
    rewrite Hd, Ha.
  - eexists. reflexivity.
  - unfold processConfig, getDefaultConfig.
    cbn [set_acceptedConfigs acceptedConfigs defaults]. now rewrite Hd.
Qed.

End Data.

(** [refreshConfig] does not read the configuration it replaces. *)
Lemma refreshConfig_forgets : forall atob parses config this,
  fst (refreshConfig atob parses (set_instanceConfig config this))
  = fst (refreshConfig atob parses this)
  /\ (fst (refreshConfig atob parses this) = Normal tt ->
        snd (refreshConfig atob parses (set_instanceConfig config this))
        = snd (refreshConfig atob parses this)).
Proof.
  intros atob parses config this. unfold refreshConfig.
  change (getAcceptedConfigs (set_instanceConfig config this))
    with (getAcceptedConfigs this).
  destruct (getAcceptedConfigs this) as [a|e]; cbn [fst snd].
  - change (processConfig atob parses
              (set_acceptedConfigs a (set_instanceConfig config this)))
      with (processConfig atob parses (set_acceptedConfigs a this)).
    destruct (processConfig atob parses (set_acceptedConfigs a this))
      as [c|e]; cbn [fst snd].
    + split; reflexivity.
    + split; [reflexivity | discriminate].
  - split; [reflexivity | discriminate].
Qed.

(** X24.  [setConfig] on an instance without element does nothing, and
    says nothing.  With an element, [getConfig] of the name then returns
    the value that was set and every other name reads as before; a value
    that was set without [persist] does not survive [refreshConfig], which
    computes what it computed without it. *)
Theorem setConfig_then_getConfig :
  forall atob parses String_ config value persist this,
    (element this = None ->
       setConfig String_ config value persist this = (Normal tt, this))
    /\ (forall dataset members,
          element this = Some dataset ->
          instanceConfig this = Some members ->
          let this' := snd (setConfig String_ config value persist this) in
          fst (setConfig String_ config value persist this) = Normal tt
          /\ getConfig config this' = Normal value
          /\ (forall other, other <> config ->
                getConfig other this' = getConfig other this)
          /\ (persist = false ->
                fst (refreshConfig atob parses this')
                = fst (refreshConfig atob parses this)
                /\ (fst (refreshConfig atob parses this) = Normal tt ->
                      snd (refreshConfig atob parses this')
                      = snd (refreshConfig atob parses this)))).
Proof.
  intros atob parses String_ config value persist this. split.
  - intros He. unfold setConfig. now rewrite He.
  - intros dataset members He Hc. cbv zeta. unfold setConfig.
    rewrite He, Hc.
    destruct persist; cbn [fst snd].
    + split; [reflexivity | ].
      split; [unfold getConfig; cbn; now rewrite member_set_same | ].
      split; [ | discriminate].
      intros other Hne. unfold getConfig. cbn. rewrite Hc.
      now rewrite member_set_other.
    + split; [reflexivity | ].
      split; [unfold getConfig; cbn; now rewrite member_set_same | ].
      split.
      * intros other Hne. unfold getConfig. cbn. rewrite Hc.
        now rewrite member_set_other.
      * intros _. apply refreshConfig_forgets.
Qed.

End ConfigurableFacts.

Lemma refreshConfig_overrides_defaults_with_accepted_data_witness :
  exists config,
    Configurable.refreshConfig Scenario.decode Scenario.parses
                               Scenario.configured
    = (Configurable.Normal tt,
       Configurable.set_instanceConfig (Some config)
         (Configurable.set_acceptedConfigs
            (Configurable.Keys ["wide"; "open"; "size"])
            Scenario.configured))
    /\ config = [("wide", Configurable.Boolean true);
                 ("open", Configurable.Boolean true);
                 ("size", Configurable.Number "3")].
Proof.
  destruct (refreshConfig_overrides_defaults_with_accepted_data
              Scenario.decode Scenario.parses Scenario.configured
              [("wide", Configurable.Boolean false);
               ("open", Configurable.Boolean false);
               ("size", Configurable.Number "3")]
              [("open", "1"); ("colour", "red"); ("wide", "base64:dHJ1ZQ==")])
    as [config [Hrun _]].
  - reflexivity.
  - discriminate.
  - reflexivity.
  - repeat constructor; simpl; intuition discriminate.
  - intros key data Hin _. simpl in Hin.
    destruct Hin as [H | [H | [H | []]]]; inversion H; subst;
      eexists; reflexivity.
  - exists config. split; [exact Hrun | ].
    vm_compute in Hrun. now inversion Hrun.
Defined.

Lemma refreshConfig_needs_an_object_of_defaults_witness :
  exists what,
    Configurable.refreshConfig Scenario.decode Scenario.parses
                               Scenario.unconfigured
    = (Configurable.Abrupt (Configurable.TypeError what),
       Scenario.unconfigured).
Proof.
  destruct (refreshConfig_needs_an_object_of_defaults
              Scenario.decode Scenario.parses Scenario.unconfigured)
    as [Hnull _].
  - discriminate.
  - apply Hnull. reflexivity.
Defined.

(* ================================================================== *)
(** ** The older loader: first come, first served *)

Section Held.

Variable this : loader.
Variable i : loc.
Variable k : string.
Variable v : value.
Hypothesis v_defined : v <> VUndefined.

Let K := member_held i k v.
Let X := fun _ : error => True.

Ltac side_held :=
  first
    [ intros; exact Logic.I
    | intros ? ? H; exact H
    | intros; assumption
    | solve [auto] ].

Lemma sat_new_held : forall cls args,
  sat K (spares_member k) X (new cls args).
Proof.
  intros cls args w [Hl [Hi Hv]].
  destruct (res (new cls args w)) as [l|e] eqn:Hres.
  - destruct (new_ok _ _ _ _ Hres) as [o [Hrun [Hlen [[p [Hp Hlt]] _]]]].
    rewrite Hrun. cbn [final out res]. split; [ | split].
    + unfold K, member_held. cbn [set_heap w_heap].
      assert (Hlong : List.length (w_heap w ++ [o])
                      = S (List.length (w_heap w)))
        by (rewrite length_app; simpl; lia).
      split; [ | split].
      * apply links_back_alloc; [exact Hl | ].
        intros p' Hp'. rewrite Hp in Hp'. inversion Hp'; subst p'. lia.
      * lia.
      * rewrite <- Hv. apply lookup_local; auto; try lia.
        intros l' Hl'. apply nth_error_app1. lia.
    + constructor; [exact Logic.I | constructor].
    + discriminate.
  - rewrite (new_err _ _ _ _ Hres). simpl.
    split; [now split | split; [constructor | intros; exact Logic.I]].
Qed.

Lemma sat_defineProperty_held : forall k' d,
  k' <> k -> sat K (spares_member k) X (defineProperty i k' d).
Proof.
  intros k' d Hk w [Hl [Hi Hv]].
  destruct (defineProperty_frame i k' d w)
    as [[Hf Ho] | [o [o' [Hn [Hf [Ho [Hp Hother]]]]]]];
    rewrite Hf, Ho.
  - split; [now split | split; [constructor | intros; exact Logic.I]].
  - split; [ | split; [ | intros; exact Logic.I]].
    + split; [ | split]; simpl.
      * now apply links_back_update with (o := o).
      * now rewrite update_length.
      * rewrite <- Hv. apply lookup_update with (o := o); auto.
    + constructor; [exact Hk | constructor].
Qed.

Lemma sat_defineProperties_held : forall ds,
  (forall k', In k' (map fst ds) -> k' <> k) ->
  sat K (spares_member k) X (defineProperties (VRef i) ds).
Proof.
  intros ds Hks. unfold defineProperties.
  destruct (toPropertyDescriptors ds) as [ds'|] eqn:Hds.
  - apply sat_forEach_in. intros [k' d] Hin. simpl.
    apply sat_defineProperty_held. apply Hks.
    rewrite <- (toPropertyDescriptors_keys _ _ Hds).
    now apply (in_map fst) in Hin.
  - apply sat_throw. exact Logic.I.
Qed.

Lemma sat_filter_held : forall A keys (g : list string -> M A),
  (forall ks, (forall k', In k' ks -> k' <> k) ->
              sat K (spares_member k) X (g ks)) ->
  sat K (spares_member k) X
      (newKeys <-
         filterM (fun key =>
                    member <- get (VRef i) key ;;
                    ret (is_undefined member))
                 keys ;;
       g newKeys).
Proof.
  intros A keys g Hg w HK.
  set (test := fun key : string =>
                 member <- get (VRef i) key ;;
                 ret (is_undefined member)).
  assert (Hpure : forall key, pure (test key)).
  { intros key. unfold test.
    apply pure_bind; [apply pure_get | intros m]. apply pure_ret. }
  pose proof (pure_filterM _ test keys Hpure) as Hpf.
  destruct (res (filterM test keys w)) as [ks|e] eqn:Hres.
  - rewrite (bind_pure_ok _ _ _ _ _ _ (pure_ok_run _ _ _ _ Hpf Hres)).
    apply Hg; [ | exact HK].
    intros k' Hk' ->.
    pose proof (filterM_kept _ test keys w ks Hpure Hres k Hk') as Hpass.
    destruct HK as [_ [_ Hv]].
    unfold test, bind, get, read, ret in Hpass. simpl in Hpass.
    rewrite Hv in Hpass. destruct v; try discriminate.
    now apply v_defined.
  - assert (Hrun : filterM test keys w = Run (Err e) w []).
    { rewrite (pure_run _ _ w Hpf). now rewrite Hres. }
    rewrite (bind_err _ _ _ _ _ _ _ _ Hrun). simpl.
    split; [exact HK | split; [constructor | intros; exact Logic.I]].
Qed.

Lemma sat_applyTrait_held : forall trait,
  sat K (spares_member k) X (Legacy.applyTrait this (VRef i) trait).
Proof.
  intros trait. unfold Legacy.applyTrait.
  destruct (negb (hasTrait (l_snowboard this) trait)).
  - apply sat_throw. exact Logic.I.
  - apply sat_bind; [apply sat_new_held | intros t].
    apply sat_bind; [apply sat_deref; side_held | intros tobj].
    apply sat_bind.
    { apply sat_reduceM. intros b x.
      apply sat_bind;
        [apply sat_getOwnPropertyDescriptor; side_held | intros d].
      apply sat_ret. }
    intros ds. apply sat_bind; [apply sat_get; side_held | intros prototype].
    apply sat_bind; [apply sat_deref; side_held | intros pobj].
    apply sat_bind.
    { apply sat_reduceM. intros b x.
      destruct (Str.includes Legacy.reserved x); [apply sat_ret | ].
      apply sat_bind;
        [apply sat_getOwnPropertyDescriptor; side_held | intros d].
      apply sat_ret. }
    intros ds'. apply sat_filter_held. intros newKeys Hkeys.
    apply sat_bind.
    { apply sat_defineProperties_held. intros k' Hk'.
      destruct (newDescriptors_keys _ _ _ _ Hk') as [Hin | []].
      now apply Hkeys. }
    intros _. apply sat_bind; [apply sat_get; side_held | intros c].
    destruct (truthy c); [ | apply sat_ret].
    destruct c; try solve [sat_go ltac:(exact Logic.I)].
    apply sat_bind; [apply sat_tell; exact Logic.I | intros _].
    apply sat_bind; [apply sat_call_func; side_held | intros _].
    apply sat_ret.
Qed.

End Held.

(** X25.  The trait composition of the older loader keeps what is there:
    a member that the instance has, of its own, from its class or from a
    trait applied earlier, is not defined again by any trait applied later,
    however the composition ends.  (The current loader does not have this
    property, see C3.) *)
Theorem older_loader_is_first_come_first_served :
  forall this i traits w k,
    links_back (w_heap w) = true ->
    i < List.length (w_heap w) ->
    lookup (w_heap w) i k <> VUndefined ->
    let r := forEach traits (Legacy.applyTrait this (VRef i)) w in
    lookup (w_heap (final r)) i k = lookup (w_heap w) i k
    /\ Forall (spares_member k) (out r).
Proof.
  intros this i traits w k Hl Hi Hv. cbv zeta.
  assert (Hs : sat (member_held i k (lookup (w_heap w) i k))
                   (spares_member k) (fun _ => True)
                   (forEach traits (Legacy.applyTrait this (VRef i)))).
  { apply sat_forEach. intros trait. now apply sat_applyTrait_held. }
  destruct (Hs w) as [[_ [_ H1]] [H2 _]]; [now split | ].
  now split.
Qed.

Lemma older_loader_is_first_come_first_served_witness :
  let w := final (assign (VRef Sample.firstInstance) "foo" Sample.greet
                         (Sample.built Sample.alphaBeta)) in
  let r := forEach ["Alpha"; "Beta"]
                   (Legacy.applyTrait Sample.this (VRef Sample.firstInstance))
                   w in
  res r = Ok tt
  /\ lookup (w_heap (final r)) Sample.firstInstance "foo" = Sample.greet.
Proof.
  destruct (older_loader_is_first_come_first_served
              Sample.this Sample.firstInstance ["Alpha"; "Beta"]
              (final (assign (VRef Sample.firstInstance) "foo" Sample.greet
                             (Sample.built Sample.alphaBeta)))
              "foo") as [H _].
  - vm_compute. reflexivity.
  - vm_compute. lia.
  - vm_compute. discriminate.
  - split; [vm_compute; reflexivity | ]. rewrite H. vm_compute. reflexivity.
Defined.

(* ================================================================== *)
(** ** Mocking: what the wrapper is bound to *)






(* ================================================================== *)
(** ** [FiresEvents]: the name of the global event *)

Section FiresEventsGuard.

Import FiresEvents.

(** Running a listener enters functions of the caller only, and leaves
    the prefix and the local-only switch alone. *)
Lemma invoke_frame : forall cb parameters this,
  localEventsOnly (after (invoke cb parameters this)) = localEventsOnly this
  /\ eventPrefix (after (invoke cb parameters this)) = eventPrefix this
  /\ Forall local_signal (signals (invoke cb parameters this)).
Proof.
  induction cb as [id [a|msg] | serial inner IH length]; intros parameters this;
    cbn [invoke].
  - repeat split. repeat constructor.
  - repeat split. repeat constructor.
  - destruct (IH parameters this) as [H1 [H2 H3]].
    destruct (completed (invoke inner parameters this));
      cbn [after signals set_eventListeners localEventsOnly eventPrefix];
      auto.
Qed.

Lemma fire_frame : forall events parameters cancelled this,
  localEventsOnly (after (fire events parameters cancelled this))
  = localEventsOnly this
  /\ eventPrefix (after (fire events parameters cancelled this))
     = eventPrefix this
  /\ Forall local_signal (signals (fire events parameters cancelled this)).
Proof.
  induction events as [|e rest IH]; intros parameters cancelled this;
    cbn [fire].
  - repeat split. constructor.
  - destruct cancelled; [apply IH | ].
    destruct (invoke_frame (callback e) parameters this) as [H1 [H2 H3]].
    destruct (completed (invoke (callback e) parameters this)) as [a|x];
      cbn [after signals completed].
    + destruct (IH parameters
                   (match a with ABool false => true | _ => false end)
                   (after (invoke (callback e) parameters this)))
        as [H4 [H5 H6]].
      rewrite H4, H5, H1, H2. repeat split. now apply Forall_app.
    + auto.
Qed.

(** X27.  On an instance that [construct] has accepted, a global event
    sent by [triggerEvent] is sent only when global events are enabled and
    the prefix is not empty; its name is the prefix, a dot and the name of
    the event, and it carries the parameters of the call unchanged. *)
Theorem construct_vouches_for_the_global_name :
  forall this eventName parameters name sent,
    construct this = Normal tt ->
    In (GlobalEvent name sent)
       (signals (triggerEvent eventName parameters this)) ->
    localEventsOnly this = false
    /\ eventPrefix this <> EmptyString
    /\ name = (eventPrefix this ++ "." ++ eventName)%string
    /\ sent = parameters.
Proof.
  intros this eventName parameters name sent Hc Hin.
  unfold triggerEvent in Hin.
  destruct (List.length (listening eventName this) =? 0)%nat;
    [destruct Hin | ].
  destruct (fire_frame (listening eventName this) parameters false this)
    as [H1 [H2 H3]].
  assert (Hlocal : ~ In (GlobalEvent name sent)
                        (signals (fire (listening eventName this)
                                       parameters false this))).
  { intros Hx. rewrite Forall_forall in H3. exact (H3 _ Hx). }
  destruct (completed (fire (listening eventName this) parameters false this))
    as [cancelled|x]; [ | contradiction].
  rewrite H1 in Hin.
  destruct (negb cancelled && negb (localEventsOnly this)) eqn:Hgo;
    cbn [signals] in Hin; [ | contradiction].
  apply in_app_or in Hin. destruct Hin as [Hin | [Hin | []]];
    [contradiction | ].
  inversion Hin; subst name sent. clear Hin.
  apply andb_true_iff in Hgo. destruct Hgo as [_ Hlo].
  apply negb_true_iff in Hlo.
  split; [exact Hlo | ]. split.
  - intros Hempty. unfold construct in Hc. rewrite Hlo, Hempty in Hc.
    discriminate.
  - split; [ | reflexivity]. unfold globalName. now rewrite H2.
Qed.

End FiresEventsGuard.

Lemma construct_vouches_for_the_global_name_witness :
  In (FiresEvents.GlobalEvent "widget.close" [VNumber 1])
     (FiresEvents.signals
        (FiresEvents.triggerEvent "close" [VNumber 1] Scenario.wired))
  /\ FiresEvents.localEventsOnly Scenario.wired = false
  /\ FiresEvents.eventPrefix Scenario.wired <> EmptyString.
Proof.
  assert (Hin : In (FiresEvents.GlobalEvent "widget.close" [VNumber 1])
                   (FiresEvents.signals
                      (FiresEvents.triggerEvent "close" [VNumber 1]
                                                Scenario.wired)))
    by (vm_compute; right; left; reflexivity).
  destruct (construct_vouches_for_the_global_name
              Scenario.wired "close" [VNumber 1] "widget.close" [VNumber 1]
              eq_refl Hin) as [H1 [H2 _]].
  split; [exact Hin | split; [exact H1 | exact H2]].
Defined.

(* ================================================================== *)
(** ** [Configurable]: accepting every data attribute *)

Section ConfigurableAll.

Import Configurable.

Variable atob : string -> option string.
Variable parses : string -> bool.

Lemma assoc_set_has : forall A k (a : A) xs k',
  k' = k \/ In k' (map fst xs) -> In k' (map fst (assoc_set k a xs)).
Proof.
  intros A k a xs k'. induction xs as [|[k0 a0] r IH]; simpl.
  - intros [-> | []]. now left.
  - destruct (String.eqb k k0) eqn:E; simpl.
    + apply String.eqb_eq in E. subst k0. intros [-> | H]; [now left | exact H].
    + intros [-> | [<- | H]]; [right; apply IH; now left | now left | ].
      right. apply IH. now right.
Qed.

(** The loop of [processConfig] when every data attribute is
    accepted. *)
Lemma applyDataset_all : forall dataset config,
  NoDup (map fst dataset) ->
  (forall key data,
     In (key, data) dataset ->
     exists v, coerceConfigValue atob parses data (member config key)
               = Normal v) ->
  exists config',
    applyDataset atob parses (Flag true) dataset (Some config)
    = Normal (Some config')
    /\ (forall key, In key (map fst config) -> In key (map fst config'))
    /\ (forall key,
          match assoc_get key dataset with
          | Some data =>
              coerceConfigValue atob parses data (member config key)
              = Normal (member config' key)
              /\ In key (map fst config')
          | None => member config' key = member config key
          end).
Proof.
  induction dataset as [|[k data] rest IH]; intros config Hnd Hco;
    cbn [applyDataset].
  - exists config. split; [reflexivity | split; [auto | ]].
    intros key. reflexivity.
  - simpl in Hnd. inversion Hnd as [|x xs Hnotin Hnd']. subst.
    destruct (Hco k data (or_introl eq_refl)) as [v Hv]. rewrite Hv.
    destruct (IH (assoc_set k v config) Hnd') as [config' [Hrun [Hk Hm]]].
    + intros key d Hd.
      assert (Hne : key <> k).
      { intros ->. apply Hnotin. apply in_map_iff. now exists (k, d). }
      rewrite member_set_other by exact Hne.
      apply Hco. now right.
    + exists config'. split; [exact Hrun | split].
      * intros key Hkey. apply Hk. apply assoc_set_has. now right.
      * intros key. cbn [assoc_get].
        destruct (String.eqb key k) eqn:E.
        -- apply String.eqb_eq in E. subst key. rewrite Hv.
           specialize (Hm k).
           destruct (assoc_get k rest) as [d|] eqn:Hg.
           ++ exfalso. apply Hnotin. apply assoc_get_In in Hg.
              apply in_map_iff. now exists (k, d).
           ++ rewrite Hm, member_set_same. split; [reflexivity | ].
              apply Hk. apply assoc_set_has. now left.
        -- apply String.eqb_neq in E. specialize (Hm key).
           rewrite member_set_other in Hm by exact E. exact Hm.
Qed.

(** X28.  [refreshConfig] on an element, for a plugin with
    [acceptAllDataConfigs] set to [true] whose [defaults()] returns an
    object, when the data values coerce: every name of the defaults and
    every data attribute is a name of the configuration; a name with a data
    attribute holds the data value coerced against its default (against
    [undefined] when the defaults do not have the name); any other name
    holds its default. *)
Theorem refreshConfig_accepts_every_data_attribute :
  forall this members dataset,
    defaults this = DObject members ->
    acceptAllDataConfigs this = Some true ->
    element this = Some dataset ->
    NoDup (map fst dataset) ->
    (forall key data,
       In (key, data) dataset ->
       exists v, coerceConfigValue atob parses data (member members key)
                 = Normal v) ->
    exists config,
      refreshConfig atob parses this
      = (Normal tt,
         set_instanceConfig (Some config)
           (set_acceptedConfigs (Flag true) this))
      /\ (forall key, In key (map fst members) -> In key (map fst config))
      /\ (forall key data,
            assoc_get key dataset = Some data ->
            In key (map fst config)
            /\ coerceConfigValue atob parses data (member members key)
               = Normal (member config key))
      /\ (forall key,
            assoc_get key dataset = None ->
            member config key = member members key).
Proof.
  intros this members dataset Hd Hall He Hnd Hco.
  destruct (applyDataset_all dataset members Hnd Hco)
    as [config [Hrun [Hk Hm]]].
  exists config. split; [ | split; [exact Hk | split]].
  - unfold refreshConfig, getAcceptedConfigs. rewrite Hall.
    unfold processConfig, getDefaultConfig.
    cbn [set_acceptedConfigs acceptedConfigs element defaults].
    rewrite He, Hd, Hrun. reflexivity.
  - intros key data Hg. specialize (Hm key). rewrite Hg in Hm. tauto.
  - intros key Hg. specialize (Hm key). now rewrite Hg in Hm.
Qed.

End ConfigurableAll.

Lemma refreshConfig_accepts_every_data_attribute_witness :
  let this := Configurable.Instance
                (Some []) (Configurable.Flag false) (Some true)
                (Some [("open", "1"); ("colour", "red")])
                (Configurable.DObject
                   [("wide", Configurable.Boolean false);
                    ("open", Configurable.Boolean false)]) in
  exists config,
    fst (Configurable.refreshConfig Scenario.decode Scenario.parses this)
    = Configurable.Normal tt
    /\ Configurable.instanceConfig
         (snd (Configurable.refreshConfig Scenario.decode Scenario.parses
                                          this))
       = Some config
    /\ config = [("wide", Configurable.Boolean false);
                 ("open", Configurable.Boolean true);
                 ("colour", Configurable.Text "red")].
Proof.
  cbv zeta.
  destruct (refreshConfig_accepts_every_data_attribute
              Scenario.decode Scenario.parses
              (Configurable.Instance
                (Some []) (Configurable.Flag false) (Some true)
                (Some [("open", "1"); ("colour", "red")])
                (Configurable.DObject
                   [("wide", Configurable.Boolean false);
                    ("open", Configurable.Boolean false)]))
              [("wide", Configurable.Boolean false);
               ("open", Configurable.Boolean false)]
              [("open", "1"); ("colour", "red")])
    as [config [Hrun _]].
  - reflexivity.
  - reflexivity.
  - reflexivity.
  - repeat constructor; simpl; intuition discriminate.
  - intros key data Hin. simpl in Hin.
    destruct Hin as [H | [H | []]]; inversion H; subst;
      eexists; reflexivity.
  - exists config. rewrite Hrun. split; [reflexivity | ].
    split; [reflexivity | ].
    vm_compute in Hrun. now inversion Hrun.
Defined.
